(** * Creator-AI-App: the streaming voice pipeline and the video polling loop

    A shallow embedding of
      - [src/components/LiveAssistant.tsx] (the [LiveAssistant] component:
        [startConversation], [stopConversation], [createBlob],
        [handleMessage] and the four session callbacks), and
      - [generateVideo] of the Gemini service module,
    together with the properties the specification states about them.

    Conventions.
      - Clock readings, buffer durations and the playback cursor are
        JavaScript numbers, that is IEEE 754 binary64 values: they are
        [spec_float]s, added with the correctly rounded [SFadd 53 1024] and
        compared with [SFcompare] (module [Double]).
      - The samples of a captured block are finite [Float32Array] elements,
        modelled by the rationals they denote ([Q]): such an element is a
        dyadic rational and its product with 32768 is exact in double
        precision, so the sample conversion computes on exact values.
      - Objects the browser or the SDK owns (session promises, audio
        contexts, script processors) live in heaps indexed by allocation
        order; React refs hold indices into them, so aliasing between the
        callbacks of successive conversations is visible.
      - Every call that leaves the component is appended to an effect log. *)

From Stdlib Require Import ZArith QArith Lia String Ascii List Bool Sorted SpecFloat.
From stdpp Require Import base list strings.
Import ListNotations.

Local Open Scope Z_scope.

(* ===================================================================== *)
(** ** Capture side: sample conversion and the outbound blob              *)
(* ===================================================================== *)

Module Capture.

(** ECMAScript [truncate]: rounds towards zero. *)
Definition truncate (x : Q) : Z := Z.quot (Qnum x) (Z.pos (Qden x)).

(** ECMAScript [ToInt16], the conversion applied by a store into an
    [Int16Array]: truncate, reduce modulo 2^16, reinterpret as signed. *)
Definition ToInt16 (x : Q) : Z :=
  let int16bit := (truncate x) mod 65536 in
  if 32768 <=? int16bit then int16bit - 65536 else int16bit.

(** [new Uint8Array(int16.buffer)]: the two bytes of each element, low byte
    first (every platform a browser runs on is little-endian). *)
Definition int16_bytes (v : Z) : list Z :=
  let u := v mod 65536 in [u mod 256; u / 256].

Definition Uint8Array_of_Int16Array (int16 : list Z) : list Z :=
  flat_map int16_bytes int16.

(** Modelled from the spec: [encode] of [utils/audioUtils] is not among the
    sources.  The specification says the capture stage "base64-encodes the
    resulting bytes"; this is standard base64 (RFC 4648 alphabet, [=]
    padding), which is what [btoa] produces. *)
Definition base64_alphabet : list ascii :=
  list_ascii_of_string
    "ABCDEFGHIJKLMNOPQRSTUVWXYZabcdefghijklmnopqrstuvwxyz0123456789+/".

Definition base64_digit (n : Z) : ascii :=
  nth (Z.to_nat n) base64_alphabet "="%char.

Fixpoint encode_chars (bytes : list Z) : list ascii :=
  match bytes with
  | [] => []
  | [a] =>
      [base64_digit (a / 4); base64_digit ((a mod 4) * 16); "="%char; "="%char]
  | [a; b] =>
      [base64_digit (a / 4); base64_digit ((a mod 4) * 16 + b / 16);
       base64_digit ((b mod 16) * 4); "="%char]
  | a :: b :: c :: rest =>
      base64_digit (a / 4) :: base64_digit ((a mod 4) * 16 + b / 16)
        :: base64_digit ((b mod 16) * 4 + c / 64) :: base64_digit (c mod 64)
        :: encode_chars rest
  end.

Definition encode (bytes : list Z) : string :=
  string_of_list_ascii (encode_chars bytes).

(** Modelled from the spec: [decode] of [utils/audioUtils] is not among the
    sources either.  It is the inverse direction of the same standard
    base64 (what [atob] accepts): groups of four characters, [=] padding
    only in the last group. *)
Fixpoint index_of (c : ascii) (l : list ascii) : option Z :=
  match l with
  | [] => None
  | x :: l' =>
      if Ascii.eqb c x then Some 0 else option_map Z.succ (index_of c l')
  end.

Definition base64_value (c : ascii) : option Z := index_of c base64_alphabet.

Definition is_pad (c : ascii) : bool := Ascii.eqb c "="%char.

Fixpoint decode_chars (cs : list ascii) : option (list Z) :=
  match cs with
  | [] => Some []
  | c0 :: c1 :: c2 :: c3 :: rest =>
      match base64_value c0, base64_value c1 with
      | Some s0, Some s1 =>
          let b0 := s0 * 4 + s1 / 16 in
          if is_pad c2 then
            if is_pad c3 then
              match rest with [] => Some [b0] | _ => None end
            else None
          else
            match base64_value c2 with
            | Some s2 =>
                let b1 := (s1 mod 16) * 16 + s2 / 4 in
                if is_pad c3 then
                  match rest with [] => Some [b0; b1] | _ => None end
                else
                  match base64_value c3 with
                  | Some s3 =>
                      option_map
                        (fun bytes => b0 :: b1 :: (s2 mod 4) * 64 + s3 :: bytes)
                        (decode_chars rest)
                  | None => None
                  end
            | None => None
            end
      | _, _ => None
      end
  | _ => None
  end.

Definition decode (s : string) : option (list Z) :=
  decode_chars (list_ascii_of_string s).

(** Reading a byte buffer as an [Int16Array]: two bytes per element, low
    byte first, two's complement; a buffer of odd length has no such
    view. *)
Definition int16_of_bytes (lo hi : Z) : Z :=
  let u := lo + 256 * hi in
  if 32768 <=? u then u - 65536 else u.

Fixpoint Int16Array_of_Uint8Array (bytes : list Z) : option (list Z) :=
  match bytes with
  | [] => Some []
  | lo :: hi :: rest =>
      option_map (cons (int16_of_bytes lo hi)) (Int16Array_of_Uint8Array rest)
  | [_] => None
  end.

(** The [Blob] of [@google/genai]: a base64 payload and its MIME type. *)
Record Blob := mkBlob { data : string; mimeType : string }.

(** What the receiver of a blob reads: the payload decoded to bytes, and
    the bytes read as 16-bit samples. *)
Definition payload_bytes (media : Blob) : option (list Z) := decode (data media).

Definition pcm_samples (media : Blob) : option (list Z) :=
  match payload_bytes media with
  | Some bytes => Int16Array_of_Uint8Array bytes
  | None => None
  end.

(** [createScriptProcessor(4096, 1, 1)]: the block size of the capture
    stage. *)
Definition bufferSize : nat := 4096.

(** [createBlob]: [int16[i] = data[i] * 32768] for every index, then the
    bytes of the buffer are encoded. *)
Definition createBlob (samples : list Q) : Blob :=
  let int16 := map (fun x => ToInt16 (x * 32768)) samples in
  {| data := encode (Uint8Array_of_Int16Array int16);
     mimeType := "audio/pcm;rate=16000" |}.

(** What [createBlob] stores for one sample [x]: an Int16 congruent to the
    truncated product modulo 2^16, the truncated product itself unless the
    sample is +1, which wraps to -32768. *)
Definition pcm_of_sample (x : Q) (v : Z) : Prop :=
  -32768 <= v < 32768
  /\ (v - truncate (x * 32768)) mod 65536 = 0
  /\ ((-1 <= x)%Q -> (x < 1)%Q -> v = truncate (x * 32768))
  /\ ((x == 1)%Q -> v = -32768).

End Capture.

(* ===================================================================== *)
(** ** JavaScript numbers                                                 *)
(* ===================================================================== *)

Module Double.

(** IEEE 754 binary64. *)
Definition prec : Z := 53.
Definition emax : Z := 1024.

Definition double : Set := spec_float.

(** [a + b], [a / b], and the number an integer literal denotes. *)
Definition add : double -> double -> double := SFadd prec emax.
Definition div : double -> double -> double := SFdiv prec emax.
Definition of_Z (n : Z) : double := binary_normalize prec emax n 0 false.

Definition zero : double := S754_zero false.

(** [a < b] and [a <= b]; both are false when an operand is [NaN]. *)
Definition ltb : double -> double -> bool := SFltb.
Definition leb : double -> double -> bool := SFleb.

Definition is_nan (x : double) : bool :=
  match x with S754_nan => true | _ => false end.

Definition is_negative_zero (x : double) : bool :=
  match x with S754_zero true => true | _ => false end.

(** A number whose sign bit is clear: [+0], a positive number or
    [+Infinity]. *)
Definition nonnegative (x : double) : bool :=
  match x with
  | S754_zero s | S754_infinity s | S754_finite s _ _ => negb s
  | S754_nan => false
  end.

(** The real number a finite double denotes. *)
Definition value (x : double) : option Q :=
  match x with
  | S754_zero _ => Some 0%Q
  | S754_finite s m e =>
      Some (inject_Z (cond_Zopp s (Z.pos m)) * Qpower 2 e)%Q
  | S754_infinity _ | S754_nan => None
  end.

(** 0.1, 0.25, 0.5, 0.6 and 2 as the literals denote them. *)
Definition tenth : double := div (of_Z 1) (of_Z 10).
Definition quarter : double := div (of_Z 1) (of_Z 4).
Definition half : double := div (of_Z 1) (of_Z 2).
Definition three_fifths : double := div (of_Z 3) (of_Z 5).
Definition two : double := of_Z 2.

End Double.

(* ===================================================================== *)
(** ** The LiveAssistant component                                        *)
(* ===================================================================== *)

Module Live.
Import Capture.
Import Double (double).

(** *** Component state *)

Inductive ConnectionState := disconnected | connecting | connected | error.

(** An entry of [transcripts], and the shape of [currentInterim]. *)
Record Turn := mkTurn { user : string; model : string }.

Definition emptyTurn : Turn := {| user := ""; model := "" |}.

(** The three [useState] cells.  A render of the component is determined by
    their values, and every closure created during that render reads them
    from it. *)
Record ReactState := mkReact {
  connectionState : ConnectionState;
  transcripts : list Turn;
  currentInterim : Turn
}.

(** The seven [useRef] cells.  Object-valued refs hold the index of the
    object in the heap of its kind, [None] for [null]. *)
Record Refs := mkRefs {
  sessionPromiseRef : option nat;
  audioContextRef : option nat;
  scriptProcessorRef : option nat;
  streamRef : option nat;
  outputAudioContextRef : option nat;
  nextStartTimeRef : double;
  sourcesRef : list nat
}.

(** *** Objects owned by the SDK and the browser *)

(** A reaction attached with [.then] to a session promise. *)
Inductive Reaction :=
| session_close                          (* session => session.close() *)
| session_sendRealtimeInput (media : Blob).

Inductive PromiseState :=
| pending (reactions : list Reaction)
| fulfilled.

(** The promise returned by [connectLive], with the render whose closures
    ([handleMessage] in particular) the callbacks passed to it captured. *)
Record LiveSession := mkSession {
  promise : PromiseState;
  render : ReactState
}.

(** [AudioContext.state]. *)
Inductive AudioContextState := suspended | running | closed.

Record ScriptProcessorNode := mkNode {
  node_context : nat;
  node_connected : bool
}.

Record Browser := mkBrowser {
  sessions : list LiveSession;
  contexts : list AudioContextState;
  processors : list ScriptProcessorNode;
  streams : nat;               (* media streams handed out so far *)
  sources : nat;               (* buffer sources created so far *)
  micRequests : list nat       (* sessions whose [onopen] awaits getUserMedia *)
}.

(** Calls that leave the component, in the order they are made. *)
Inductive Effect :=
| E_setConnectionState (s : ConnectionState)
| E_console_error
| E_connectLive (p : nat)
| E_getUserMedia (p : nat)
| E_session_close (p : nat)
| E_sendRealtimeInput (p : nat) (media : Blob)
| E_track_stop (stream : nat)
| E_processor_disconnect (node : nat)
| E_context_close (ctx : nat)
| E_source_start (source : nat) (when : double) (duration : double).

Record Pipeline := mkPipeline {
  react : ReactState;
  refs : Refs;
  browser : Browser;
  log : list Effect
}.

(** The component as first mounted. *)
Definition mount : Pipeline :=
  {| react := mkReact disconnected [] emptyTurn;
     refs := mkRefs None None None None None Double.zero [];
     browser := mkBrowser [] [] [] 0 0 [];
     log := [] |}.

(** *** Field updates *)

Definition upd_react (f : ReactState -> ReactState) (st : Pipeline) :=
  mkPipeline (f (react st)) (refs st) (browser st) (log st).
Definition upd_refs (f : Refs -> Refs) (st : Pipeline) :=
  mkPipeline (react st) (f (refs st)) (browser st) (log st).
Definition upd_browser (f : Browser -> Browser) (st : Pipeline) :=
  mkPipeline (react st) (refs st) (f (browser st)) (log st).
Definition emit (e : Effect) (st : Pipeline) :=
  mkPipeline (react st) (refs st) (browser st) (log st ++ [e]).

Definition set_sessionPromiseRef v (r : Refs) :=
  mkRefs v (audioContextRef r) (scriptProcessorRef r) (streamRef r)
    (outputAudioContextRef r) (nextStartTimeRef r) (sourcesRef r).
Definition set_audioContextRef v (r : Refs) :=
  mkRefs (sessionPromiseRef r) v (scriptProcessorRef r) (streamRef r)
    (outputAudioContextRef r) (nextStartTimeRef r) (sourcesRef r).
Definition set_scriptProcessorRef v (r : Refs) :=
  mkRefs (sessionPromiseRef r) (audioContextRef r) v (streamRef r)
    (outputAudioContextRef r) (nextStartTimeRef r) (sourcesRef r).
Definition set_streamRef v (r : Refs) :=
  mkRefs (sessionPromiseRef r) (audioContextRef r) (scriptProcessorRef r) v
    (outputAudioContextRef r) (nextStartTimeRef r) (sourcesRef r).
Definition set_outputAudioContextRef v (r : Refs) :=
  mkRefs (sessionPromiseRef r) (audioContextRef r) (scriptProcessorRef r)
    (streamRef r) v (nextStartTimeRef r) (sourcesRef r).
Definition set_nextStartTimeRef v (r : Refs) :=
  mkRefs (sessionPromiseRef r) (audioContextRef r) (scriptProcessorRef r)
    (streamRef r) (outputAudioContextRef r) v (sourcesRef r).
Definition set_sourcesRef v (r : Refs) :=
  mkRefs (sessionPromiseRef r) (audioContextRef r) (scriptProcessorRef r)
    (streamRef r) (outputAudioContextRef r) (nextStartTimeRef r) v.

Definition set_sessions v (b : Browser) :=
  mkBrowser v (contexts b) (processors b) (streams b) (sources b)
    (micRequests b).
Definition set_contexts v (b : Browser) :=
  mkBrowser (sessions b) v (processors b) (streams b) (sources b)
    (micRequests b).
Definition set_processors v (b : Browser) :=
  mkBrowser (sessions b) (contexts b) v (streams b) (sources b)
    (micRequests b).
Definition set_streams v (b : Browser) :=
  mkBrowser (sessions b) (contexts b) (processors b) v (sources b)
    (micRequests b).
Definition set_sources v (b : Browser) :=
  mkBrowser (sessions b) (contexts b) (processors b) (streams b) v
    (micRequests b).
Definition set_micRequests v (b : Browser) :=
  mkBrowser (sessions b) (contexts b) (processors b) (streams b) (sources b)
    v.

(** *** State setters of the component *)

Definition setConnectionState (s : ConnectionState) (st : Pipeline) :=
  emit (E_setConnectionState s)
    (upd_react (fun r => mkReact s (transcripts r) (currentInterim r)) st).

(** [setTranscripts(prev => f(prev))]. *)
Definition setTranscripts (f : list Turn -> list Turn) (st : Pipeline) :=
  upd_react
    (fun r => mkReact (connectionState r) (f (transcripts r))
                (currentInterim r)) st.

(** [setCurrentInterim(prev => f(prev))]. *)
Definition setCurrentInterim (f : Turn -> Turn) (st : Pipeline) :=
  upd_react
    (fun r => mkReact (connectionState r) (transcripts r)
                (f (currentInterim r))) st.

(** *** Promises, contexts, nodes *)

(** Running a reaction on the session behind promise [p]. *)
Definition react_to (p : nat) (k : Reaction) (st : Pipeline) : Pipeline :=
  match k with
  | session_close => emit (E_session_close p) st
  | session_sendRealtimeInput media => emit (E_sendRealtimeInput p media) st
  end.

(** [promise.then(k)]: queued while the promise is pending, run once it is
    fulfilled.  (A reaction on a fulfilled promise runs as a microtask of
    the current task; no code of the component runs in between, so it is
    run where it is attached.) *)
Definition promise_then (p : nat) (k : Reaction) (st : Pipeline) : Pipeline :=
  match sessions (browser st) !! p with
  | Some (mkSession (pending ks) r) =>
      upd_browser
        (fun b => set_sessions
                    (<[p := mkSession (pending (ks ++ [k])) r]> (sessions b)) b)
        st
  | Some (mkSession fulfilled _) => react_to p k st
  | None => st
  end.

(** Fulfilment: the queued reactions run in the order they were attached. *)
Definition fulfil (p : nat) (st : Pipeline) : Pipeline :=
  match sessions (browser st) !! p with
  | Some (mkSession (pending ks) r) =>
      fold_left (fun s k => react_to p k s) ks
        (upd_browser
           (fun b => set_sessions
                       (<[p := mkSession fulfilled r]> (sessions b)) b)
           st)
  | _ => st
  end.

Definition context_state (st : Pipeline) (c : nat) : option AudioContextState :=
  contexts (browser st) !! c.

(** [ctx.close()]: the context is released and the [state] the guard of
    [stopConversation] reads is ['closed'] from then on. *)
Definition context_close (c : nat) (st : Pipeline) : Pipeline :=
  emit (E_context_close c)
    (upd_browser (fun b => set_contexts (<[c := closed]> (contexts b)) b) st).

(** [if (ref.current && ref.current.state !== 'closed') ref.current.close()]. *)
Definition close_unless_closed (r : option nat) (st : Pipeline) : Pipeline :=
  match r with
  | Some c =>
      match context_state st c with
      | Some closed | None => st
      | Some _ => context_close c st
      end
  | None => st
  end.

(** [new AudioContext(...)]: a fresh running context. *)
Definition new_AudioContext (st : Pipeline) : nat * Pipeline :=
  (length (contexts (browser st)),
   upd_browser (fun b => set_contexts (contexts b ++ [running]) b) st).

(** [node.disconnect()]. *)
Definition processor_disconnect (n : nat) (st : Pipeline) : Pipeline :=
  emit (E_processor_disconnect n)
    (upd_browser
       (fun b => set_processors
                   (alter (fun nd => mkNode (node_context nd) false) n
                      (processors b)) b)
       st).

(** [Set.add] and [Set.delete] on [sourcesRef.current]. *)
Definition Set_add (x : nat) (s : list nat) : list nat :=
  if existsb (Nat.eqb x) s then s else s ++ [x].
Definition Set_delete (x : nat) (s : list nat) : list nat :=
  List.filter (fun y => negb (Nat.eqb x y)) s.

(** *** Messages from the server *)

(** A [Transcription] of the SDK; its [text] is optional. *)
Record Transcription := mkTranscription { text : option string }.

(** The part of [message.serverContent] the handler reads:
    [inputTranscription] and [outputTranscription], [turnComplete], and
    [modelTurn?.parts[0]?.inlineData?.data]. *)
Record ServerContent := mkContent {
  inputTranscription : option Transcription;
  outputTranscription : option Transcription;
  turnComplete : bool;
  inlineData : option string
}.

Record LiveServerMessage := mkMessage { serverContent : option ServerContent }.

(** [prev + transcription.text]: the string concatenation converts an
    undefined operand to the string "undefined". *)
Definition appended (transcription : Transcription) : string :=
  match text transcription with
  | Some t => t
  | None => "undefined"
  end.

(** JavaScript truthiness of an optional string. *)
Definition truthy (s : option string) : bool :=
  match s with
  | Some EmptyString | None => false
  | Some _ => true
  end.

(** *** The component's functions *)

(** Lines 23-26 of [stopConversation]: the session handle. *)
Definition release_session (st : Pipeline) : Pipeline :=
  match sessionPromiseRef (refs st) with
  | Some p =>
      upd_refs (set_sessionPromiseRef None) (promise_then p session_close st)
  | None => st
  end.

(** Lines 27-30: the device stream ([forEach(track => track.stop())]). *)
Definition release_stream (st : Pipeline) : Pipeline :=
  match streamRef (refs st) with
  | Some s => upd_refs (set_streamRef None) (emit (E_track_stop s) st)
  | None => st
  end.

(** Lines 31-34: the frame-capture processor. *)
Definition release_processor (st : Pipeline) : Pipeline :=
  match scriptProcessorRef (refs st) with
  | Some n => upd_refs (set_scriptProcessorRef None) (processor_disconnect n st)
  | None => st
  end.

(** [stopConversation] (lines 22-42). *)
Definition stopConversation (st : Pipeline) : Pipeline :=
  let st := release_session st in
  let st := release_stream st in
  let st := release_processor st in
  let st := close_unless_closed (audioContextRef (refs st)) st in
  let st := close_unless_closed (outputAudioContextRef (refs st)) st in
  setConnectionState disconnected st.

(** Where the [try] block of [startConversation] throws, if it does: the
    two [AudioContext] constructors and [connectLive] (whose [getGenAI]
    throws without an API key) are the calls in it that can. *)
Inductive StartOutcome :=
| start_ok
| throws_AudioContext
| throws_output_AudioContext
| throws_connectLive.

(** The [catch] branch of [startConversation]. *)
Definition start_catch (st : Pipeline) : Pipeline :=
  setConnectionState error (emit E_console_error st).

(** [startConversation] (lines 44-92), as created by the render [rnd]: the
    guard reads [connectionState] of that render, and the callbacks handed
    to [connectLive] capture its [handleMessage]. *)
Definition startConversation (rnd : ReactState) (outcome : StartOutcome)
    (st : Pipeline) : Pipeline :=
  match connectionState rnd with
  | disconnected =>
      let st := setConnectionState connecting st in
      let st := setTranscripts (fun _ => []) st in
      let st := setCurrentInterim (fun _ => emptyTurn) st in
      match outcome with
      | throws_AudioContext => start_catch st
      | _ =>
          let '(c, st) := new_AudioContext st in
          let st := upd_refs (set_audioContextRef (Some c)) st in
          match outcome with
          | throws_output_AudioContext => start_catch st
          | _ =>
              let '(o, st) := new_AudioContext st in
              let st := upd_refs (set_outputAudioContextRef (Some o)) st in
              let st := upd_refs (set_nextStartTimeRef Double.zero) st in
              let st := upd_refs (set_sourcesRef []) st in
              match outcome with
              | throws_connectLive => start_catch st
              | _ =>
                  let p := length (sessions (browser st)) in
                  let st :=
                    upd_browser
                      (fun b => set_sessions
                                  (sessions b ++ [mkSession (pending []) rnd])
                                  b)
                      st in
                  let st := emit (E_connectLive p) st in
                  upd_refs (set_sessionPromiseRef (Some p)) st
              end
          end
      end
  | _ => st
  end.

(** [onopen] up to its [await] (lines 59-60): the state is set to
    [connected], then the microphone is requested. *)
Definition onopen (p : nat) (st : Pipeline) : Pipeline :=
  let st := setConnectionState connected st in
  let st := emit (E_getUserMedia p) st in
  upd_browser (fun b => set_micRequests (micRequests b ++ [p]) b) st.

(** [onaudioprocess] (lines 64-72). *)
Definition onaudioprocess (samples : list Q) (st : Pipeline) : Pipeline :=
  let pcmBlob := createBlob samples in
  match sessionPromiseRef (refs st) with
  | Some p => promise_then p (session_sendRealtimeInput pcmBlob) st
  | None => st
  end.

(** [onopen] after [getUserMedia] has resolved (lines 60-74): the stream is
    stored, then the capture stage is created on whatever context
    [audioContextRef] holds at that time and connected. *)
Definition onopen_resume (st : Pipeline) : Pipeline :=
  let s := streams (browser st) in
  let st := upd_browser (set_streams (S s)) st in
  let st := upd_refs (set_streamRef (Some s)) st in
  match audioContextRef (refs st) with
  | None => st                               (* [current!] is null: TypeError *)
  | Some c =>
      let n := length (processors (browser st)) in
      let st :=
        upd_browser
          (fun b => set_processors (processors b ++ [mkNode c true]) b) st in
      upd_refs (set_scriptProcessorRef (Some n)) st
  end.

(** [Math.max] on two numbers: [NaN] if either is, the larger one
    otherwise, and [+0] rather than [-0] when both are zeros. *)
Definition Math_max (a b : double) : double :=
  match SFcompare a b with
  | None => S754_nan
  | Some Lt => b
  | Some Gt => a
  | Some Eq => if Double.is_negative_zero a then b else a
  end.

(** [handleMessage] (lines 106-134), as created by the render [rnd].
    [currentTime] is the reading of [outputAudioContextRef.current.currentTime]
    and [decoded] the duration of the buffer [decodeAudioData] returns
    ([None] when decoding throws); [decodeAudioData] does no asynchronous
    work of its own, so the handler resumes within the same task. *)
Definition handleMessage (rnd : ReactState) (message : LiveServerMessage)
    (currentTime : double) (decoded : option double) (st : Pipeline)
  : Pipeline :=
  match serverContent message with
  | None => st
  | Some content =>
      let st :=
        match inputTranscription content with
        | Some transcription =>
            setCurrentInterim
              (fun prev =>
                 mkTurn (user prev +:+ appended transcription) (model prev)) st
        | None => st
        end in
      let st :=
        match outputTranscription content with
        | Some transcription =>
            setCurrentInterim
              (fun prev =>
                 mkTurn (user prev) (model prev +:+ appended transcription)) st
        | None => st
        end in
      let st :=
        if turnComplete content then
          let st :=
            setTranscripts
              (fun prev =>
                 prev ++ [mkTurn (user (currentInterim rnd))
                            (model (currentInterim rnd))]) st in
          setCurrentInterim (fun _ => emptyTurn) st
        else st in
      match truthy (inlineData content), outputAudioContextRef (refs st) with
      | true, Some _ =>
          let st :=
            upd_refs
              (fun r => set_nextStartTimeRef
                          (Math_max (nextStartTimeRef r) currentTime) r) st in
          match decoded with
          | None => st
          | Some duration =>
              let source := sources (browser st) in
              let st := upd_browser (set_sources (S source)) st in
              let st :=
                emit (E_source_start source (nextStartTimeRef (refs st))
                        duration) st in
              let st :=
                upd_refs
                  (fun r => set_nextStartTimeRef
                              (Double.add (nextStartTimeRef r) duration) r)
                  st in
              upd_refs (fun r => set_sourcesRef (Set_add source (sourcesRef r)) r)
                st
          end
      | _, _ => st
      end
  end.

(** [onerror] (lines 79-83). *)
Definition onerror (st : Pipeline) : Pipeline :=
  let st := emit E_console_error st in
  let st := setConnectionState error st in
  stopConversation st.

(** [onclose] (lines 84-86). *)
Definition onclose (st : Pipeline) : Pipeline := stopConversation st.

(** The ['ended'] listener of a buffer source (line 128). *)
Definition onended (source : nat) (st : Pipeline) : Pipeline :=
  upd_refs (fun r => set_sourcesRef (Set_delete source (sourcesRef r)) r) st.

(** *** What the component renders (lines 143-189) *)

Inductive ButtonAction := do_start | do_stop.

Record View := mkView {
  button : ButtonAction;
  button_disabled : bool;
  button_label : string;
  live_badge : bool;
  error_banner : bool;
  shown_turns : list Turn;
  shown_interim : option Turn;
  placeholder : bool
}.

Definition is_connected (s : ConnectionState) : bool :=
  match s with connected => true | _ => false end.
Definition is_connecting (s : ConnectionState) : bool :=
  match s with connecting => true | _ => false end.
Definition is_disconnected (s : ConnectionState) : bool :=
  match s with disconnected => true | _ => false end.
Definition is_error (s : ConnectionState) : bool :=
  match s with error => true | _ => false end.

Definition nonempty (s : string) : bool :=
  match s with EmptyString => false | _ => true end.

Definition view (r : ReactState) : View :=
  let s := connectionState r in
  {| button := if is_connected s then do_stop else do_start;
     button_disabled := negb (is_connected s) && is_connecting s;
     button_label :=
       if is_connected s then "Stop Conversation"
       else if is_connecting s then "Connecting..." else "Start Conversation";
     live_badge := is_connected s;
     error_banner := is_error s;
     shown_turns := transcripts r;
     shown_interim :=
       if nonempty (user (currentInterim r)) || nonempty (model (currentInterim r))
       then Some (currentInterim r) else None;
     placeholder :=
       is_disconnected s && Nat.eqb (length (transcripts r)) 0 |}.

(** *** Events *)

(** What can happen to a mounted component.  Each event runs one handler to
    completion (the page is single-threaded). *)
Inductive Event :=
| Start (outcome : StartOutcome)   (* start(): the latest render's [startConversation] *)
| Stop                             (* stop(): the button, or the unmount cleanup *)
| SessionOpen (p : nat)            (* the socket of session [p] opens *)
| MicGranted (p : nat)             (* the getUserMedia of [p]'s [onopen] resolves *)
| MicDenied (p : nat)              (* ... or rejects *)
| AudioProcess (node : nat) (samples : list Q)
| ServerMessage (p : nat) (message : LiveServerMessage)
    (currentTime : double) (decoded : option double)
| ServerError (p : nat)
| ServerClose (p : nat)
| SourceEnded (source : nat).

(** The first pending microphone request of session [p], if any, removed. *)
Fixpoint take_request (p : nat) (reqs : list nat) : option (list nat) :=
  match reqs with
  | [] => None
  | q :: reqs' =>
      if Nat.eqb p q then Some reqs'
      else option_map (cons q) (take_request p reqs')
  end.

(** A script processor delivers blocks while it is connected and its
    context is running. *)
Definition fires (node : nat) (st : Pipeline) : bool :=
  match processors (browser st) !! node with
  | Some nd =>
      node_connected nd &&
      match context_state st (node_context nd) with
      | Some running => true
      | _ => false
      end
  | None => false
  end.

(** One event.  The SDK calls [onopen] when the socket opens and fulfils
    the promise [connectLive] returned right after it, within the same
    task; an [await] that rejects inside [onopen] rejects the promise of
    that call, which nothing observes. *)
Definition step (ev : Event) (st : Pipeline) : Pipeline :=
  match ev with
  | Start outcome => startConversation (react st) outcome st
  | Stop => stopConversation st
  | SessionOpen p =>
      match sessions (browser st) !! p with
      | Some (mkSession (pending _) _) => fulfil p (onopen p st)
      | _ => st
      end
  | MicGranted p =>
      match take_request p (micRequests (browser st)) with
      | Some reqs => onopen_resume (upd_browser (set_micRequests reqs) st)
      | None => st
      end
  | MicDenied p =>
      match take_request p (micRequests (browser st)) with
      | Some reqs => upd_browser (set_micRequests reqs) st
      | None => st
      end
  | AudioProcess node samples =>
      if fires node st then onaudioprocess samples st else st
  | ServerMessage p message currentTime decoded =>
      match sessions (browser st) !! p with
      | Some s => handleMessage (render s) message currentTime decoded st
      | None => st
      end
  | ServerError p =>
      match sessions (browser st) !! p with
      | Some _ => onerror st
      | None => st
      end
  | ServerClose p =>
      match sessions (browser st) !! p with
      | Some _ => onclose st
      | None => st
      end
  | SourceEnded source => onended source st
  end.

Definition run (evs : list Event) (st : Pipeline) : Pipeline :=
  fold_left (fun s ev => step ev s) evs st.

(** *** Observations on a run *)

(** The values passed to [setConnectionState], in order. *)
Definition state_trace (l : list Effect) : list ConnectionState :=
  flat_map (fun e => match e with E_setConnectionState s => [s] | _ => [] end) l.

(** The realtime-input frames sent, in order. *)
Definition frames_sent (l : list Effect) : list (nat * Blob) :=
  flat_map
    (fun e => match e with E_sendRealtimeInput p m => [(p, m)] | _ => [] end) l.

(** The buffers scheduled, as (start time, duration), in order. *)
Definition scheduled (l : list Effect) : list (double * double) :=
  flat_map
    (fun e => match e with E_source_start _ w d => [(w, d)] | _ => [] end) l.

Definition count (P : Effect -> bool) (l : list Effect) : nat :=
  length (List.filter P l).

Definition is_track_stop (s : nat) (e : Effect) : bool :=
  match e with E_track_stop s' => Nat.eqb s s' | _ => false end.
Definition is_processor_disconnect (n : nat) (e : Effect) : bool :=
  match e with E_processor_disconnect n' => Nat.eqb n n' | _ => false end.
Definition is_context_close (c : nat) (e : Effect) : bool :=
  match e with E_context_close c' => Nat.eqb c c' | _ => false end.
Definition is_session_close (p : nat) (e : Effect) : bool :=
  match e with E_session_close p' => Nat.eqb p p' | _ => false end.

Definition is_close_reaction (k : Reaction) : bool :=
  match k with session_close => true | _ => false end.
Definition is_send_reaction (k : Reaction) : bool :=
  match k with session_sendRealtimeInput _ => true | _ => false end.

(** The reactions still queued on the promise of session [p]. *)
Definition queued (p : nat) (st : Pipeline) : list Reaction :=
  match sessions (browser st) !! p with
  | Some (mkSession (pending ks) _) => ks
  | _ => []
  end.

(** How often [session.close()] of session [p] has been called or is queued
    to be called once its promise is fulfilled. *)
Definition session_closes (p : nat) (st : Pipeline) : nat :=
  count (is_session_close p) (log st)
  + length (List.filter is_close_reaction (queued p st)).

(** *** Inbound message sequences *)

(** A message as the handler meets it: the message, the output clock when
    it is handled, and what decoding its audio payload gives. *)
Record Inbound := mkInbound {
  message : LiveServerMessage;
  clock : double;
  decoded : option double
}.

(** The handler of render [rnd] applied to a sequence of messages, in
    arrival order. *)
Definition handleMessages (rnd : ReactState) (inbound : list Inbound)
    (st : Pipeline) : Pipeline :=
  fold_left
    (fun s m => handleMessage rnd (message m) (clock m) (decoded m) s)
    inbound st.

(** The message carries an audio payload. *)
Definition audible (m : Inbound) : bool :=
  match serverContent (message m) with
  | Some content => truthy (inlineData content)
  | None => false
  end.

(** The audio fragments of a sequence that decode to a buffer: arrival
    time and duration of each. *)
Definition fragments (inbound : list Inbound) : list (double * double) :=
  flat_map
    (fun m =>
       match audible m, decoded m with
       | true, Some d => [(clock m, d)]
       | _, _ => []
       end)
    inbound.

(** The buffers that decode have non-negative durations. *)
Definition durations_nonnegative (inbound : list Inbound) : Prop :=
  List.Forall
    (fun m =>
       match decoded m with
       | Some d => Double.nonnegative d = true
       | None => True
       end)
    inbound.

(** Iterated [stop()]. *)
Definition stop_times (n : nat) (st : Pipeline) : Pipeline :=
  Nat.iter n stopConversation st.

(** The context is referenced by one of the two context refs and is not
    closed yet. *)
Definition held_open (st : Pipeline) (c : nat) : bool :=
  (bool_decide (audioContextRef (refs st) = Some c)
   || bool_decide (outputAudioContextRef (refs st) = Some c))
  && match context_state st c with
     | Some closed | None => false
     | Some _ => true
     end.

(** The session ref, when set, points at an allocated session. *)
Definition session_ref_valid (st : Pipeline) : Prop :=
  forall p, sessionPromiseRef (refs st) = Some p ->
            is_Some (sessions (browser st) !! p).

(** Nothing is left to release: the three handles are null and the contexts
    the context refs point at are closed. *)
Definition torn_down (st : Pipeline) : Prop :=
  sessionPromiseRef (refs st) = None /\
  streamRef (refs st) = None /\
  scriptProcessorRef (refs st) = None /\
  (forall c,
      audioContextRef (refs st) = Some c \/
      outputAudioContextRef (refs st) = Some c ->
      context_state st c = Some closed \/ context_state st c = None).

(** The context behind a ref, when it can still be closed. *)
Definition open_context (st : Pipeline) (r : option nat) : option nat :=
  match r with
  | Some c =>
      match context_state st c with
      | Some closed | None => None
      | Some _ => Some c
      end
  | None => None
  end.

(** What the session side of the pipeline looks like from outside. *)
Definition session_side (st : Pipeline) :=
  (sessionPromiseRef (refs st), sessions (browser st), frames_sent (log st)).

(** No session promise has a send reaction waiting on it. *)
Definition no_queued_sends (st : Pipeline) : Prop :=
  forall p, List.filter is_send_reaction (queued p st) = [].

(** The effect a reaction has when it runs on session [p]. *)
Definition reaction_effect (p : nat) (k : Reaction) : Effect :=
  match k with
  | session_close => E_session_close p
  | session_sendRealtimeInput media => E_sendRealtimeInput p media
  end.

Definition is_start (ev : Event) : bool :=
  match ev with Start _ => true | _ => false end.

(** *** Concrete messages and runs *)

Definition says_user (t : string) : LiveServerMessage :=
  mkMessage
    (Some (mkContent (Some (mkTranscription (Some t))) None false None)).
Definition says_model (t : string) : LiveServerMessage :=
  mkMessage
    (Some (mkContent None (Some (mkTranscription (Some t))) false None)).
Definition turn_complete : LiveServerMessage :=
  mkMessage (Some (mkContent None None true None)).
Definition audio_fragment (payload : string) : LiveServerMessage :=
  mkMessage (Some (mkContent None None false (Some payload))).

(** A conversation whose session has opened ... *)
Definition opened : list Event := [Start start_ok; SessionOpen 0].

(** ... and whose microphone has been granted. *)
Definition capturing : list Event := opened ++ [MicGranted 0].

(** The user says "Hel", "lo". *)
Definition hello : list Event :=
  opened ++ [ServerMessage 0 (says_user "Hel") Double.zero None;
             ServerMessage 0 (says_user "lo") Double.zero None].

(** A first conversation is stopped while its permission prompt is still
    open and a second one is started; the prompt is then answered, the
    capture stage created by the first [onopen] delivers a block while the
    second session is still connecting, and the component is stopped. *)
Definition race : list Event :=
  [Start start_ok; SessionOpen 0; Stop; Start start_ok; MicGranted 0;
   AudioProcess 0 [1 # 2]%Q; Stop].

(** A first conversation is stopped in mid-turn, then a second one opens. *)
Definition carry_over : list Event :=
  [Start start_ok; SessionOpen 0;
   ServerMessage 0 (says_user "Hel") Double.zero None;
   Stop; Start start_ok; SessionOpen 1].

(** Three audio fragments of 0.25 s arriving at 0.5, 0.6 and 2; the third
    arrives after the second has played out. *)
Definition three_fragments : list Inbound :=
  [mkInbound (audio_fragment "AAAA") Double.half (Some Double.quarter);
   mkInbound (audio_fragment "AAAA") Double.three_fifths (Some Double.quarter);
   mkInbound (audio_fragment "AAAA") Double.two (Some Double.quarter)].

(** Five audio fragments of 0.1 s (2400 frames at 24000 Hz) arriving in a
    burst, before playback has begun. *)
Definition five_tenths : list Inbound :=
  repeat (mkInbound (audio_fragment "AAAA") Double.zero (Some Double.tenth)) 5.

(** A transcription that carries no text. *)
Definition finished_only : LiveServerMessage :=
  mkMessage (Some (mkContent (Some (mkTranscription None)) None false None)).

(** A first conversation is stopped while its permission prompt is still
    open; the next start fails at its second [AudioContext]; the prompt is
    then answered. *)
Definition granted_after_failed_start : list Event :=
  [Start start_ok; SessionOpen 0; Stop; Start throws_output_AudioContext;
   MicGranted 0].

(** The same, with a next start that succeeds and whose session is still
    connecting when the prompt is answered. *)
Definition granted_while_connecting : list Event :=
  [Start start_ok; SessionOpen 0; Stop; Start start_ok; MicGranted 0].

(** One block of the capture stage at half scale. *)
Definition half_scale_block : list Q := repeat (1 # 2) bufferSize.

End Live.

(* ===================================================================== *)
(** ** Video generation: the polling loop                                 *)
(* ===================================================================== *)

Module Video.

(** The outcome of awaiting a promise. *)
Inductive Settled (A : Type) :=
| resolved (a : A)
| rejected (reason : string).
Arguments resolved {A} a.
Arguments rejected {A} reason.

(** A long-running operation as [generateVideo] reads it: [done], and
    [response?.generatedVideos?.[0]?.video?.uri]. *)
Record Operation := mkOperation {
  done : bool;
  uri : option string
}.

Record Response := mkResponse {
  ok : bool;
  statusText : string;
  text : string;            (* [await response.text()] *)
  objectURL : string        (* [URL.createObjectURL(await response.blob())] *)
}.

(** The environment of one call: the API key, the reply to the initial
    request, the reply to the [k]-th poll, and the reply to a download. *)
Record Remote := mkRemote {
  API_KEY : option string;
  generateVideos : Settled Operation;
  getVideosOperation : nat -> Settled Operation;
  fetch : string -> Settled Response
}.

Definition poll_interval : Z := 10000.

(** The [while (!operation.done)] loop (lines 185-188).  [k] polls have
    been made so far and [timers] are the delays passed to [setTimeout].
    [fuel] bounds the number of iterations unfolded; [None] means the loop
    is still running when it is used up. *)
Fixpoint poll (fuel : nat) (remote : Remote) (k : nat) (operation : Operation)
    (timers : list Z) : option (Settled Operation * list Z) :=
  if done operation then Some (resolved operation, timers)
  else
    match fuel with
    | O => None
    | S fuel' =>
        let timers := timers ++ [poll_interval] in
        match getVideosOperation remote k with
        | rejected reason => Some (rejected reason, timers)
        | resolved operation' => poll fuel' remote (S k) operation' timers
        end
    end.

(** [generateVideo] (lines 159-203); the request it builds does not
    influence control flow and is left out. *)
Definition generateVideo (fuel : nat) (remote : Remote)
  : option (Settled string * list Z) :=
  match API_KEY remote with
  | None | Some EmptyString =>
      Some (rejected "API_KEY environment variable not set", [])
  | Some key =>
      match generateVideos remote with
      | rejected reason => Some (rejected reason, [])
      | resolved operation =>
          match poll fuel remote 0 operation [] with
          | None => None
          | Some (rejected reason, timers) => Some (rejected reason, timers)
          | Some (resolved operation, timers) =>
              match uri operation with
              | None | Some EmptyString =>
                  Some (rejected
                          "Video generation failed or did not return a download link.",
                        timers)
              | Some downloadLink =>
                  match fetch remote (downloadLink +:+ "&key=" +:+ key) with
                  | rejected reason => Some (rejected reason, timers)
                  | resolved response =>
                      if ok response then
                        Some (resolved (objectURL response), timers)
                      else
                        Some (rejected
                                ("Failed to download video: "
                                   +:+ statusText response +:+ ". "
                                   +:+ text response),
                              timers)
                  end
              end
          end
      end
  end.

(** The call settles: its promise is resolved or rejected after finitely
    many iterations. *)
Definition settles (remote : Remote) : Prop :=
  exists fuel r, generateVideo fuel remote = Some r.

(** The remote operation is reported done, by the initial reply or by some
    poll. *)
Definition reported_done (remote : Remote) : Prop :=
  (exists op, generateVideos remote = resolved op /\ done op = true) \/
  (exists k op, getVideosOperation remote k = resolved op /\ done op = true).

(** A reply that ends the loop: the operation is done, or the request
    failed. *)
Definition ends_polling (reply : Settled Operation) : Prop :=
  match reply with
  | resolved op => done op = true
  | rejected _ => True
  end.

(** A reply that keeps the loop going. *)
Definition still_running (reply : Settled Operation) : Prop :=
  exists op, reply = resolved op /\ done op = false.

(** [process.env.API_KEY] is set (and truthy). *)
Definition has_key (remote : Remote) : Prop :=
  exists key, API_KEY remote = Some key /\ key <> ""%string.

(** A remote whose operation is accepted and whose polls all fail. *)
Definition remote_poll_fails : Remote :=
  {| API_KEY := Some "key"%string;
     generateVideos := resolved (mkOperation false None);
     getVideosOperation := fun _ => rejected "network error"%string;
     fetch := fun _ => rejected "unreachable"%string |}.

(** A remote whose operation never completes. *)
Definition remote_never_done : Remote :=
  {| API_KEY := Some "key"%string;
     generateVideos := resolved (mkOperation false None);
     getVideosOperation := fun _ => resolved (mkOperation false None);
     fetch := fun _ => rejected "unreachable"%string |}.

End Video.

(* ===================================================================== *)
(** ** JavaScript strings                                                 *)
(* ===================================================================== *)

Module Text.

(** Strings are sequences of character codes below 256.  Of the
    ECMAScript white space and line terminator code points these are TAB,
    LF, VT, FF, CR, SP and NBSP. *)
Definition is_white_space (c : ascii) : bool :=
  existsb (Nat.eqb (nat_of_ascii c)) [9; 10; 11; 12; 13; 32; 160]%nat.

Fixpoint trimStart_chars (s : list ascii) : list ascii :=
  match s with
  | c :: s' => if is_white_space c then trimStart_chars s' else s
  | [] => []
  end.

(** [String.prototype.trim]. *)
Definition trim (s : string) : string :=
  string_of_list_ascii
    (rev (trimStart_chars (rev (trimStart_chars (list_ascii_of_string s))))).

(** [!s], for a string: the empty string is falsy. *)
Definition falsy (s : string) : bool :=
  match s with EmptyString => true | _ => false end.

(** [String.prototype.includes]. *)
Fixpoint includes (search s : string) : bool :=
  String.prefix search s
  || match s with
     | EmptyString => false
     | String _ s' => includes search s'
     end.

(** The line feed, U+000A. *)
Definition newline : ascii := ascii_of_nat 10.

(** [String.prototype.split] with a separator of one character. *)
Fixpoint split (sep : ascii) (s : string) : list string :=
  match s with
  | EmptyString => [EmptyString]
  | String c s' =>
      if Ascii.eqb c sep then EmptyString :: split sep s'
      else
        match split sep s' with
        | piece :: pieces => String c piece :: pieces
        | [] => [String c EmptyString]
        end
  end.

(** [Array.prototype.join] with a separator of one character. *)
Fixpoint join (sep : ascii) (pieces : list string) : string :=
  match pieces with
  | [] => EmptyString
  | [piece] => piece
  | piece :: pieces' => piece +:+ String sep (join sep pieces')
  end.

(** [String.prototype.startsWith]. *)
Definition startsWith (search s : string) : bool := String.prefix search s.

End Text.

(* ===================================================================== *)
(** ** Further observations on the LiveAssistant component                *)
(* ===================================================================== *)

Module Transcript.
Import Live.

(** The string a message adds to the user accumulator, and to the model
    accumulator: the text of its transcription, "undefined" when the
    transcription has none, nothing when there is no transcription. *)
Definition input_text (m : Inbound) : string :=
  match serverContent (message m) with
  | Some content =>
      match inputTranscription content with
      | Some transcription => appended transcription
      | None => ""
      end
  | None => ""
  end.

Definition output_text (m : Inbound) : string :=
  match serverContent (message m) with
  | Some content =>
      match outputTranscription content with
      | Some transcription => appended transcription
      | None => ""
      end
  | None => ""
  end.

Definition completes_turn (m : Inbound) : bool :=
  match serverContent (message m) with
  | Some content => turnComplete content
  | None => false
  end.

Definition concat_texts (ts : list string) : string :=
  fold_right String.append EmptyString ts.

(** The session handle, when set, is the session opened last. *)
Definition handle_is_latest (st : Pipeline) : Prop :=
  forall p, sessionPromiseRef (refs st) = Some p ->
            S p = length (sessions (browser st)).

(** The pair a turn-complete signal appends: the interim of the render the
    handler was created in. *)
Definition captured (rnd : ReactState) : Turn :=
  mkTurn (user (currentInterim rnd)) (model (currentInterim rnd)).

(** The transcript and the playback bookkeeping, with what has been
    scheduled and sent. *)
Definition kept_by_stop (st : Pipeline) :=
  (transcripts (react st), currentInterim (react st),
   nextStartTimeRef (refs st), sourcesRef (refs st), sources (browser st),
   scheduled (log st), frames_sent (log st)).

(** Three transcript fragments, the second without a text. *)
Definition untexted_fragment : list Inbound :=
  [mkInbound (says_user "Hel") Double.zero None;
   mkInbound finished_only Double.zero None;
   mkInbound (says_user "lo") Double.zero None].

(** What may still arrive after a stop: the permission prompt is answered,
    the processor delivers a block, the old session closes or reports
    itself open, a message comes in. *)
Definition late_events : list Event :=
  [MicGranted 0; AudioProcess 0 [1 # 2]%Q; ServerClose 0; SessionOpen 0;
   ServerMessage 0 (says_user "Hel") Double.zero None].

End Transcript.

(* ===================================================================== *)
(** ** The API-key gate: the [useAistudio] hook                           *)
(* ===================================================================== *)

Module KeyGate.
Import Video.

(** [window.aistudio], with what its two methods settle to. *)
Record AIStudio := mkAIStudio {
  hasSelectedApiKey : Settled bool;
  openSelectKey : Settled unit
}.

Record Environment := mkEnvironment {
  aistudio : option AIStudio;
  env_API_KEY : option string
}.

(** The two [useState] cells of the hook, as initialised. *)
Record KeyState := mkKeyState { hasKey : bool; isLoading : bool }.

Definition initial : KeyState := {| hasKey := false; isLoading := true |}.

(** [!!process.env.API_KEY]. *)
Definition key_present (k : option string) : bool :=
  match k with
  | Some k => negb (Text.falsy k)
  | None => false
  end.

(** [checkKey] (lines 24-37).  When [hasSelectedApiKey] rejects, the
    function stops after [setIsLoading(true)]. *)
Definition checkKey (env : Environment) (st : KeyState) : KeyState :=
  match aistudio env with
  | Some studio =>
      let st := mkKeyState (hasKey st) true in
      match hasSelectedApiKey studio with
      | resolved keyStatus => mkKeyState keyStatus false
      | rejected _ => st
      end
  | None => mkKeyState (key_present (env_API_KEY env)) false
  end.

(** [selectKey] (lines 43-51). *)
Definition selectKey (env : Environment) (st : KeyState) : KeyState :=
  match aistudio env with
  | Some studio =>
      match openSelectKey studio with
      | resolved _ => mkKeyState true (isLoading st)
      | rejected _ => st
      end
  | None => st                                  (* [alert(...)] *)
  end.

Definition not_found_phrase : string := "Requested entity was not found.".

(** [handleApiError] (lines 53-58); [message] is [error?.message]. *)
Definition handleApiError (message : option string) (st : KeyState) : KeyState :=
  match message with
  | Some m =>
      if Text.includes not_found_phrase m then mkKeyState false (isLoading st)
      else st
  | None => st
  end.

(** A call of one of the functions the hook returns. *)
Inductive Call :=
  | call_checkKey
  | call_selectKey
  | call_handleApiError (message : option string).

Definition call (env : Environment) (c : Call) (st : KeyState) : KeyState :=
  match c with
  | call_checkKey => checkKey env st
  | call_selectKey => selectKey env st
  | call_handleApiError message => handleApiError message st
  end.

Definition calls (env : Environment) (cs : list Call) (st : KeyState) : KeyState :=
  fold_left (fun st c => call env c st) cs st.


Definition dev_without_key : Environment := mkEnvironment None None.

End KeyGate.

(* ===================================================================== *)
(** ** The video form: [VideoGenerator.handleSubmit]                      *)
(* ===================================================================== *)

Module VideoForm.
Import Video KeyGate.

(** An uploaded file: its MIME type and what [fileToBase64] settles to. *)
Record File := mkFile {
  file_type : string;
  fileToBase64 : Settled string
}.

Record Form := mkForm {
  prompt : string;
  file : option File;
  videoUrl : option string;
  form_isLoading : bool;
  error : option string;
  key : KeyState;
  messageIntervals : nat          (* [setInterval] timers running *)
}.

Definition set_error (e : option string) (f : Form) : Form :=
  mkForm (prompt f) (file f) (videoUrl f) (form_isLoading f) e (key f)
    (messageIntervals f).
Definition set_videoUrl (u : option string) (f : Form) : Form :=
  mkForm (prompt f) (file f) u (form_isLoading f) (error f) (key f)
    (messageIntervals f).
Definition set_isLoading (b : bool) (f : Form) : Form :=
  mkForm (prompt f) (file f) (videoUrl f) b (error f) (key f)
    (messageIntervals f).
Definition set_key (k : KeyState) (f : Form) : Form :=
  mkForm (prompt f) (file f) (videoUrl f) (form_isLoading f) (error f) k
    (messageIntervals f).
Definition set_messageIntervals (n : nat) (f : Form) : Form :=
  mkForm (prompt f) (file f) (videoUrl f) (form_isLoading f) (error f) (key f)
    n.

(** The [catch] and [finally] blocks of [handleSubmit] (lines 92-98);
    what is thrown is an [Error] with the given message. *)
Definition submit_catch (reason : string) (f : Form) : Form :=
  let f := set_key (handleApiError (Some reason) (key f)) f in
  set_error (Some reason) f.

Definition submit_finally (f : Form) : Form :=
  let f := set_isLoading false f in
  set_messageIntervals (Nat.pred (messageIntervals f)) f.

(** [handleSubmit] (lines 69-99).  [None]: [generateVideo] has not settled
    within [fuel] iterations of its loop, and the handler still awaits
    it. *)
Definition handleSubmit (fuel : nat) (remote : Remote) (f : Form)
  : option Form :=
  if Text.falsy (Text.trim (prompt f))
     && match file f with None => true | Some _ => false end
  then Some (set_error (Some "Please enter a prompt or upload an image.") f)
  else
    let f := set_isLoading true f in
    let f := set_error None f in
    let f := set_videoUrl None f in
    let f := set_messageIntervals (S (messageIntervals f)) f in
    let upload :=
      match file f with
      | Some fl => fileToBase64 fl
      | None => resolved EmptyString
      end in
    match upload with
    | rejected reason => Some (submit_finally (submit_catch reason f))
    | resolved _ =>
        match generateVideo fuel remote with
        | None => None
        | Some (resolved url, _) =>
            Some (submit_finally (set_videoUrl (Some url) f))
        | Some (rejected reason, _) =>
            Some (submit_finally (submit_catch reason f))
        end
    end.

(** What the component renders first (lines 101-120). *)
Inductive Screen := spinner | key_prompt | form.

Definition screen (f : Form) : Screen :=
  if isLoading (key f) then spinner
  else if negb (hasKey (key f)) then key_prompt
  else form.

(** The upload, if there is one, can be read. *)
Definition upload_succeeds (f : Form) : Prop :=
  match file f with
  | Some fl => exists base64, fileToBase64 fl = resolved base64
  | None => True
  end.

(** The form passes the check on the first line of [handleSubmit]. *)
Definition has_input (f : Form) : Prop :=
  Text.trim (prompt f) <> ""%string \/ exists fl, file f = Some fl.

(** A form with a prompt, a key and nothing else. *)
Definition cat_form : Form :=
  mkForm "a cat" None None false None (mkKeyState true false) 0.

(** The operation is done on the third poll and its video downloads. *)
Definition remote_done_on_third_poll : Remote :=
  {| API_KEY := Some "key"%string;
     generateVideos := resolved (mkOperation false None);
     getVideosOperation :=
       fun k => resolved (mkOperation (Nat.leb 2 k) (Some "https://video"));
     fetch := fun _ => resolved (mkResponse true "OK" "" "blob:video") |}.

(** The service no longer knows the selected key. *)
Definition remote_key_unknown : Remote :=
  {| API_KEY := Some "key"%string;
     generateVideos := rejected not_found_phrase;
     getVideosOperation := fun _ => rejected not_found_phrase;
     fetch := fun _ => rejected "unreachable"%string |}.

End VideoForm.

(* ===================================================================== *)
(** ** The service module: headshots and the chat singleton               *)
(* ===================================================================== *)

Module Service.
Import Video.

(** [getGenAI] (lines 63-68). *)
Definition getGenAI (API_KEY : option string) : Settled string :=
  match API_KEY with
  | None | Some EmptyString => rejected "API_KEY environment variable not set"
  | Some key => resolved key
  end.

Record InlineData := mkInline { inline_mimeType : string; inline_data : string }.

(** A [generateContent] request as [generateHeadshots] builds it. *)
Record Request := mkRequest {
  request_model : string;
  request_image : InlineData;
  request_text : string
}.

(** `data:${mimeType};base64,${data}`. *)
Definition dataURL (d : InlineData) : string :=
  "data:" +:+ inline_mimeType d +:+ ";base64," +:+ inline_data d.

Definition basePrompt (profession photoshootType details : string) : string :=
  "A " +:+ photoshootType
  +:+ " photoshoot featuring the person from the uploaded image. They are a professional "
  +:+ profession +:+ ". " +:+ details.

Definition personaPrompts (base : string) : list string :=
  [ base +:+ ". Cinematic lighting, focused on a confident expression, medium shot.";
    base +:+ ". Full body shot in a dynamic pose, with a background that complements their profession.";
    base +:+ ". Shot with a shallow depth of field, creating a soft, blurry background and highlighting the subject.";
    base +:+ ". An artistic, dramatic black and white interpretation with high-contrast lighting." ].

Definition persona_request (image : InlineData) (prompt : string) : Request :=
  {| request_model := "gemini-2.5-flash-image";
     request_image := image;
     request_text :=
       "Generate a new, full image of the person from the original photo, placing them in this new scene: "
       +:+ prompt
       +:+ ". It is crucial that the person's face is preserved and recognizable." |}.

(** The [.then(...).catch(...)] chain on one request: the data URL of the
    first part's inline data, [null] when there is none or the request
    failed.  [generateContent] gives
    [response.candidates?.[0]?.content?.parts?.[0]?.inlineData] for a
    request. *)
Definition persona_result (generateContent : Request -> Settled (option InlineData))
    (r : Request) : option string :=
  match generateContent r with
  | resolved (Some d) => Some (dataURL d)
  | resolved None => None
  | rejected _ => None
  end.

(** [generateHeadshots] (lines 108-155). *)
Definition generateHeadshots (API_KEY : option string)
    (generateContent : Request -> Settled (option InlineData))
    (imageBase64 mimeType profession photoshootType details : string)
  : Settled (list string) :=
  match getGenAI API_KEY with
  | rejected reason => rejected reason
  | resolved _ =>
      let imagePart := mkInline mimeType imageBase64 in
      let prompts := personaPrompts (basePrompt profession photoshootType details) in
      let results :=
        map (fun p => persona_result generateContent (persona_request imagePart p))
          prompts in
      resolved (omap id results)
  end.

(** The module-level [chatInstance], and how many chats [ai.chats.create]
    has made. *)
Record ChatModule := mkChatModule {
  chatInstance : option nat;
  chats_created : nat
}.

(** [getChat] (lines 222-234). *)
Definition getChat (API_KEY : option string) (m : ChatModule)
  : Settled nat * ChatModule :=
  match chatInstance m with
  | Some chat => (resolved chat, m)
  | None =>
      match getGenAI API_KEY with
      | rejected reason => (rejected reason, m)
      | resolved _ =>
          let chat := chats_created m in
          (resolved chat, mkChatModule (Some chat) (S chat))
      end
  end.

(** [n] calls in a row: the results, and the module afterwards. *)
Fixpoint getChat_times (n : nat) (API_KEY : option string) (m : ChatModule)
  : list (Settled nat) * ChatModule :=
  match n with
  | O => ([], m)
  | S n' =>
      let '(r, m1) := getChat API_KEY m in
      let '(rs, m2) := getChat_times n' API_KEY m1 in
      (r :: rs, m2)
  end.

(** [process.env.API_KEY] is set (and truthy). *)
Definition key_set (API_KEY : option string) : Prop :=
  exists key, API_KEY = Some key /\ key <> ""%string.

(** A [generateContent] request of the text functions: the model, the
    inline data part if there is one, the text, and whether the Google
    Search tool is configured. *)
Record ContentRequest := mkContentRequest {
  content_model : string;
  content_inline : option InlineData;
  content_text : string;
  content_googleSearch : bool
}.

(** [GroundingChunk] of [types.ts]: [web] and [maps], each a URI and a
    title. *)
Record GroundingChunk := mkGroundingChunk {
  web : option (string * string);
  maps : option (string * string)
}.

(** What the callers read of a [GenerateContentResponse]: [response.text]
    and [response.candidates?.[0]?.groundingMetadata?.groundingChunks]. *)
Record ContentResponse := mkContentResponse {
  response_text : option string;
  groundingChunks : option (list GroundingChunk)
}.

Definition ContentService := ContentRequest -> Settled ContentResponse.

(** [analyzeImage] (lines 207-219). *)
Definition analyzeImage (API_KEY : option string) (generateContent : ContentService)
    (prompt imageBase64 mimeType : string) : Settled (option string) :=
  match getGenAI API_KEY with
  | rejected reason => rejected reason
  | resolved _ =>
      match generateContent
              (mkContentRequest "gemini-2.5-flash"
                 (Some (mkInline mimeType imageBase64)) prompt false) with
      | resolved response => resolved (response_text response)
      | rejected reason => rejected reason
      end
  end.

(** [getGroundedResponse] (lines 237-247). *)
Definition getGroundedResponse (API_KEY : option string)
    (generateContent : ContentService) (prompt : string)
  : Settled ContentResponse :=
  match getGenAI API_KEY with
  | rejected reason => rejected reason
  | resolved _ =>
      generateContent (mkContentRequest "gemini-2.5-flash" None prompt true)
  end.

(** [getFastResponse] (lines 250-257). *)
Definition getFastResponse (API_KEY : option string)
    (generateContent : ContentService) (prompt : string)
  : Settled (option string) :=
  match getGenAI API_KEY with
  | rejected reason => rejected reason
  | resolved _ =>
      match generateContent
              (mkContentRequest "gemini-flash-lite-latest" None prompt false) with
      | resolved response => resolved (response_text response)
      | rejected reason => rejected reason
      end
  end.

(** [getAdvancedResponse] (lines 260-267). *)
Definition getAdvancedResponse (API_KEY : option string)
    (generateContent : ContentService) (prompt : string)
  : Settled (option string) :=
  match getGenAI API_KEY with
  | rejected reason => rejected reason
  | resolved _ =>
      match generateContent
              (mkContentRequest "gemini-2.5-pro" None prompt false) with
      | resolved response => resolved (response_text response)
      | rejected reason => rejected reason
      end
  end.

End Service.

(* ===================================================================== *)
(** ** The headshot form: [HeadshotGenerator.handleSubmit]                *)
(* ===================================================================== *)

Module HeadshotForm.
Import Video Service.

Record File := mkFile {
  file_type : string;
  fileToBase64 : Settled string
}.

Record Form := mkForm {
  file : option File;
  generatedImages : list string;
  isLoading : bool;
  error : option string;
  profession : string;
  photoshootType : string;
  details : string
}.

Definition set_error (e : option string) (f : Form) : Form :=
  mkForm (file f) (generatedImages f) (isLoading f) e (profession f)
    (photoshootType f) (details f).
Definition set_generatedImages (l : list string) (f : Form) : Form :=
  mkForm (file f) l (isLoading f) (error f) (profession f)
    (photoshootType f) (details f).
Definition set_isLoading (b : bool) (f : Form) : Form :=
  mkForm (file f) (generatedImages f) b (error f) (profession f)
    (photoshootType f) (details f).

Definition no_images_message : string :=
  "Sorry, we couldn't generate any images. Please try a different photo or prompt.".

(** [handleSubmit] (lines 42-67). *)
Definition handleSubmit (API_KEY : option string)
    (generateContent : Request -> Settled (option InlineData)) (f : Form)
  : Form :=
  match file f with
  | None => set_error (Some "Please upload an image first.") f
  | Some fl =>
      if Text.falsy (Text.trim (profession f))
      then set_error (Some "Please enter a profession.") f
      else
        let f := set_isLoading true f in
        let f := set_error None f in
        let f := set_generatedImages [] f in
        let f :=
          match fileToBase64 fl with
          | rejected reason => set_error (Some reason) f
          | resolved base64 =>
              match generateHeadshots API_KEY generateContent base64
                      (file_type fl) (profession f) (photoshootType f)
                      (details f) with
              | rejected reason => set_error (Some reason) f
              | resolved images =>
                  let f := set_generatedImages images f in
                  if Nat.eqb (length images) 0
                  then set_error (Some no_images_message) f
                  else f
              end
          end in
        set_isLoading false f
  end.

(** A form ready to submit. *)
Definition portrait_form : Form :=
  mkForm (Some (mkFile "image/png" (resolved "QUJD"))) [] false None
    "chef" "Corporate" "".

End HeadshotForm.

(* ===================================================================== *)
(** ** The chat screen: [AiChat.handleSubmit]                             *)
(* ===================================================================== *)

Module ChatForm.
Import Video Service.

Inductive Sender := sender_user | sender_model.

Record ChatMessage := mkChatMessage { sender : Sender; text : string }.

Record Screen := mkScreen {
  messages : list ChatMessage;
  input : string;
  isLoading : bool;
  chat_module : ChatModule
}.

Definition apology : string :=
  "Sorry, I encountered an error. Please try again.".

(** [handleSubmit] (lines 291-312), with what [chat.sendMessage] settles
    to.  While the request is awaited [isLoading] is set, and the guard on
    its first line turns every further submit away, so the handler is run
    here from its first line to the end of its [finally]. *)
Definition handleSubmit (API_KEY : option string) (reply : Settled string)
    (s : Screen) : Screen :=
  if Text.falsy (Text.trim (input s)) || isLoading s then s
  else
    let sent := input s in
    let msgs := messages s ++ [mkChatMessage sender_user sent] in
    let '(chat, m) := getChat API_KEY (chat_module s) in
    let answer :=
      match chat with
      | rejected _ => apology
      | resolved _ =>
          match reply with
          | resolved t => t
          | rejected _ => apology
          end
      end in
    mkScreen (msgs ++ [mkChatMessage sender_model answer]) EmptyString false m.

(** The user types [t] and submits; the service answers with [reply]. *)
Definition say (API_KEY : option string) (turn : string * Settled string)
    (s : Screen) : Screen :=
  handleSubmit API_KEY (snd turn)
    (mkScreen (messages s) (fst turn) (isLoading s) (chat_module s)).

Definition converse (API_KEY : option string)
    (turns : list (string * Settled string)) (s : Screen) : Screen :=
  fold_left (fun s t => say API_KEY t s) turns s.

(** Senders alternate, starting with the user. *)
Fixpoint alternates (expect : Sender) (l : list ChatMessage) : bool :=
  match l with
  | [] => true
  | m :: l' =>
      match expect, sender m with
      | sender_user, sender_user => alternates sender_model l'
      | sender_model, sender_model => alternates sender_user l'
      | _, _ => false
      end
  end.

Definition other (e : Sender) : Sender :=
  match e with sender_user => sender_model | sender_model => sender_user end.

(** The turn passes the check on the first line of [handleSubmit] (when
    nothing is loading). *)
Definition accepted (turn : string * Settled string) : bool :=
  negb (Text.falsy (Text.trim (fst turn))).

(** The message the log starts with (lines 267-269). *)
Definition greeting : ChatMessage :=
  mkChatMessage sender_model
    "Hello! Welcome to Creator Chat. How can I help you create amazing social media content today? Try selecting a template to get started!".

(** The screen as mounted (lines 267-271), with the service module in the
    state [m]. *)
Definition mounted (m : ChatModule) : Screen := mkScreen [greeting] "" false m.

End ChatForm.

(* ===================================================================== *)
(** ** The library of saved items: [SavedContentContext]                  *)
(* ===================================================================== *)

Module Saved.

Inductive ItemType := item_image | item_video | item_text.

(** [SavedItem] of [types.ts]. *)
Record SavedItem := mkSavedItem {
  id : string;
  type : ItemType;
  content : string;
  prompt : string;
  createdAt : string
}.

(** [Omit<SavedItem, 'id' | 'createdAt'>]. *)
Record NewItem := mkNewItem {
  new_type : ItemType;
  new_content : string;
  new_prompt : string
}.

(** [saveItem] (lines 32-39); [uuid] is what [crypto.randomUUID()] returns
    and [now] what [new Date().toISOString()] returns. *)
Definition saveItem (uuid now : string) (item : NewItem)
    (savedItems : list SavedItem) : list SavedItem :=
  mkSavedItem uuid (new_type item) (new_content item) (new_prompt item) now
    :: savedItems.

(** [deleteItem] (lines 41-43). *)
Definition deleteItem (i : string) (savedItems : list SavedItem)
  : list SavedItem :=
  List.filter (fun item => negb (String.eqb (id item) i)) savedItems.

Definition ids (savedItems : list SavedItem) : list string :=
  map id savedItems.

End Saved.

(* ===================================================================== *)
(** ** The prompt form: [PromptGenerator.handleSubmit]                    *)
(* ===================================================================== *)

Module PromptForm.
Import Video Service.

Record Form := mkForm {
  idea : string;
  style : string;
  tone : string;
  profession : string;
  promptType : string;
  generatedPrompts : list string;
  isLoading : bool;
  error : option string
}.

Definition set_error (e : option string) (f : Form) : Form :=
  mkForm (idea f) (style f) (tone f) (profession f) (promptType f)
    (generatedPrompts f) (isLoading f) e.
Definition set_generatedPrompts (l : list string) (f : Form) : Form :=
  mkForm (idea f) (style f) (tone f) (profession f) (promptType f)
    l (isLoading f) (error f).
Definition set_isLoading (b : bool) (f : Form) : Form :=
  mkForm (idea f) (style f) (tone f) (profession f) (promptType f)
    (generatedPrompts f) b (error f).

Definition dquote : string := String (ascii_of_nat 34) EmptyString.
Definition nl : string := String Text.newline EmptyString.

(** The template literal of lines 32-36. *)
Definition aiPrompt (f : Form) : string :=
  "Generate 5 creative and detailed prompts for an AI " +:+ promptType f
  +:+ " generator. The subject is a " +:+ profession f
  +:+ " and the core idea is: " +:+ dquote +:+ idea f +:+ dquote +:+ "." +:+ nl
  +:+ "The desired style is " +:+ style f
  +:+ " and the tone should be " +:+ tone f +:+ "." +:+ nl
  +:+ "Each prompt must be a single, continuous sentence." +:+ nl
  +:+ "Each prompt must be on a new line and should not have any numbering (e.g., no '1.' or '-')." +:+ nl
  +:+ "Crucially, each prompt MUST include realistic camera and lens specifications (e.g., Shot on Sony A7 IV with a G-Master 50mm f/1.2 lens), specific camera settings (e.g., aperture f/1.8, shutter speed 1/200s, ISO 100), and a detailed description of the lighting setup (e.g., 'lit with a single large octabox for soft, dramatic light').".

(** [p => p.trim() !== '']. *)
Definition not_blank (p : string) : bool :=
  negb (String.eqb (Text.trim p) EmptyString).

(** The message of the [TypeError] raised by [response.split] when
    [response.text] was undefined, as V8 words it. *)
Definition TypeError_split : string :=
  "Cannot read properties of undefined (reading 'split')".

(** [handleSubmit] (lines 22-47). *)
Definition handleSubmit (API_KEY : option string)
    (generateContent : ContentService) (f : Form) : Form :=
  if Text.falsy (Text.trim (idea f))
  then set_error (Some "Please enter a basic idea.") f
  else
    let request := aiPrompt f in
    let f := set_isLoading true f in
    let f := set_error None f in
    let f := set_generatedPrompts [] f in
    let f :=
      match getFastResponse API_KEY generateContent request with
      | resolved (Some response) =>
          set_generatedPrompts
            (List.filter not_blank (Text.split Text.newline response)) f
      | resolved None => set_error (Some TypeError_split) f
      | rejected reason => set_error (Some reason) f
      end in
    set_isLoading false f.

(** The characters of a string. *)
Definition chars (s : string) : list ascii := list_ascii_of_string s.

(** A form ready to submit, and a service that answers with three lines,
    the second of them blank. *)
Definition sunset_form : Form :=
  mkForm "a sunset" "Cinematic" "Epic" "chef" "Image" [] false None.

Definition three_lines : ContentService :=
  fun _ => resolved (mkContentResponse (Some ("one" +:+ nl +:+ "  " +:+ nl +:+ "two")) None).

End PromptForm.

(* ===================================================================== *)
(** ** The analyzer form: [ContentAnalyzer.handleSubmit]                  *)
(* ===================================================================== *)

Module AnalyzerForm.
Import Video Service.

Inductive AnalysisType := fast | grounded | advanced.

Record File := mkFile {
  file_type : string;
  fileToBase64 : Settled string
}.

(** The state of the component; [result] holds [None] for [null] and for
    [undefined], which the component does not tell apart. *)
Record Form := mkForm {
  prompt : string;
  analysisType : AnalysisType;
  result : option string;
  sources : list GroundingChunk;
  isLoading : bool;
  error : option string;
  file : option File
}.

Definition set_result (r : option string) (f : Form) : Form :=
  mkForm (prompt f) (analysisType f) r (sources f) (isLoading f) (error f)
    (file f).
Definition set_sources (l : list GroundingChunk) (f : Form) : Form :=
  mkForm (prompt f) (analysisType f) (result f) l (isLoading f) (error f)
    (file f).
Definition set_isLoading (b : bool) (f : Form) : Form :=
  mkForm (prompt f) (analysisType f) (result f) (sources f) b (error f)
    (file f).
Definition set_error (e : option string) (f : Form) : Form :=
  mkForm (prompt f) (analysisType f) (result f) (sources f) (isLoading f) e
    (file f).

(** [file && file.type.startsWith('image/')]. *)
Definition image_attached (f : Form) : option File :=
  match file f with
  | Some fl => if Text.startsWith "image/" (file_type fl) then Some fl else None
  | None => None
  end.

(** The [try] block of the image branch (lines 73-77). *)
Definition analyze_image (API_KEY : option string)
    (generateContent : ContentService) (fl : File) (f : Form) : Form :=
  match fileToBase64 fl with
  | rejected reason => set_error (Some reason) f
  | resolved base64 =>
      match analyzeImage API_KEY generateContent (prompt f) base64
              (file_type fl) with
      | resolved resultText => set_result resultText f
      | rejected reason => set_error (Some reason) f
      end
  end.

(** The [try] block of the text branch (lines 88-106). *)
Definition analyze_text (API_KEY : option string)
    (generateContent : ContentService) (f : Form) : Form :=
  match analysisType f with
  | grounded =>
      match getGroundedResponse API_KEY generateContent (prompt f) with
      | resolved response =>
          let f := set_result (response_text response) f in
          set_sources
            (match groundingChunks response with
             | Some chunks => chunks
             | None => []
             end) f
      | rejected reason => set_error (Some reason) f
      end
  | advanced =>
      match getAdvancedResponse API_KEY generateContent (prompt f) with
      | resolved response => set_result response f
      | rejected reason => set_error (Some reason) f
      end
  | fast =>
      match getFastResponse API_KEY generateContent (prompt f) with
      | resolved response => set_result response f
      | rejected reason => set_error (Some reason) f
      end
  end.

(** [handleSubmit] (lines 61-113). *)
Definition handleSubmit (API_KEY : option string)
    (generateContent : ContentService) (f : Form) : Form :=
  let f := set_isLoading true f in
  let f := set_error None f in
  let f := set_result None f in
  let f := set_sources [] f in
  match image_attached f with
  | Some fl =>
      if Text.falsy (Text.trim (prompt f))
      then
        set_isLoading false
          (set_error (Some "Please enter a prompt to ask about the image.") f)
      else set_isLoading false (analyze_image API_KEY generateContent fl f)
  | None =>
      if Text.falsy (Text.trim (prompt f))
      then
        set_isLoading false
          (set_error
             (Some "Please enter some content or upload a file to analyze.") f)
      else set_isLoading false (analyze_text API_KEY generateContent f)
  end.

(** A form showing an earlier analysis with its sources, the prompt
    since cleared. *)
Definition stale_form : Form :=
  mkForm "  " grounded (Some "an earlier answer")
    [mkGroundingChunk (Some ("https://example.org", "Example")) None]
    false None None.

End AnalyzerForm.

(* ===================================================================== *)
(** ** The trim sliders of the video editor                               *)
(* ===================================================================== *)

Module VideoEditor.

(** A JavaScript number: not-a-number, the two infinities, or a finite
    value (every finite double is a rational, and [<] on doubles is the
    order of the rationals they denote). *)
Inductive Number := NaN | NegInfinity | Finite (q : Q) | Infinity.

(** [a < b]. *)
Definition lt (a b : Number) : bool :=
  match a, b with
  | NaN, _ | _, NaN => false
  | _, NegInfinity => false
  | NegInfinity, _ => true
  | Infinity, _ => false
  | Finite _, Infinity => true
  | Finite x, Finite y => if Qlt_le_dec x y then true else false
  end.

(** [a > b]. *)
Definition gt (a b : Number) : bool := lt b a.

(** [a === 0]. *)
Definition is_zero (a : Number) : bool :=
  match a with
  | Finite q => Qeq_bool q 0
  | _ => false
  end.

(** The three [useState] cells the handlers read and write. *)
Record Editor := mkEditor {
  duration : Number;
  trimStart : Number;
  trimEnd : Number
}.

Definition mount : Editor := mkEditor (Finite 0) (Finite 0) (Finite 0).

(** [handleLoadedMetadata] (lines 238-245). *)
Definition handleLoadedMetadata (videoDuration : Number) (st : Editor) : Editor :=
  let st := mkEditor videoDuration (trimStart st) (trimEnd st) in
  if is_zero (trimEnd st) || gt (trimEnd st) videoDuration
  then mkEditor (duration st) (trimStart st) videoDuration
  else st.

(** [handleTrimStartChange] (lines 335-340); [value] is what [parseFloat]
    returned. *)
Definition handleTrimStartChange (value : Number) (st : Editor) : Editor :=
  if lt value (trimEnd st)
  then mkEditor (duration st) value (trimEnd st)
  else st.

(** [handleTrimEndChange] (lines 342-347). *)
Definition handleTrimEndChange (value : Number) (st : Editor) : Editor :=
  if gt value (trimStart st)
  then mkEditor (duration st) (trimStart st) value
  else st.

Inductive Slider := slide_start (value : Number) | slide_end (value : Number).

Definition slide (ev : Slider) (st : Editor) : Editor :=
  match ev with
  | slide_start value => handleTrimStartChange value st
  | slide_end value => handleTrimEndChange value st
  end.

Definition slides (evs : list Slider) (st : Editor) : Editor :=
  fold_left (fun st ev => slide ev st) evs st.

(** The range to cut is not empty. *)
Definition ordered (st : Editor) : bool := lt (trimStart st) (trimEnd st).

End VideoEditor.

(* ===================================================================== *)
(** * Properties                                                          *)
(* ===================================================================== *)

Import Capture Live.
Import Double (double).

(** ** Sample conversion *)

Example encode_Man : encode [77; 97; 110] = "TWFu"%string.
Proof. reflexivity. Qed.

Example encode_padding : encode [77; 97] = "TWE="%string.
Proof. reflexivity. Qed.

Example ToInt16_half : ToInt16 ((1 # 2) * 32768) = 16384.
Proof. reflexivity. Qed.

Example ToInt16_plus_one_wraps : ToInt16 (1 * 32768) = -32768.
Proof. reflexivity. Qed.

Example ToInt16_truncates_towards_zero :
  ToInt16 ((-3 # 65536) * 32768) = -1 /\ ToInt16 ((-1 # 65536) * 32768) = 0.
Proof. split; reflexivity. Qed.

Lemma truncate_scaled (x : Q) :
  truncate (x * 32768) = Z.quot (Qnum x * 32768) (Z.pos (Qden x)).
Proof.
  unfold truncate. destruct x as [n d]. simpl. rewrite Pos.mul_1_r. reflexivity.
Qed.

Lemma truncate_scaled_bounds (x : Q) :
  (-1 <= x)%Q -> (x <= 1)%Q -> -32768 <= truncate (x * 32768) <= 32768.
Proof.
  intros Hlo Hhi. rewrite truncate_scaled.
  destruct x as [n d]. unfold Qle in *. simpl in *.
  destruct (Z_le_gt_dec 0 n) as [Hn|Hn].
  - rewrite Z.quot_div_nonneg by lia. split.
    + apply Z.le_trans with 0; [lia|]. apply Z.div_pos; lia.
    + apply Z.div_le_upper_bound; lia.
  - replace (n * 32768) with (- ((- n) * 32768)) by lia.
    rewrite Z.quot_opp_l by lia. rewrite Z.quot_div_nonneg by lia.
    assert (0 <= (- n * 32768) / Z.pos d) by (apply Z.div_pos; lia).
    assert ((- n * 32768) / Z.pos d <= 32768)
      by (apply Z.div_le_upper_bound; lia).
    lia.
Qed.

Lemma truncate_scaled_below (x : Q) :
  (x < 1)%Q -> truncate (x * 32768) < 32768.
Proof.
  intros Hhi. rewrite truncate_scaled.
  destruct x as [n d]. unfold Qlt in *. simpl in *.
  destruct (Z_le_gt_dec 0 n) as [Hn|Hn].
  - rewrite Z.quot_div_nonneg by lia. apply Z.div_lt_upper_bound; lia.
  - replace (n * 32768) with (- ((- n) * 32768)) by lia.
    rewrite Z.quot_opp_l by lia. rewrite Z.quot_div_nonneg by lia.
    assert (0 <= (- n * 32768) / Z.pos d) by (apply Z.div_pos; lia).
    lia.
Qed.

Lemma truncate_scaled_one (x : Q) :
  (x == 1)%Q -> truncate (x * 32768) = 32768.
Proof.
  intros H. rewrite truncate_scaled. destruct x as [n d].
  unfold Qeq in H. simpl in *. rewrite Z.mul_1_r in H. subst n.
  rewrite Z.mul_1_l, Z.mul_comm. apply Z.quot_mul. lia.
Qed.

(** [ToInt16] lands in the Int16 range ... *)
Lemma ToInt16_range (y : Q) : -32768 <= ToInt16 y < 32768.
Proof.
  unfold ToInt16. pose proof (Z.mod_pos_bound (truncate y) 65536 eq_refl).
  destruct (Z.leb_spec 32768 (truncate y mod 65536)); lia.
Qed.

(** ... on a value congruent to the truncation modulo 2^16 ... *)
Lemma ToInt16_congruent (y : Q) : (ToInt16 y - truncate y) mod 65536 = 0.
Proof.
  unfold ToInt16.
  destruct (Z.leb_spec 32768 (truncate y mod 65536)).
  - replace (truncate y mod 65536 - 65536 - truncate y)
      with (truncate y mod 65536 - truncate y + (-1) * 65536) by lia.
    rewrite Z.mod_add by lia.
    rewrite Zminus_mod_idemp_l, Z.sub_diag. reflexivity.
  - rewrite Zminus_mod_idemp_l, Z.sub_diag. reflexivity.
Qed.

(** ... and is the truncation itself when that is in range. *)
Lemma ToInt16_in_range (y : Q) :
  -32768 <= truncate y < 32768 -> ToInt16 y = truncate y.
Proof.
  intros H. unfold ToInt16.
  destruct (Z_le_gt_dec 0 (truncate y)).
  - rewrite Z.mod_small by lia.
    destruct (Z.leb_spec 32768 (truncate y)); lia.
  - replace (truncate y mod 65536) with (truncate y + 65536).
    + destruct (Z.leb_spec 32768 (truncate y + 65536)); lia.
    + symmetry.
      replace (truncate y) with (truncate y + 65536 + (-1) * 65536) at 1
        by lia.
      rewrite Z.mod_add by lia. apply Z.mod_small. lia.
Qed.

Lemma ToInt16_of_sample (x : Q) : pcm_of_sample x (ToInt16 (x * 32768)).
Proof.
  unfold pcm_of_sample. split_and!.
  - apply ToInt16_range.
  - apply ToInt16_range.
  - apply ToInt16_congruent.
  - intros Hlo Hhi. apply ToInt16_in_range. split.
    + apply truncate_scaled_bounds; [assumption|]. apply Qlt_le_weak, Hhi.
    + apply truncate_scaled_below, Hhi.
  - intros H1. unfold ToInt16. rewrite (truncate_scaled_one x H1). reflexivity.
Qed.

Lemma int16_bytes_are_bytes (v : Z) :
  Forall (fun b => 0 <= b < 256) (int16_bytes v).
Proof.
  unfold int16_bytes. pose proof (Z.mod_pos_bound v 65536 eq_refl).
  repeat constructor.
  - apply Z.mod_pos_bound; lia.
  - apply Z.mod_pos_bound; lia.
  - apply Z.div_pos; lia.
  - apply Z.div_lt_upper_bound; lia.
Qed.

Lemma Uint8Array_bytes (int16 : list Z) :
  Forall (fun b => 0 <= b < 256) (Uint8Array_of_Int16Array int16).
Proof.
  induction int16 as [|v l IH]; [constructor|].
  unfold Uint8Array_of_Int16Array. cbn [flat_map]. apply Forall_app. split.
  - apply int16_bytes_are_bytes.
  - exact IH.
Qed.

Lemma length_Uint8Array (int16 : list Z) :
  length (Uint8Array_of_Int16Array int16) = (2 * length int16)%nat.
Proof. induction int16 as [|v l IH]; simpl; [reflexivity|]. rewrite IH. lia. Qed.

(** ** Effect logs *)

Ltac open_pipeline st :=
  destruct st as [?r [?sp ?ac ?sc ?sr ?oc ?nt ?srcs] ?b ?lg].

Lemma count_app P l1 l2 : count P (l1 ++ l2) = (count P l1 + count P l2)%nat.
Proof. unfold count. rewrite List.filter_app, length_app. reflexivity. Qed.

Lemma count_repeat_setConnectionState P s m :
  P (E_setConnectionState s) = false ->
  count P (repeat (E_setConnectionState s) m) = 0%nat.
Proof.
  intros HP. induction m as [|m IH]; [reflexivity|].
  unfold count in *. simpl. rewrite HP. exact IH.
Qed.

Lemma frames_sent_app l1 l2 :
  frames_sent (l1 ++ l2) = frames_sent l1 ++ frames_sent l2.
Proof. unfold frames_sent. apply flat_map_app. Qed.

Lemma scheduled_app l1 l2 : scheduled (l1 ++ l2) = scheduled l1 ++ scheduled l2.
Proof. unfold scheduled. apply flat_map_app. Qed.

(** Running queued reactions only appends their effects. *)
Lemma fold_react_to p ks st :
  let st' := fold_left (fun s k => react_to p k s) ks st in
  react st' = react st /\ refs st' = refs st /\ browser st' = browser st
  /\ log st' = log st ++ map (reaction_effect p) ks.
Proof.
  revert st. induction ks as [|k ks IH]; intros st; simpl.
  - rewrite app_nil_r. auto.
  - destruct (IH (react_to p k st)) as (I1 & I2 & I3 & I4).
    rewrite I1, I2, I3, I4. destruct k; simpl; rewrite <- app_assoc; auto.
Qed.

Lemma frames_of_closes p ks :
  List.filter is_send_reaction ks = [] ->
  frames_sent (map (reaction_effect p) ks) = [].
Proof.
  induction ks as [|[|m] ks IH]; simpl; intros H; auto. discriminate.
Qed.

(** ** The capture stage (C7) *)

Lemma createBlob_samples (samples : list Q) :
  Forall2 pcm_of_sample samples (map (fun x => ToInt16 (x * 32768)) samples).
Proof.
  induction samples as [|x l IH]; simpl; constructor.
  - apply ToInt16_of_sample.
  - exact IH.
Qed.

(** Every base64 digit decodes to the six bits it stands for, and is not
    the padding character. *)
Lemma base64_value_digit n :
  0 <= n < 64 ->
  base64_value (base64_digit n) = Some n /\ is_pad (base64_digit n) = false.
Proof.
  intros H. rewrite <- (Z2Nat.id n) by lia.
  assert (Hk : (Z.to_nat n < 64)%nat) by lia.
  generalize dependent (Z.to_nat n). clear H. intros k Hk.
  do 64 (destruct k as [|k]; [split; reflexivity|]). lia.
Qed.

Ltac euclid := Z.to_euclidean_division_equations; lia.

Lemma decode_encode_chars bytes :
  Forall (fun b => 0 <= b < 256) bytes ->
  decode_chars (encode_chars bytes) = Some bytes.
Proof.
  revert bytes.
  assert (H : forall n bytes, (length bytes <= n)%nat ->
                Forall (fun b => 0 <= b < 256) bytes ->
                decode_chars (encode_chars bytes) = Some bytes).
  { induction n as [|n IH]; intros bytes Hlen Hb.
    - destruct bytes; [reflexivity|simpl in Hlen; lia].
    - destruct bytes as [|a [|b [|c rest]]]; [reflexivity| | |].
      + inversion Hb as [|? ? Ha _]; subst.
        cbn [encode_chars decode_chars].
        destruct (base64_value_digit (a / 4)) as [-> _]; [euclid|].
        destruct (base64_value_digit (a mod 4 * 16)) as [-> _]; [euclid|].
        cbn. f_equal. f_equal. euclid.
      + inversion Hb as [|? ? Ha Hb']; subst.
        inversion Hb' as [|? ? Hb0 _]; subst.
        cbn [encode_chars decode_chars].
        destruct (base64_value_digit (a / 4)) as [-> _]; [euclid|].
        destruct (base64_value_digit (a mod 4 * 16 + b / 16)) as [-> _];
          [euclid|].
        destruct (base64_value_digit (b mod 16 * 4)) as [-> ->]; [euclid|].
        cbn. f_equal. f_equal; [|f_equal]; euclid.
      + inversion Hb as [|? ? Ha Hb']; subst.
        inversion Hb' as [|? ? Hb0 Hb'']; subst.
        inversion Hb'' as [|? ? Hc Hrest]; subst.
        cbn [encode_chars decode_chars].
        destruct (base64_value_digit (a / 4)) as [-> _]; [euclid|].
        destruct (base64_value_digit (a mod 4 * 16 + b / 16)) as [-> _];
          [euclid|].
        destruct (base64_value_digit (b mod 16 * 4 + c / 64)) as [-> ->];
          [euclid|].
        destruct (base64_value_digit (c mod 64)) as [-> ->]; [euclid|].
        rewrite IH; [|simpl in Hlen; lia|exact Hrest].
        cbn. f_equal. f_equal; [|f_equal; [|f_equal]]; euclid. }
  intros bytes. apply (H (length bytes)). lia.
Qed.

(** Decoding what [encode] produced gives the bytes back. *)
Lemma decode_encode bytes :
  Forall (fun b => 0 <= b < 256) bytes -> decode (encode bytes) = Some bytes.
Proof.
  intros H. unfold decode, encode. rewrite list_ascii_of_string_of_list_ascii.
  apply decode_encode_chars. exact H.
Qed.

(** The two bytes of an Int16, read back low byte first, give the Int16. *)
Lemma int16_of_int16_bytes v :
  -32768 <= v < 32768 ->
  int16_of_bytes (v mod 65536 mod 256) (v mod 65536 / 256) = v.
Proof.
  intros H. unfold int16_of_bytes.
  destruct (Z.leb_spec 32768 (v mod 65536 mod 256 + 256 * (v mod 65536 / 256)));
    euclid.
Qed.

Lemma Int16Array_round_trip int16 :
  Forall (fun v => -32768 <= v < 32768) int16 ->
  Int16Array_of_Uint8Array (Uint8Array_of_Int16Array int16) = Some int16.
Proof.
  induction 1 as [|v l Hv Hl IH]; [reflexivity|].
  unfold Uint8Array_of_Int16Array in *. cbn [flat_map int16_bytes app].
  cbn [Int16Array_of_Uint8Array]. rewrite IH. cbn [option_map].
  rewrite int16_of_int16_bytes by exact Hv. reflexivity.
Qed.

(** The payload of [createBlob], as its receiver reads it: two bytes per
    sample, which are the converted samples. *)
Lemma createBlob_payload (samples : list Q) :
  let int16 := map (fun x => ToInt16 (x * 32768)) samples in
  payload_bytes (createBlob samples) = Some (Uint8Array_of_Int16Array int16)
  /\ pcm_samples (createBlob samples) = Some int16.
Proof.
  intros int16.
  assert (H : payload_bytes (createBlob samples)
              = Some (Uint8Array_of_Int16Array int16)).
  { unfold payload_bytes, createBlob. cbn [data]. apply decode_encode.
    apply Uint8Array_bytes. }
  split; [exact H|]. unfold pcm_samples. rewrite H.
  apply Int16Array_round_trip. unfold int16.
  apply List.Forall_forall. intros v Hv. apply in_map_iff in Hv.
  destruct Hv as (x & <- & _). apply ToInt16_range.
Qed.

(** The frames the reactions queued on a promise send when they run. *)
Lemma frames_sent_reactions p ks media :
  frames_sent (map (reaction_effect p) (ks ++ [session_sendRealtimeInput media]))
  = frames_sent (map (reaction_effect p) ks) ++ [(p, media)].
Proof. rewrite map_app, frames_sent_app. reflexivity. Qed.

(** C7.  [onaudioprocess], for a block of any length (the processor is
    created with 4096) and in any state.  The blob it builds has MIME type
    "audio/pcm;rate=16000", and its payload, base64-decoded, is two bytes
    per sample which, read as 16-bit integers low byte first, are the
    converted samples: each the truncated product with 32768 reduced modulo
    2^16 into the signed range, so that a sample in [-1,1) gives the
    truncated product and +1 wraps to -32768.  The blob is handed to the
    session promise exactly once when a session handle is set: sent as one
    realtime-input message at once when the promise is fulfilled; queued
    behind the reactions already waiting when it is pending, nothing being
    sent until the session opens, which sends it once; and with no session
    handle the block is dropped. *)
Theorem capture_block_transmitted samples st :
  let media := createBlob samples in
  let st' := onaudioprocess samples st in
  (exists pcm bytes,
      Forall2 pcm_of_sample samples pcm
      /\ pcm_samples media = Some pcm
      /\ payload_bytes media = Some bytes
      /\ length bytes = (2 * length samples)%nat)
  /\ mimeType media = "audio/pcm;rate=16000"%string
  /\ (forall node, fires node st = true ->
        step (AudioProcess node samples) st = st')
  /\ match sessionPromiseRef (refs st) with
     | None => st' = st
     | Some p =>
         match sessions (browser st) !! p with
         | None => st' = st
         | Some (mkSession fulfilled _) =>
             st' = emit (E_sendRealtimeInput p media) st
             /\ frames_sent (log st') = frames_sent (log st) ++ [(p, media)]
         | Some (mkSession (pending ks) _) =>
             log st' = log st
             /\ queued p st' = ks ++ [session_sendRealtimeInput media]
             /\ frames_sent (log (step (SessionOpen p) st'))
                = frames_sent (log st)
                    ++ frames_sent (map (reaction_effect p) ks) ++ [(p, media)]
         end
     end.
Proof.
  intros media st'. split_and!.
  - destruct (createBlob_payload samples) as (Hb & Hp).
    eexists. eexists. split_and!.
    + apply createBlob_samples.
    + exact Hp.
    + exact Hb.
    + rewrite length_Uint8Array, length_map. reflexivity.
  - reflexivity.
  - intros node Hf. cbn [step]. rewrite Hf. reflexivity.
  - unfold st', onaudioprocess. fold media.
    destruct (sessionPromiseRef (refs st)) as [p|]; [|reflexivity].
    unfold promise_then.
    destruct (sessions (browser st) !! p) as [[[ks|] rnd]|] eqn:Hp;
      [|split|reflexivity].
    + assert (Hq : forall v, <[p:=v]> (sessions (browser st)) !! p = Some v).
      { intros v. apply list_lookup_insert_eq.
        apply lookup_lt_is_Some. rewrite Hp. eauto. }
      split_and!.
      * reflexivity.
      * unfold queued. cbn [browser upd_browser set_sessions sessions].
        rewrite Hq. reflexivity.
      * cbn [step browser upd_browser set_sessions sessions].
        rewrite Hq. unfold fulfil, onopen.
        cbn [browser upd_browser set_sessions sessions setConnectionState emit
             upd_react set_micRequests].
        rewrite Hq.
        match goal with
        | |- context [fold_left ?f ?l ?s] =>
            destruct (fold_react_to p l s) as (_ & _ & _ & ->)
        end.
        cbn [log upd_browser]. rewrite !frames_sent_app, frames_sent_reactions.
        f_equal. unfold emit, setConnectionState, emit. cbn [log upd_react upd_browser].
        rewrite !frames_sent_app. cbn [frames_sent flat_map app].
        rewrite !app_nil_r. reflexivity.
    + reflexivity.
    + unfold react_to, emit. cbn [log]. rewrite frames_sent_app. reflexivity.
Qed.

(** One block of 4096 samples at half scale while a conversation is live:
    8192 bytes, the 16-bit value 16384 4096 times, one message. *)
Lemma capture_block_transmitted_witness :
  fires 0 (run capturing mount) = true
  /\ (exists bytes,
        payload_bytes (createBlob half_scale_block) = Some bytes
        /\ length bytes = (2 * bufferSize)%nat)
  /\ frames_sent (log (step (AudioProcess 0 half_scale_block) (run capturing mount)))
     = frames_sent (log (run capturing mount)) ++ [(0%nat, createBlob half_scale_block)].
Proof.
  assert (Hf : fires 0 (run capturing mount) = true) by reflexivity.
  destruct (capture_block_transmitted half_scale_block (run capturing mount))
    as ((pcm & bytes & _ & _ & Hb & Hl) & _ & Hstep & Hsend).
  split; [exact Hf|]. split.
  - exists bytes. split; [exact Hb|]. rewrite Hl. reflexivity.
  - rewrite (Hstep 0%nat Hf). apply Hsend.
Defined.

(** Blocks that are captured and not transmitted.  After a failed restart
    the late answer to the first permission prompt wires a processor onto
    the new, running input context while no session handle is set: the
    blocks it delivers are converted and dropped, nothing is sent and
    nothing is queued.  After a restart that succeeds, a block delivered
    while the new session is still connecting is queued on its promise,
    and when that connection then fails nothing has been sent. *)
Lemma captured_block_dropped :
  let st := run granted_after_failed_start mount in
  let st' := step (AudioProcess 0 half_scale_block) st in
  let connecting := run granted_while_connecting mount in
  (fires 0 st = true
   /\ length half_scale_block = bufferSize
   /\ sessionPromiseRef (refs st) = None
   /\ frames_sent (log st') = []
   /\ no_queued_sends st')
  /\ (fires 0 connecting = true
      /\ queued 1 connecting = []
      /\ frames_sent
           (log (run [AudioProcess 0 half_scale_block; ServerError 1] connecting))
         = []).
Proof.
  split; split_and!; try reflexivity.
  intros [|p]; reflexivity.
Qed.

(** ** Double-precision comparisons *)

Ltac cmp_step :=
  match goal with
  | H : context [Pos.compare_cont Eq ?a ?b] |- _ =>
      change (Pos.compare_cont Eq a b) with (Pos.compare a b) in H
  | |- context [Pos.compare_cont Eq ?a ?b] =>
      change (Pos.compare_cont Eq a b) with (Pos.compare a b)
  | H : context [Z.compare ?x ?y] |- _ => destruct (Z.compare_spec x y)
  | |- context [Z.compare ?x ?y] => destruct (Z.compare_spec x y)
  | H : context [Pos.compare ?x ?y] |- _ => destruct (Pos.compare_spec x y)
  | |- context [Pos.compare ?x ?y] => destruct (Pos.compare_spec x y)
  end.

Ltac cmp_cases :=
  repeat (cmp_step; simpl in *; subst; try discriminate; try lia);
  try reflexivity.

Lemma nonnegative_not_nan x :
  Double.nonnegative x = true ->
  Double.is_nan x = false /\ Double.is_negative_zero x = false.
Proof. destruct x as [[]|[]| |[] m e]; simpl; intros; try discriminate; auto. Qed.

Lemma leb_Math_max_l a b :
  Double.is_nan a = false -> Double.is_nan b = false ->
  Double.leb a (Math_max a b) = true.
Proof.
  unfold Double.leb, SFleb, Math_max.
  destruct a as [[]|[]| |[] ma ea], b as [[]|[]| |[] mb eb]; simpl;
    intros; try discriminate; try reflexivity; cmp_cases.
Qed.

Lemma leb_Math_max_r a b :
  Double.is_nan a = false -> Double.is_nan b = false ->
  Double.leb b (Math_max a b) = true.
Proof.
  unfold Double.leb, SFleb, Math_max.
  destruct a as [[]|[]| |[] ma ea], b as [[]|[]| |[] mb eb]; simpl;
    intros; try discriminate; try reflexivity; cmp_cases.
Qed.

Lemma Math_max_ltb a b : Double.ltb a b = true -> Math_max a b = b.
Proof.
  unfold Double.ltb, SFltb, Math_max.
  destruct (SFcompare a b) as [[]|]; try discriminate. reflexivity.
Qed.

(** A reading that a later reading has overtaken no longer matters. *)
Lemma Math_max_absorb a b t :
  Double.leb b t = true -> Double.is_negative_zero t = false ->
  Math_max (Math_max a b) t = Math_max a t.
Proof.
  unfold Double.leb, SFleb, Math_max.
  destruct a as [[]|[]| |[] ma ea], b as [[]|[]| |[] mb eb], t as [[]|[]| |[] mt et];
    simpl; intros; try discriminate; try reflexivity; cmp_cases.
Qed.

Lemma Math_max_nonnegative a b :
  Double.nonnegative a = true -> Double.nonnegative b = true ->
  Double.nonnegative (Math_max a b) = true.
Proof.
  unfold Math_max. intros Ha Hb.
  destruct (SFcompare a b) as [[]|] eqn:E; auto.
  - destruct (Double.is_negative_zero a); assumption.
  - destruct a as [[]|[]| |[] ma ea], b as [[]|[]| |[] mb eb]; discriminate.
Qed.

(** Rounding a non-negative sum never gives a negative number or [NaN]. *)
Lemma shr_1_nonneg mrs : 0 <= shr_m mrs -> 0 <= shr_m (shr_1 mrs).
Proof.
  destruct mrs as [m r s]. simpl. intros H.
  destruct m as [|[p|p|]|p]; simpl; lia.
Qed.

Lemma iter_shr_1_nonneg p :
  forall mrs, 0 <= shr_m mrs -> 0 <= shr_m (SpecFloat.iter_pos shr_1 p mrs).
Proof.
  induction p as [p IH|p IH|]; intros mrs H; simpl.
  - apply IH, IH, shr_1_nonneg, H.
  - apply IH, IH, H.
  - apply shr_1_nonneg, H.
Qed.

Lemma shr_fexp_nonneg m e l :
  0 <= m -> 0 <= shr_m (fst (shr_fexp Double.prec Double.emax m e l)).
Proof.
  intros H. unfold shr_fexp, shr.
  assert (H0 : 0 <= shr_m (shr_record_of_loc m l))
    by (destruct l as [|[]]; exact H).
  destruct (fexp _ _ _ - e); simpl; auto. apply iter_shr_1_nonneg, H0.
Qed.

Lemma round_nearest_even_nonneg m l : 0 <= m -> 0 <= round_nearest_even m l.
Proof.
  intros H. unfold round_nearest_even. destruct l as [|[]]; try lia.
  destruct (Z.even m); lia.
Qed.

Lemma binary_round_nonnegative m e :
  Double.nonnegative (binary_round Double.prec Double.emax false m e) = true.
Proof.
  unfold binary_round. destruct (shl_align _ _ _) as [mz ez].
  unfold binary_round_aux.
  pose proof (shr_fexp_nonneg (Z.pos mz) ez loc_Exact ltac:(lia)) as H1.
  destruct (shr_fexp Double.prec Double.emax (Z.pos mz) ez loc_Exact)
    as [mrs' e'].
  simpl in H1.
  pose proof (shr_fexp_nonneg
                (round_nearest_even (shr_m mrs') (loc_of_shr_record mrs')) e'
                loc_Exact (round_nearest_even_nonneg _ _ H1)) as H2.
  destruct (shr_fexp Double.prec Double.emax _ e' loc_Exact) as [mrs'' e''].
  simpl in H2.
  destruct (shr_m mrs''); [reflexivity| |lia].
  destruct (e'' <=? Double.emax - Double.prec); reflexivity.
Qed.

Lemma add_nonnegative x y :
  Double.nonnegative x = true -> Double.nonnegative y = true ->
  Double.nonnegative (Double.add x y) = true.
Proof.
  unfold Double.add.
  destruct x as [[]|[]| |[] mx ex], y as [[]|[]| |[] my ey]; simpl;
    try discriminate; try reflexivity.
  intros _ _. apply binary_round_nonnegative.
Qed.

(** ** Playback scheduling (C1) *)

(** One message: the cursor is first raised to the clock reading, the
    buffer starts at the cursor, and the cursor advances by its duration. *)
Lemma handleMessage_schedule rnd m st c :
  outputAudioContextRef (refs st) = Some c ->
  let st' := handleMessage rnd (message m) (clock m) (decoded m) st in
  let cursor := nextStartTimeRef (refs st) in
  outputAudioContextRef (refs st') = Some c /\
  match audible m, decoded m with
  | true, Some d =>
      scheduled (log st') = scheduled (log st) ++ [(Math_max cursor (clock m), d)]
      /\ nextStartTimeRef (refs st') = Double.add (Math_max cursor (clock m)) d
  | true, None =>
      scheduled (log st') = scheduled (log st)
      /\ nextStartTimeRef (refs st') = Math_max cursor (clock m)
  | false, _ =>
      scheduled (log st') = scheduled (log st)
      /\ nextStartTimeRef (refs st') = cursor
  end.
Proof.
  intros Hc. destruct m as [[[[it ot tc id]|]] t dec]; unfold audible; simpl.
  2: { split; [assumption|]. split; reflexivity. }
  unfold handleMessage; simpl.
  destruct it, ot, tc; simpl; rewrite ?Hc;
    destruct (truthy id); simpl; destruct dec; simpl;
    rewrite ?scheduled_app, ?app_nil_r; simpl; auto.
Qed.

Lemma fragments_clock inbound t d :
  In (t, d) (fragments inbound) -> In t (map clock inbound).
Proof.
  unfold fragments. rewrite in_flat_map. intros (m & Hm & Hin).
  apply in_map_iff. exists m. split; [|assumption].
  destruct (audible m), (decoded m); simpl in Hin; try tauto.
  destruct Hin as [E|[]]. congruence.
Qed.

Lemma first_fragment_clock (P : double -> Prop) inbound t d :
  List.Forall P (map clock inbound) ->
  fragments inbound !! 0%nat = Some (t, d) -> P t.
Proof.
  intros Hall Hl. rewrite List.Forall_forall in Hall. apply Hall.
  apply fragments_clock with d. apply list_elem_of_In.
  eapply list_elem_of_lookup_2; eassumption.
Qed.

(** What the order of doubles gives for a start time [s = max(a, t)]. *)
Lemma Math_max_resync a t :
  Double.nonnegative a = true -> Double.nonnegative t = true ->
  Double.leb a (Math_max a t) = true
  /\ Double.leb t (Math_max a t) = true
  /\ (Double.ltb a t = true -> Math_max a t = t).
Proof.
  intros Ha Ht.
  destruct (nonnegative_not_nan a Ha) as [Na _].
  destruct (nonnegative_not_nan t Ht) as [Nt _].
  split; [apply leb_Math_max_l; assumption|].
  split; [apply leb_Math_max_r; assumption|].
  apply Math_max_ltb.
Qed.

(** C1.  Let the handler process any sequence of inbound messages, with an
    output context in place, a non-negative cursor, clock readings that are
    non-negative and do not decrease, and buffer durations that are
    non-negative.  The buffers it schedules are exactly the audio fragments
    that decode, in arrival order and with their durations; the first one
    starts at max(cursor, its arrival time); and for consecutive fragments
    with start times s, s', duration d of the first and arrival time t' of
    the second: s' = max(s (+) d, t'), where s (+) d, the cursor after the
    first, is the double-precision sum of s and d.  Hence, in the order of
    doubles, s' >= s (+) d, s' >= t' (never in the past), and s' = t'
    whenever t' > s (+) d (an underrun resyncs to "now" with no extra
    gap). *)
Theorem playback_schedule rnd inbound st c :
  outputAudioContextRef (refs st) = Some c ->
  Double.nonnegative (nextStartTimeRef (refs st)) = true ->
  List.Forall (fun t => Double.nonnegative t = true) (map clock inbound) ->
  StronglySorted (fun t t' => Double.leb t t' = true) (map clock inbound) ->
  durations_nonnegative inbound ->
  exists starts : list double,
    scheduled (log (handleMessages rnd inbound st))
      = scheduled (log st) ++ combine starts (map snd (fragments inbound))
    /\ length starts = length (fragments inbound)
    /\ (forall s t d,
          starts !! 0%nat = Some s ->
          fragments inbound !! 0%nat = Some (t, d) ->
          s = Math_max (nextStartTimeRef (refs st)) t)
    /\ (forall i s t d s' t' d',
          starts !! i = Some s -> fragments inbound !! i = Some (t, d) ->
          starts !! S i = Some s' -> fragments inbound !! S i = Some (t', d') ->
          s' = Math_max (Double.add s d) t'
          /\ Double.leb (Double.add s d) s' = true
          /\ Double.leb t' s' = true
          /\ (Double.ltb (Double.add s d) t' = true -> s' = t')).
Proof.
  revert st. induction inbound as [|m rest IH];
    intros st Hc Hcur0 Hpos Hsorted Hdur.
  - exists []. simpl. rewrite app_nil_r. repeat split; intros; discriminate.
  - simpl in Hsorted. apply StronglySorted_inv in Hsorted as [Hrest Hhead].
    simpl in Hpos. apply List.Forall_cons_iff in Hpos as [Hm Hpos].
    apply List.Forall_cons_iff in Hdur as [Hd Hdur].
    destruct (handleMessage_schedule rnd m st c Hc) as [Hc1 Hstep].
    set (st1 := handleMessage rnd (message m) (clock m) (decoded m) st) in *.
    assert (Hraised : Double.nonnegative
                        (Math_max (nextStartTimeRef (refs st)) (clock m)) = true)
      by (apply Math_max_nonnegative; assumption).
    assert (Hcur1 : Double.nonnegative (nextStartTimeRef (refs st1)) = true).
    { destruct (audible m), (decoded m) as [d0|];
        destruct Hstep as [_ ->]; try assumption.
      apply add_nonnegative; assumption. }
    destruct (IH st1 Hc1 Hcur1 Hpos Hrest Hdur)
      as (starts & Hlog & Hlen & Hfirst & Hadj).
    change (handleMessages rnd (m :: rest) st)
      with (handleMessages rnd rest st1).
    unfold fragments in *. simpl flat_map. fold (fragments rest) in *.
    destruct (audible m), (decoded m) as [d0|];
      destruct Hstep as [Hsch Hcur]; simpl app.
    + exists (Math_max (nextStartTimeRef (refs st)) (clock m) :: starts).
      split; [|split; [|split]].
      * rewrite Hlog, Hsch. rewrite <- app_assoc. reflexivity.
      * simpl. congruence.
      * intros s t d Hs Ht. simpl in Hs, Ht.
        injection Hs as <-. injection Ht as <- <-. reflexivity.
      * intros [|i] s t d s' t' d' Hs Ht Hs' Ht'; simpl in Hs, Ht, Hs', Ht'.
        -- injection Hs as <-. injection Ht as <- <-.
           pose proof (Hfirst _ _ _ Hs' Ht') as E. rewrite Hcur in E.
           assert (Ht'pos : Double.nonnegative t' = true)
             by (eapply (first_fragment_clock
                           (fun t => Double.nonnegative t = true));
                 eassumption).
           rewrite Hcur in Hcur1.
           destruct (Math_max_resync _ _ Hcur1 Ht'pos) as (H1 & H2 & H3).
           rewrite E. auto.
        -- eapply Hadj; eassumption.
    + exists starts. split; [|split; [|split]]; auto.
      * rewrite Hlog, Hsch. reflexivity.
      * intros s t d Hs Ht. rewrite (Hfirst _ _ _ Hs Ht), Hcur.
        apply Math_max_absorb.
        -- eapply (first_fragment_clock
                     (fun t => Double.leb (clock m) t = true)); eassumption.
        -- apply nonnegative_not_nan.
           eapply (first_fragment_clock
                     (fun t => Double.nonnegative t = true)); eassumption.
    + exists starts. split; [|split; [|split]]; auto.
      * rewrite Hlog, Hsch. reflexivity.
      * intros s t d Hs Ht. rewrite (Hfirst _ _ _ Hs Ht), Hcur. reflexivity.
    + exists starts. split; [|split; [|split]]; auto.
      * rewrite Hlog, Hsch. reflexivity.
      * intros s t d Hs Ht. rewrite (Hfirst _ _ _ Hs Ht), Hcur. reflexivity.
Qed.

(** The three fragments of [three_fragments] (arrivals 0.5, 0.6, 2; each
    0.25 long) start at 0.5, at 0.75 and at 2. *)
Example three_fragments_scheduled :
  map fst
    (scheduled (log (handleMessages (react mount) three_fragments
                       (run opened mount))))
  = [Double.half; Double.div (Double.of_Z 3) (Double.of_Z 4); Double.two].
Proof. vm_compute. reflexivity. Qed.

Lemma playback_schedule_witness :
  outputAudioContextRef (refs (run opened mount)) = Some 1%nat
  /\ StronglySorted (fun t t' => Double.leb t t' = true)
       (map clock three_fragments)
  /\ exists starts : list double,
       scheduled (log (handleMessages (react mount) three_fragments
                         (run opened mount)))
       = scheduled (log (run opened mount))
           ++ combine starts (map snd (fragments three_fragments))
       /\ length starts = length (fragments three_fragments).
Proof.
  assert (Hs : StronglySorted (fun t t' => Double.leb t t' = true)
                 (map clock three_fragments)).
  { repeat constructor. }
  assert (Hp : List.Forall (fun t => Double.nonnegative t = true)
                 (map clock three_fragments)).
  { repeat constructor. }
  assert (Hd : durations_nonnegative three_fragments).
  { repeat constructor. }
  split; [reflexivity|]. split; [exact Hs|].
  destruct (playback_schedule (react mount) three_fragments (run opened mount) 1
              eq_refl eq_refl Hp Hs Hd) as (starts & H1 & H2 & _).
  exists starts. split; assumption.
Defined.

(** Five buffers of 0.1 s arriving in a burst: the fourth starts at
    0.30000000000000004 and the fifth at 0.4, the double nearest the sum
    of that and 0.1, which lies 2^-55 s below the sum itself; the fifth
    buffer starts before the fourth has ended. *)
Lemma playback_overlaps_by_rounding :
  let played :=
    scheduled (log (handleMessages (react mount) five_tenths (run opened mount))) in
  exists s d s' d' qs qd qs',
    played !! 3%nat = Some (s, d)
    /\ played !! 4%nat = Some (s', d')
    /\ Double.value s = Some qs
    /\ Double.value d = Some qd
    /\ Double.value s' = Some qs'
    /\ (qs + qd - qs' == 1 # (2 ^ 55))%Q
    /\ ~ (qs + qd <= qs')%Q.
Proof.
  cbv zeta. do 7 eexists. split_and!.
  - vm_compute. reflexivity.
  - vm_compute. reflexivity.
  - vm_compute. reflexivity.
  - vm_compute. reflexivity.
  - vm_compute. reflexivity.
  - vm_compute. reflexivity.
  - apply Qlt_not_le. vm_compute. reflexivity.
Qed.

(** ** Teardown (C5) *)

Lemma count_snoc P l e :
  count P (l ++ [e]) = (count P l + if P e then 1 else 0)%nat.
Proof. rewrite count_app. unfold count. simpl. destruct (P e); reflexivity. Qed.

Lemma close_unless_closed_torn r st :
  (forall c, r = Some c -> context_state st c = Some closed \/ context_state st c = None) ->
  close_unless_closed r st = st.
Proof.
  intros H. destruct r as [c|]; simpl; [|reflexivity].
  destruct (H c eq_refl) as [E|E]; rewrite E; reflexivity.
Qed.

Lemma stop_again st :
  torn_down st -> stopConversation st = setConnectionState disconnected st.
Proof.
  intros (H1 & H2 & H3 & H4). unfold stopConversation.
  unfold release_session, release_stream, release_processor.
  rewrite H1, H2, H3.
  rewrite (close_unless_closed_torn (audioContextRef (refs st)) st) by (intros; apply H4; auto).
  rewrite (close_unless_closed_torn (outputAudioContextRef (refs st)) st) by (intros; apply H4; auto).
  reflexivity.
Qed.

Lemma release_session_spec st :
  session_ref_valid st ->
  let st' := release_session st in
  sessionPromiseRef (refs st') = None
  /\ streamRef (refs st') = streamRef (refs st)
  /\ scriptProcessorRef (refs st') = scriptProcessorRef (refs st)
  /\ audioContextRef (refs st') = audioContextRef (refs st)
  /\ outputAudioContextRef (refs st') = outputAudioContextRef (refs st)
  /\ contexts (browser st') = contexts (browser st)
  /\ (forall P, (forall p, P (E_session_close p) = false) ->
                count P (log st') = count P (log st))
  /\ (forall p, session_closes p st'
                = (session_closes p st
                   + if bool_decide (sessionPromiseRef (refs st) = Some p) then 1 else 0)%nat).
Proof.
  intros Hwf. open_pipeline st. unfold session_ref_valid in Hwf. simpl in Hwf.
  unfold release_session. simpl. destruct sp as [p|]; simpl.
  2: { split_and!; auto; intros p; rewrite bool_decide_eq_false_2 by discriminate; lia. }
  destruct (Hwf p eq_refl) as [[pr rn] Hp].
  unfold promise_then. simpl. rewrite Hp. destruct pr as [ks|]; simpl.
  - split_and!; auto. intros p'. unfold session_closes, queued. simpl.
    destruct (decide (p = p')) as [<-|Hne].
    + rewrite bool_decide_eq_true_2 by reflexivity.
      rewrite list_lookup_insert_eq by (eapply lookup_lt_Some; eassumption).
      rewrite Hp. rewrite List.filter_app, length_app. simpl. lia.
    + rewrite bool_decide_eq_false_2 by congruence.
      rewrite list_lookup_insert_ne by assumption. lia.
  - split_and!; auto.
    + intros P HP. rewrite count_snoc, HP. lia.
    + intros p'. unfold session_closes, queued. simpl. rewrite count_snoc. simpl.
      destruct (decide (p = p')) as [<-|Hne].
      * rewrite bool_decide_eq_true_2 by reflexivity. rewrite Nat.eqb_refl. lia.
      * rewrite bool_decide_eq_false_2 by congruence.
        destruct (Nat.eqb_spec p' p); [congruence|]. lia.
Qed.

Lemma release_stream_spec st :
  let st' := release_stream st in
  streamRef (refs st') = None
  /\ sessionPromiseRef (refs st') = sessionPromiseRef (refs st)
  /\ scriptProcessorRef (refs st') = scriptProcessorRef (refs st)
  /\ audioContextRef (refs st') = audioContextRef (refs st)
  /\ outputAudioContextRef (refs st') = outputAudioContextRef (refs st)
  /\ browser st' = browser st
  /\ log st' = log st ++ match streamRef (refs st) with
                         | Some s => [E_track_stop s]
                         | None => []
                         end.
Proof.
  open_pipeline st. unfold release_stream. simpl.
  destruct sr; simpl; rewrite ?app_nil_r; split_and!; reflexivity.
Qed.

Lemma release_processor_spec st :
  let st' := release_processor st in
  scriptProcessorRef (refs st') = None
  /\ sessionPromiseRef (refs st') = sessionPromiseRef (refs st)
  /\ streamRef (refs st') = streamRef (refs st)
  /\ audioContextRef (refs st') = audioContextRef (refs st)
  /\ outputAudioContextRef (refs st') = outputAudioContextRef (refs st)
  /\ contexts (browser st') = contexts (browser st)
  /\ sessions (browser st') = sessions (browser st)
  /\ log st' = log st ++ match scriptProcessorRef (refs st) with
                         | Some n => [E_processor_disconnect n]
                         | None => []
                         end.
Proof.
  open_pipeline st. unfold release_processor. simpl.
  destruct sc; simpl; rewrite ?app_nil_r; split_and!; reflexivity.
Qed.

Lemma close_unless_closed_spec r st :
  let st' := close_unless_closed r st in
  refs st' = refs st
  /\ react st' = react st
  /\ sessions (browser st') = sessions (browser st)
  /\ log st' = log st ++ match open_context st r with
                         | Some c => [E_context_close c]
                         | None => []
                         end
  /\ (forall c, context_state st' c
                = if bool_decide (open_context st r = Some c) then Some closed
                  else context_state st c).
Proof.
  open_pipeline st. unfold close_unless_closed, open_context, context_state. simpl.
  destruct r as [c|]; simpl.
  2: { rewrite app_nil_r. split_and!; auto. }
  destruct (contexts b !! c) as [[| |]|] eqn:E; simpl; rewrite ?app_nil_r;
    split_and!; auto; intros c'; unfold context_state; simpl;
    (destruct (decide (c = c')) as [<-|Hne];
     [ rewrite bool_decide_eq_true_2 by reflexivity;
       apply list_lookup_insert_eq; eapply lookup_lt_Some; eassumption
     | rewrite bool_decide_eq_false_2 by congruence;
       apply list_lookup_insert_ne; assumption ]).
Qed.

Lemma session_closes_frame p st st' l :
  sessions (browser st') = sessions (browser st) ->
  log st' = log st ++ l ->
  count (is_session_close p) l = 0%nat ->
  session_closes p st' = session_closes p st.
Proof.
  intros Hs Hl Hc. unfold session_closes, queued. rewrite Hs, Hl, count_app, Hc. lia.
Qed.

Lemma stop_once st :
  session_ref_valid st ->
  let st' := stopConversation st in
  torn_down st'
  /\ connectionState (react st') = disconnected
  /\ transcripts (react st') = transcripts (react st)
  /\ currentInterim (react st') = currentInterim (react st)
  /\ (forall p, session_closes p st'
        = (session_closes p st
           + if bool_decide (sessionPromiseRef (refs st) = Some p) then 1 else 0)%nat)
  /\ (forall s, count (is_track_stop s) (log st')
        = (count (is_track_stop s) (log st)
           + if bool_decide (streamRef (refs st) = Some s) then 1 else 0)%nat)
  /\ (forall n, count (is_processor_disconnect n) (log st')
        = (count (is_processor_disconnect n) (log st)
           + if bool_decide (scriptProcessorRef (refs st) = Some n) then 1 else 0)%nat)
  /\ (forall c, count (is_context_close c) (log st')
        = (count (is_context_close c) (log st)
           + if held_open st c then 1 else 0)%nat).
Proof.
  intros Hwf. unfold stopConversation.
  set (st1 := release_session st).
  set (st2 := release_stream st1).
  set (st3 := release_processor st2).
  set (st4 := close_unless_closed (audioContextRef (refs st3)) st3).
  set (st5 := close_unless_closed (outputAudioContextRef (refs st4)) st4).
  destruct (release_session_spec st Hwf)
    as (A1 & A2 & A3 & A4 & A5 & A6 & A7 & A8). fold st1 in A1, A2, A3, A4, A5, A6, A7, A8.
  destruct (release_stream_spec st1) as (B1 & B2 & B3 & B4 & B5 & B6 & B7).
  fold st2 in B1, B2, B3, B4, B5, B6, B7.
  destruct (release_processor_spec st2) as (C1 & C2 & C3 & C4 & C5 & C6 & C7 & C8).
  fold st3 in C1, C2, C3, C4, C5, C6, C7, C8.
  destruct (close_unless_closed_spec (audioContextRef (refs st3)) st3)
    as (D1 & D2 & D3 & D4 & D5). fold st4 in D1, D2, D3, D4, D5.
  destruct (close_unless_closed_spec (outputAudioContextRef (refs st4)) st4)
    as (E1 & E2 & E3 & E4 & E5). fold st5 in E1, E2, E3, E4, E5.
  assert (Hctx : forall c, context_state st3 c = context_state st c).
  { intros c. unfold context_state. rewrite C6, B6, A6. reflexivity. }
  assert (Hac : audioContextRef (refs st3) = audioContextRef (refs st)) by congruence.
  assert (Hoc : outputAudioContextRef (refs st4) = outputAudioContextRef (refs st))
    by (rewrite D1; congruence).
  assert (Hopen : open_context st3 (audioContextRef (refs st3))
                  = open_context st (audioContextRef (refs st))).
  { rewrite Hac. unfold open_context. destruct (audioContextRef (refs st)); auto.
    rewrite Hctx. reflexivity. }
  rewrite Hopen in D4, D5. rewrite Hoc in E4, E5.
  assert (Hlog : log (setConnectionState disconnected st5)
                 = log st5 ++ [E_setConnectionState disconnected]) by reflexivity.
  split_and!.
  - unfold torn_down. change (refs (setConnectionState disconnected st5)) with (refs st5).
    rewrite E1, D1. split_and!; try congruence.
    intros c Hc.
    change (context_state (setConnectionState disconnected st5) c)
      with (context_state st5 c).
    rewrite E5. case_bool_decide as Ho; [auto|].
    rewrite D5. case_bool_decide as Ha; [auto|].
    rewrite Hctx.
    rewrite Hac, C5, B5, A5 in Hc.
    destruct (context_state st c) as [[| |]|] eqn:Est; auto; exfalso.
    + destruct Hc as [Hc|Hc].
      * apply Ha. rewrite Hc. unfold open_context. rewrite Est. reflexivity.
      * apply Ho. rewrite Hc. unfold open_context. rewrite D5.
        rewrite bool_decide_eq_false_2 by assumption. rewrite Hctx, Est. reflexivity.
    + destruct Hc as [Hc|Hc].
      * apply Ha. rewrite Hc. unfold open_context. rewrite Est. reflexivity.
      * apply Ho. rewrite Hc. unfold open_context. rewrite D5.
        rewrite bool_decide_eq_false_2 by assumption. rewrite Hctx, Est. reflexivity.
  - reflexivity.
  - change (react (setConnectionState disconnected st5))
      with (mkReact disconnected (transcripts (react st5)) (currentInterim (react st5))).
    simpl. rewrite E2, D2. unfold st3, st2, st1.
    open_pipeline st. unfold release_processor, release_stream, release_session, promise_then.
    simpl. destruct sp, sr, sc; simpl; auto;
      repeat (match goal with |- context [match ?x with _ => _ end] => destruct x end; simpl; auto).
  - change (react (setConnectionState disconnected st5))
      with (mkReact disconnected (transcripts (react st5)) (currentInterim (react st5))).
    simpl. rewrite E2, D2. unfold st3, st2, st1.
    open_pipeline st. unfold release_processor, release_stream, release_session, promise_then.
    simpl. destruct sp, sr, sc; simpl; auto;
      repeat (match goal with |- context [match ?x with _ => _ end] => destruct x end; simpl; auto).
  - intros p. rewrite <- A8.
    apply session_closes_frame with
      (l := (match streamRef (refs st1) with Some s => [E_track_stop s] | None => [] end)
            ++ (match scriptProcessorRef (refs st2) with
                | Some n => [E_processor_disconnect n] | None => [] end)
            ++ (match open_context st (audioContextRef (refs st)) with
                | Some c => [E_context_close c] | None => [] end)
            ++ (match open_context st4 (outputAudioContextRef (refs st)) with
                | Some c => [E_context_close c] | None => [] end)
            ++ [E_setConnectionState disconnected]).
    + change (browser (setConnectionState disconnected st5)) with (browser st5).
      rewrite E3, D3, C7, B6. reflexivity.
    + rewrite Hlog, E4, D4, C8, B7. rewrite <- !app_assoc. reflexivity.
    + rewrite !count_app.
      destruct (streamRef (refs st1)), (scriptProcessorRef (refs st2)),
        (open_context st (audioContextRef (refs st))),
        (open_context st4 (outputAudioContextRef (refs st))); reflexivity.
  - intros s. rewrite Hlog, E4, D4, C8, B7. rewrite !count_app.
    rewrite (A7 (is_track_stop s)) by reflexivity. rewrite A2.
    destruct (streamRef (refs st)) as [s'|]; simpl.
    + destruct (scriptProcessorRef (refs st2)),
        (open_context st (audioContextRef (refs st))),
        (open_context st4 (outputAudioContextRef (refs st))); unfold count; simpl;
        (destruct (Nat.eqb_spec s s') as [->|Hne];
         [rewrite bool_decide_eq_true_2 by reflexivity
         |rewrite bool_decide_eq_false_2 by congruence]; simpl; lia).
    + destruct (scriptProcessorRef (refs st2)),
        (open_context st (audioContextRef (refs st))),
        (open_context st4 (outputAudioContextRef (refs st))); unfold count; simpl; lia.
  - intros n. rewrite Hlog, E4, D4, C8, B7. rewrite !count_app.
    rewrite (A7 (is_processor_disconnect n)) by reflexivity. rewrite B3, A3.
    destruct (scriptProcessorRef (refs st)) as [n'|]; simpl.
    + destruct (streamRef (refs st1)),
        (open_context st (audioContextRef (refs st))),
        (open_context st4 (outputAudioContextRef (refs st))); unfold count; simpl;
        (destruct (Nat.eqb_spec n n') as [->|Hne];
         [rewrite bool_decide_eq_true_2 by reflexivity
         |rewrite bool_decide_eq_false_2 by congruence]; simpl; lia).
    + destruct (streamRef (refs st1)),
        (open_context st (audioContextRef (refs st))),
        (open_context st4 (outputAudioContextRef (refs st))); unfold count; simpl; lia.
  - intros c. rewrite Hlog, E4, D4, C8, B7. rewrite !count_app.
    rewrite (A7 (is_context_close c)) by reflexivity.
    replace (count (is_context_close c)
               match streamRef (refs st1) with Some s => [E_track_stop s] | None => [] end)
      with 0%nat by (destruct (streamRef (refs st1)); reflexivity).
    replace (count (is_context_close c)
               match scriptProcessorRef (refs st2) with
               | Some n => [E_processor_disconnect n] | None => [] end)
      with 0%nat by (destruct (scriptProcessorRef (refs st2)); reflexivity).
    replace (count (is_context_close c) [E_setConnectionState disconnected])
      with 0%nat by reflexivity.
    clear - D5 Hctx.
    assert (Hst4 : forall c', context_state st4 c'
              = if bool_decide (open_context st (audioContextRef (refs st)) = Some c')
                then Some closed else context_state st c').
    { intros c'. rewrite D5, Hctx. reflexivity. }
    clear D5 Hctx. revert Hst4. generalize st4. intros st4' Hst4.
    unfold held_open, open_context.
    destruct (audioContextRef (refs st)) as [c1|];
      destruct (outputAudioContextRef (refs st)) as [c2|];
      rewrite ?Hst4; unfold open_context;
      repeat match goal with
        | |- context [context_state st ?x] =>
            let E := fresh "E" in destruct (context_state st x) as [[| |]|] eqn:E
        end;
      repeat case_bool_decide; simplify_eq; unfold count; simpl;
      rewrite ?Nat.eqb_refl; simpl;
      repeat match goal with
        | |- context [Nat.eqb ?a ?b] => destruct (Nat.eqb_spec a b); simplify_eq
        end; simpl; try lia; try congruence.
Qed.

Lemma stop_times_S m st :
  torn_down (stop_times m st) ->
  stop_times (S m) st = setConnectionState disconnected (stop_times m st).
Proof. intros H. unfold stop_times at 1. simpl. apply stop_again. exact H. Qed.

Lemma stop_repeated m st :
  torn_down st ->
  torn_down (stop_times m st)
  /\ refs (stop_times m st) = refs st
  /\ browser (stop_times m st) = browser st
  /\ log (stop_times m st) = log st ++ repeat (E_setConnectionState disconnected) m.
Proof.
  intros Htd. induction m as [|m IH].
  - unfold stop_times. simpl. rewrite app_nil_r. auto.
  - destruct IH as (I1 & I2 & I3 & I4).
    rewrite (stop_times_S _ _ I1). split_and!.
    + exact I1.
    + exact I2.
    + exact I3.
    + change (log (setConnectionState disconnected (stop_times m st)))
        with (log (stop_times m st) ++ [E_setConnectionState disconnected]).
      rewrite I4. rewrite <- app_assoc. f_equal.
      change (E_setConnectionState disconnected :: repeat (E_setConnectionState disconnected) m)
        with (repeat (E_setConnectionState disconnected) (S m)).
      symmetry. apply repeat_cons.
Qed.

Lemma stop_times_disconnected n st :
  (0 < n)%nat -> connectionState (react (stop_times n st)) = disconnected.
Proof. destruct n; [lia|]. reflexivity. Qed.

(** C5.  From any state in which the session ref, if set, points at a
    session, calling [stop()] [n] >= 1 times ends in [disconnected] with the
    three handles null and the referenced contexts closed; refs and browser
    objects are as after the first call; and over all [n] calls each
    resource is released once if it was held and not at all otherwise:
    [session.close()] is called or queued once for the session in
    [sessionPromiseRef], the tracks of the stream in [streamRef] are stopped
    once, the processor in [scriptProcessorRef] is disconnected once, and a
    context is closed once iff a context ref holds it and it was not closed
    already, so that no [close()] ever hits a closed context. *)
Theorem stop_idempotent n st :
  (0 < n)%nat ->
  session_ref_valid st ->
  let st' := stop_times n st in
  connectionState (react st') = disconnected
  /\ torn_down st'
  /\ refs st' = refs (stopConversation st)
  /\ browser st' = browser (stopConversation st)
  /\ (forall p, session_closes p st'
        = (session_closes p st
           + if bool_decide (sessionPromiseRef (refs st) = Some p) then 1 else 0)%nat)
  /\ (forall s, count (is_track_stop s) (log st')
        = (count (is_track_stop s) (log st)
           + if bool_decide (streamRef (refs st) = Some s) then 1 else 0)%nat)
  /\ (forall nd, count (is_processor_disconnect nd) (log st')
        = (count (is_processor_disconnect nd) (log st)
           + if bool_decide (scriptProcessorRef (refs st) = Some nd) then 1 else 0)%nat)
  /\ (forall c, count (is_context_close c) (log st')
        = (count (is_context_close c) (log st)
           + if held_open st c then 1 else 0)%nat).
Proof.
  intros Hn Hwf st'.
  assert (Hd : connectionState (react st') = disconnected)
    by (apply stop_times_disconnected; assumption).
  revert Hd. subst st'. destruct n as [|m]; [lia|]. intros Hd.
  assert (E : stop_times (S m) st = stop_times m (stopConversation st))
    by (unfold stop_times; apply Nat.iter_succ_r).
  rewrite E in *. clear E.
  destruct (stop_once st Hwf) as (O1 & O2 & O3 & O4 & O5 & O6 & O7 & O8).
  destruct (stop_repeated m _ O1) as (R1 & R2 & R3 & R7).
  split_and!; auto.
  - intros p. rewrite <- O5. unfold session_closes, queued.
    rewrite R3, R7, count_app, count_repeat_setConnectionState by reflexivity. lia.
  - intros s. rewrite <- O6. rewrite R7, count_app, count_repeat_setConnectionState by reflexivity. lia.
  - intros nd. rewrite <- O7. rewrite R7, count_app, count_repeat_setConnectionState by reflexivity. lia.
  - intros c. rewrite <- O8. rewrite R7, count_app, count_repeat_setConnectionState by reflexivity. lia.
Qed.

Lemma stop_idempotent_witness :
  (0 < 3)%nat
  /\ session_ref_valid (run capturing mount)
  /\ connectionState (react (stop_times 3 (run capturing mount))) = disconnected
  /\ count (is_track_stop 0) (log (stop_times 3 (run capturing mount))) = 1%nat
  /\ count (is_context_close 0) (log (stop_times 3 (run capturing mount))) = 1%nat
  /\ session_closes 0 (stop_times 3 (run capturing mount)) = 1%nat.
Proof.
  assert (Hn : (0 < 3)%nat) by lia.
  assert (Hv : session_ref_valid (run capturing mount)).
  { intros p Hp. vm_compute in Hp. injection Hp as <-. vm_compute. eauto. }
  split; [exact Hn|]. split; [exact Hv|].
  destruct (stop_idempotent 3 (run capturing mount) Hn Hv)
    as (H1 & _ & _ & _ & H5 & H6 & _ & H8).
  split; [exact H1|].
  split; [rewrite H6; reflexivity|].
  split; [rewrite H8; reflexivity|].
  rewrite H5. reflexivity.
Defined.

(** ** Silence after [stop()] (C8) *)

Lemma handleMessage_session_side rnd m t dec st :
  session_side (handleMessage rnd m t dec st) = session_side st.
Proof.
  open_pipeline st. destruct m as [[[it ot tc id]|]]; [|reflexivity].
  unfold handleMessage, session_side; simpl.
  destruct it, ot, tc; simpl; destruct (truthy id); simpl; try reflexivity;
    destruct oc; simpl; try reflexivity; destruct dec; simpl;
    rewrite ?frames_sent_app, ?app_nil_r; reflexivity.
Qed.

Lemma stopConversation_session_side st :
  sessionPromiseRef (refs st) = None ->
  session_side (stopConversation st) = session_side st.
Proof.
  open_pipeline st. simpl. intros ->.
  unfold stopConversation, release_session, release_stream, release_processor. simpl.
  destruct sr, sc; simpl;
  unfold close_unless_closed, context_state; simpl;
  destruct ac as [c1|]; simpl;
  try (destruct (contexts b !! c1) as [[| |]|]; simpl);
  destruct oc as [c2|]; simpl;
  repeat match goal with
    | |- context [match ?l !! ?i with _ => _ end] =>
        destruct (l !! i) as [[| |]|]; simpl
    end;
  unfold session_side; simpl; rewrite ?frames_sent_app; simpl; rewrite ?app_nil_r; reflexivity.
Qed.

Lemma step_keeps_silence ev st :
  is_start ev = false ->
  sessionPromiseRef (refs st) = None ->
  no_queued_sends st ->
  let st' := step ev st in
  sessionPromiseRef (refs st') = None /\ no_queued_sends st'
  /\ frames_sent (log st') = frames_sent (log st).
Proof.
  intros Hev Href Hq.
  assert (Hside : forall st', session_side st' = session_side st ->
            sessionPromiseRef (refs st') = None /\ no_queued_sends st'
            /\ frames_sent (log st') = frames_sent (log st)).
  { intros st' E. unfold session_side in E. injection E as E1 E2 E3.
    split_and!; [congruence| |assumption].
    intros p. unfold queued. rewrite E2. apply Hq. }
  destruct ev as [o| |p|p|p|nd samples|p m t dec|p|p|src]; cbn [step]; try discriminate.
  - apply Hside, stopConversation_session_side, Href.
  - destruct (sessions (browser st) !! p) as [[[ks|] rn]|] eqn:Ep; auto.
    unfold fulfil. 
    assert (Eo : sessions (browser (onopen p st)) = sessions (browser st)) by reflexivity.
    rewrite Eo, Ep.
    match goal with |- context [fold_left ?f ks ?s] =>
      destruct (fold_react_to p ks s) as (F1 & F2 & F3 & F4) end.
    rewrite F2, F4.
    cbn [onopen refs upd_browser emit setConnectionState upd_react browser
           set_micRequests set_sessions sessions log] in F3 |- *.
    split_and!.
    + exact Href.
    + intros q. unfold queued. rewrite F3. simpl.
      destruct (decide (p = q)) as [<-|Hne].
      * rewrite list_lookup_insert_eq by (eapply lookup_lt_Some; eassumption). reflexivity.
      * rewrite list_lookup_insert_ne by assumption. apply Hq.
    + rewrite !frames_sent_app. simpl. rewrite frames_of_closes, !app_nil_r; [reflexivity|].
      specialize (Hq p). unfold queued in Hq. rewrite Ep in Hq. exact Hq.
  - destruct (take_request p (micRequests (browser st))); auto.
    apply Hside. open_pipeline st. unfold onopen_resume. simpl. destruct ac; reflexivity.
  - destruct (take_request p (micRequests (browser st))); auto.
  - destruct (fires nd st); auto. unfold onaudioprocess. rewrite Href. auto.
  - destruct (sessions (browser st) !! p); auto.
    apply Hside, handleMessage_session_side.
  - destruct (sessions (browser st) !! p); auto.
    unfold onerror.
    set (st1 := setConnectionState error (emit E_console_error st)).
    assert (E1 : session_side st1 = session_side st).
    { unfold session_side, st1. simpl. rewrite !frames_sent_app. simpl. rewrite !app_nil_r. reflexivity. }
    apply Hside. rewrite <- E1. apply stopConversation_session_side. exact Href.
  - destruct (sessions (browser st) !! p); auto.
    apply Hside, stopConversation_session_side, Href.
  - apply Hside. reflexivity.
Qed.

(** Once the session handle is null and no send reaction is waiting on a
    session promise, no event other than a new [start()] sends a frame:
    blocks that still arrive, a permission prompt answered late, messages,
    errors and closes of old sessions all leave the frames sent as they
    are. *)
Lemma silent_after_stop evs st :
  forallb (fun ev => negb (is_start ev)) evs = true ->
  sessionPromiseRef (refs st) = None ->
  no_queued_sends st ->
  frames_sent (log (run evs st)) = frames_sent (log st).
Proof.
  revert st. induction evs as [|ev evs IH]; intros st Hevs Href Hq; [reflexivity|].
  simpl in Hevs. apply andb_true_iff in Hevs as [Hev Hevs].
  apply negb_true_iff in Hev.
  destruct (step_keeps_silence ev st Hev Href Hq) as (S1 & S2 & S3).
  simpl. rewrite (IH _ Hevs S1 S2). exact S3.
Qed.

(** ** Reachable states *)

Lemma session_ref_valid_lt st :
  session_ref_valid st <->
  (forall p, sessionPromiseRef (refs st) = Some p ->
             (p < length (sessions (browser st)))%nat).
Proof.
  unfold session_ref_valid. split; intros H p Hp.
  - apply lookup_lt_is_Some. auto.
  - apply lookup_lt_is_Some. auto.
Qed.

Lemma session_side_valid st st' :
  session_side st' = session_side st -> session_ref_valid st -> session_ref_valid st'.
Proof.
  unfold session_side, session_ref_valid. intros E H p Hp.
  injection E as E1 E2 _. rewrite E2. apply H. congruence.
Qed.

Lemma stop_clears_session_ref st :
  sessionPromiseRef (refs (stopConversation st)) = None.
Proof.
  unfold stopConversation.
  set (st1 := release_session st).
  assert (H1 : sessionPromiseRef (refs st1) = None).
  { unfold st1, release_session. destruct (sessionPromiseRef (refs st)) eqn:E; [reflexivity|exact E]. }
  assert (H2 : sessionPromiseRef (refs (release_stream st1)) = None).
  { unfold release_stream. destruct (streamRef (refs st1)); [exact H1|exact H1]. }
  set (st2 := release_stream st1) in *.
  assert (H3 : sessionPromiseRef (refs (release_processor st2)) = None).
  { unfold release_processor. destruct (scriptProcessorRef (refs st2)); exact H2. }
  set (st3 := release_processor st2) in *.
  assert (Hc : forall r s, refs (close_unless_closed r s) = refs s).
  { intros [c|] s; simpl; [|reflexivity]. destruct (context_state s c) as [[| |]|]; reflexivity. }
  change (refs (setConnectionState disconnected ?s)) with (refs s).
  rewrite !Hc. exact H3.
Qed.

Lemma length_sessions_promise_then p k st :
  length (sessions (browser (promise_then p k st))) = length (sessions (browser st))
  /\ refs (promise_then p k st) = refs st.
Proof.
  unfold promise_then. destruct (sessions (browser st) !! p) as [[[ks|] rn]|]; simpl.
  - rewrite length_insert. auto.
  - destruct k; auto.
  - auto.
Qed.

Lemma step_session_ref_valid ev st :
  session_ref_valid st -> session_ref_valid (step ev st).
Proof.
  intros Hv.
  destruct ev as [o| |p|p|p|nd samples|p m t dec|p|p|src]; cbn [step].
  - apply session_ref_valid_lt. rewrite session_ref_valid_lt in Hv.
    open_pipeline st. destruct r as [cs ts ci]. unfold startConversation. simpl in *.
    destruct cs; try exact Hv.
    destruct o; simpl; try exact Hv.
    intros p Hp. injection Hp as <-. rewrite length_app. simpl. lia.
  - intros p Hp. rewrite stop_clears_session_ref in Hp. discriminate.
  - destruct (sessions (browser st) !! p) as [[[ks|] rn]|] eqn:Ep; auto.
    unfold fulfil.
    assert (Eo : sessions (browser (onopen p st)) = sessions (browser st)) by reflexivity.
    rewrite Eo, Ep.
    match goal with |- context [fold_left ?f ks ?s] =>
      destruct (fold_react_to p ks s) as (F1 & F2 & F3 & F4) end.
    apply session_ref_valid_lt. rewrite session_ref_valid_lt in Hv.
    rewrite F2, F3. simpl. rewrite length_insert. exact Hv.
  - destruct (take_request p (micRequests (browser st))); auto.
    eapply session_side_valid; [|exact Hv].
    open_pipeline st. unfold onopen_resume. simpl. destruct ac; reflexivity.
  - destruct (take_request p (micRequests (browser st))); auto.
  - destruct (fires nd st); auto. unfold onaudioprocess.
    destruct (sessionPromiseRef (refs st)) as [q|] eqn:Eq; auto.
    apply session_ref_valid_lt. rewrite session_ref_valid_lt in Hv.
    destruct (length_sessions_promise_then q
                (session_sendRealtimeInput (createBlob samples)) st) as [L1 L2].
    rewrite L1, L2. exact Hv.
  - destruct (sessions (browser st) !! p); auto.
    eapply session_side_valid; [|exact Hv]. apply handleMessage_session_side.
  - destruct (sessions (browser st) !! p); auto.
    intros q Hq. unfold onerror in Hq. rewrite stop_clears_session_ref in Hq. discriminate.
  - destruct (sessions (browser st) !! p); auto.
    intros q Hq. unfold onclose in Hq. rewrite stop_clears_session_ref in Hq. discriminate.
  - eapply session_side_valid; [|exact Hv]. reflexivity.
Qed.

Lemma reachable_session_ref_valid evs st :
  session_ref_valid st -> session_ref_valid (run evs st).
Proof.
  revert st. induction evs as [|ev evs IH]; intros st Hv; [exact Hv|].
  simpl. apply IH, step_session_ref_valid, Hv.
Qed.

Lemma mount_session_ref_valid : session_ref_valid mount.
Proof. intros p Hp. discriminate. Qed.

(** ** Starting (C6, C10) *)

(** C6.  While the state is [connecting] or [connected], any number of
    calls to [start()] change nothing: the pipeline, its heaps and its
    effect log stay as they are, so no second session is opened and no
    second device stream is requested. *)
Theorem start_is_noop_while_active st outcomes :
  connectionState (react st) = connecting \/
  connectionState (react st) = connected ->
  run (map Start outcomes) st = st.
Proof.
  intros H. induction outcomes as [|o os IH]; [reflexivity|].
  simpl. unfold startConversation. destruct H as [-> | ->]; exact IH.
Qed.

Lemma start_is_noop_while_active_witness :
  (connectionState (react (run capturing mount)) = connecting \/
   connectionState (react (run capturing mount)) = connected)
  /\ run (map Start [start_ok; start_ok]) (run capturing mount)
     = run capturing mount.
Proof.
  assert (H : connectionState (react (run capturing mount)) = connecting \/
              connectionState (react (run capturing mount)) = connected)
    by (right; reflexivity).
  split; [exact H|].
  apply (start_is_noop_while_active (run capturing mount) [start_ok; start_ok] H).
Defined.

(** A successful [start()] from [disconnected] resets the conversation
    record and hands the callbacks of the render it was clicked in to the
    new session. *)
Lemma start_resets st :
  connectionState (react st) = disconnected ->
  let st' := step (Start start_ok) st in
  connectionState (react st') = connecting
  /\ transcripts (react st') = []
  /\ currentInterim (react st') = emptyTurn
  /\ nextStartTimeRef (refs st') = Double.zero
  /\ sourcesRef (refs st') = []
  /\ sessionPromiseRef (refs st') = Some (length (sessions (browser st)))
  /\ sessions (browser st')
     = sessions (browser st) ++ [mkSession (pending []) (react st)].
Proof.
  intros H. destruct st as [r rf b lg]. simpl in *.
  unfold startConversation. rewrite H. simpl. split_and!; reflexivity.
Qed.

(** On a turn-complete signal the pair appended is the interim of the
    render the handler was created in, whatever the accumulators hold. *)
Lemma turnComplete_appends_captured rnd t dec st :
  transcripts (react (handleMessage rnd turn_complete t dec st))
  = transcripts (react st)
      ++ [mkTurn (user (currentInterim rnd)) (model (currentInterim rnd))].
Proof. reflexivity. Qed.

(** C10.  A conversation is stopped with "Hel" in the user accumulator and
    a second one is started.  The start does reset the record (finalized
    list empty, accumulators empty, cursor 0, no scheduled sources), but
    the first turn-complete signal of the new conversation finalizes the
    pair ("Hel", ""): text of the previous conversation, captured with the
    render in which Start was clicked. *)
Theorem previous_text_carries_over :
  let fresh := run carry_over mount in
  let after := step (ServerMessage 1 turn_complete Double.zero None) fresh in
  transcripts (react fresh) = []
  /\ currentInterim (react fresh) = emptyTurn
  /\ nextStartTimeRef (refs fresh) = Double.zero
  /\ sourcesRef (refs fresh) = []
  /\ transcripts (react after) = [mkTurn "Hel" ""].
Proof. vm_compute. split_and!; reflexivity. Qed.

(** ** Transcripts (C2) *)

(** C2.  For [user:"Hel", user:"lo", turnComplete, model:"Hi"] in a first
    conversation: the fragments are appended in order (the user accumulator
    is "Hello" before the signal), both accumulators are reset by the
    signal and "Hi" goes to a fresh model accumulator, but the pair the
    signal appends to the finalized sequence is ("", ""), not
    ("Hello", ""): the handler reads [currentInterim] of the render in
    which the conversation was started. *)
Theorem turnComplete_finalizes_captured_pair :
  let before := run hello mount in
  let after := step (ServerMessage 0 turn_complete Double.zero None) before in
  let later := step (ServerMessage 0 (says_model "Hi") Double.zero None) after in
  currentInterim (react before) = mkTurn "Hello" ""
  /\ transcripts (react after) = [mkTurn "" ""]
  /\ transcripts (react after) <> [mkTurn "Hello" ""]
  /\ currentInterim (react after) = emptyTurn
  /\ currentInterim (react later) = mkTurn "" "Hi".
Proof. vm_compute. split_and!; try reflexivity. discriminate. Qed.

(** ** Failures (C3, C4) *)

Lemma error_banner_iff r :
  error_banner (view r) = true <-> connectionState r = error.
Proof.
  unfold view. simpl. destruct (connectionState r); simpl; split; congruence.
Qed.

(** The [catch] branch is the one path that leaves the state at [error]. *)
Lemma start_catch_ends_error st :
  connectionState (react (start_catch st)) = error.
Proof. reflexivity. Qed.

Lemma onerror_ends_disconnected st :
  connectionState (react (onerror st)) = disconnected.
Proof. reflexivity. Qed.

(** A denied permission changes nothing the component can see. *)
Lemma MicDenied_unobserved p st :
  let st' := step (MicDenied p) st in
  react st' = react st /\ refs st' = refs st /\ log st' = log st.
Proof.
  cbn [step]. destruct (take_request p (micRequests (browser st))); auto.
Qed.

(** C3.  Start, session opens, permission denied: the states set are
    [connecting] then [connected], and [connected] is where the pipeline
    stays (the live badge is shown, the error banner is not); the rejection
    of [getUserMedia] is raised inside the [async] [onopen], outside the
    [try] of [startConversation].  No stream is stored and no capture
    stage is created. *)
Theorem permission_denied_stays_connected :
  let st := run (opened ++ [MicDenied 0]) mount in
  state_trace (log st) = [connecting; connected]
  /\ connectionState (react st) = connected
  /\ error_banner (view (react st)) = false
  /\ live_badge (view (react st)) = true
  /\ streamRef (refs st) = None
  /\ scriptProcessorRef (refs st) = None
  /\ processors (browser st) = [].
Proof. vm_compute. split_and!; reflexivity. Qed.

(** C4.  A remote error while [connected] and capturing: [onerror] sets
    [error] and then calls [stopConversation], which sets [disconnected]
    within the same handler, so the state the component renders afterwards
    is [disconnected], without the error banner and indistinguishable from
    a component that was never started.  The tracks of the device stream
    are stopped exactly once, also after the close event that follows. *)
Theorem remote_error_ends_disconnected :
  let before := run capturing mount in
  let after := step (ServerError 0) before in
  connectionState (react before) = connected
  /\ state_trace (log after) = [connecting; connected; error; disconnected]
  /\ connectionState (react after) = disconnected
  /\ error_banner (view (react after)) = false
  /\ view (react after) = view (react mount)
  /\ count (is_track_stop 0) (log after) = 1%nat
  /\ count (is_track_stop 0) (log (step (ServerClose 0) after)) = 1%nat.
Proof. vm_compute. split_and!; reflexivity. Qed.

(** ** A frame sent after [stop()] (C8) *)

(** C8.  After the run [race] the component has been stopped: the session
    handle is null, the capture stage disconnected, the state
    [disconnected], and no frame has been sent.  The block delivered while
    the second session was connecting is still queued on its promise,
    ahead of the [close()] queued by [stop()]; when that session opens, the
    frame is sent. *)
Theorem frame_sent_after_stop :
  let stopped := run race mount in
  sessionPromiseRef (refs stopped) = None
  /\ scriptProcessorRef (refs stopped) = None
  /\ connectionState (react stopped) = disconnected
  /\ frames_sent (log stopped) = []
  /\ queued 1 stopped
     = [session_sendRealtimeInput (createBlob [1 # 2]%Q); session_close]
  /\ frames_sent (log (step (SessionOpen 1) stopped))
     = [(1%nat, createBlob [1 # 2]%Q)].
Proof. vm_compute. split_and!; reflexivity. Qed.

(** ** Video generation: polling (C9) *)

Import Video.

Lemma ends_or_running reply : ends_polling reply \/ still_running reply.
Proof.
  destruct reply as [op|e]; simpl; [|auto].
  destruct (done op) eqn:E; [left; reflexivity|right; exists op; auto].
Qed.

Lemma ends_not_running reply : ends_polling reply -> still_running reply -> False.
Proof.
  intros He (op & -> & Hd). simpl in He. congruence.
Qed.

Lemma poll_returns_on_end remote j :
  forall k operation timers,
    ends_polling (getVideosOperation remote (k + j)) ->
    exists fuel r, poll fuel remote k operation timers = Some r.
Proof.
  induction j as [|j IH]; intros k operation timers Hend.
  - rewrite Nat.add_0_r in Hend.
    destruct (done operation) eqn:Ed.
    + exists 0%nat. eexists. simpl. rewrite Ed. reflexivity.
    + destruct (getVideosOperation remote k) as [op'|e] eqn:Ek.
      * exists 1%nat. eexists. simpl. rewrite Ed, Ek. simpl in Hend. rewrite Hend. reflexivity.
      * exists 1%nat. eexists. simpl. rewrite Ed, Ek. reflexivity.
  - destruct (done operation) eqn:Ed.
    + exists 0%nat. eexists. simpl. rewrite Ed. reflexivity.
    + destruct (getVideosOperation remote k) as [op'|e] eqn:Ek.
      * replace (k + S j)%nat with (S k + j)%nat in Hend by lia.
        destruct (IH (S k) op' (timers ++ [poll_interval]) Hend) as (fuel & r & Hr).
        exists (S fuel), r. simpl. rewrite Ed, Ek. exact Hr.
      * exists 1%nat. eexists. simpl. rewrite Ed, Ek. reflexivity.
Qed.

Lemma poll_returned fuel remote :
  forall k operation timers r,
    poll fuel remote k operation timers = Some r ->
    done operation = true \/ exists j, ends_polling (getVideosOperation remote (k + j)).
Proof.
  induction fuel as [|fuel IH]; intros k operation timers r H; simpl in H.
  - destruct (done operation); [auto|discriminate].
  - destruct (done operation) eqn:Ed; [auto|]. right.
    destruct (getVideosOperation remote k) as [op'|e] eqn:Ek.
    + destruct (IH _ _ _ _ H) as [Hd|(j & Hj)].
      * exists 0%nat. rewrite Nat.add_0_r, Ek. exact Hd.
      * exists (S j). replace (k + S j)%nat with (S k + j)%nat by lia. exact Hj.
    + exists 0%nat. rewrite Nat.add_0_r, Ek. exact I.
Qed.

Lemma poll_timers fuel remote :
  forall k operation timers r timers',
    poll fuel remote k operation timers = Some (r, timers') ->
    exists n, timers' = timers ++ repeat poll_interval n.
Proof.
  induction fuel as [|fuel IH]; intros k operation timers r timers' H; simpl in H.
  - destruct (done operation); [|discriminate]. injection H as _ <-.
    exists 0%nat. simpl. rewrite app_nil_r. reflexivity.
  - destruct (done operation).
    + injection H as _ <-. exists 0%nat. simpl. rewrite app_nil_r. reflexivity.
    + destruct (getVideosOperation remote k) as [op'|e].
      * destruct (IH _ _ _ _ _ H) as (n & ->). exists (S n).
        rewrite <- app_assoc. reflexivity.
      * injection H as _ <-. exists 1%nat. reflexivity.
Qed.

Lemma poll_keeps_running remote n :
  forall k operation timers,
    done operation = false ->
    (forall j, (j < n)%nat -> still_running (getVideosOperation remote (k + j))) ->
    poll n remote k operation timers = None.
Proof.
  induction n as [|n IH]; intros k operation timers Hd Hrun; simpl; rewrite Hd.
  - reflexivity.
  - destruct (Hrun 0%nat ltac:(lia)) as (op' & E & Hd'). rewrite Nat.add_0_r in E.
    rewrite E. apply IH; [exact Hd'|].
    intros j Hj. replace (S k + j)%nat with (k + S j)%nat by lia. apply Hrun. lia.
Qed.

(** C9, as the code has it.  [generateVideo] settles exactly when the API
    key is missing, the initial request is rejected, the initial reply is
    already done, or some poll reports done or is rejected (a rejected poll
    leaves the loop by throwing).  Every timer it sets is [poll_interval] =
    10000 ms, one per poll, with no backoff; and there is no cap and no
    timeout: as long as the first [n] polls report "not done", [n]
    iterations do not end the loop, for every [n]. *)
Theorem generateVideo_polling remote :
  (settles remote <->
     ~ has_key remote
     \/ (exists reason, generateVideos remote = rejected reason)
     \/ (exists operation, generateVideos remote = resolved operation /\
           (done operation = true \/
            exists k, ends_polling (getVideosOperation remote k))))
  /\ (forall fuel r timers,
        generateVideo fuel remote = Some (r, timers) ->
        exists n, timers = repeat poll_interval n)
  /\ (forall n operation,
        has_key remote ->
        generateVideos remote = resolved operation ->
        done operation = false ->
        (forall k, (k < n)%nat -> still_running (getVideosOperation remote k)) ->
        generateVideo n remote = None).
Proof.
  split_and!.
  - split.
    + intros (fuel & r & H). unfold generateVideo in H.
      destruct (API_KEY remote) as [[|a key]|] eqn:Ekey.
      * left. intros (k & Hk & Hne). congruence.
      * destruct (generateVideos remote) as [operation|reason] eqn:Eg.
        -- right. right. exists operation. split; [reflexivity|].
           destruct (poll fuel remote 0 operation []) as [[ro tm]|] eqn:Ep; [|discriminate].
           exact (poll_returned _ _ _ _ _ _ Ep).
        -- right. left. eauto.
      * left. intros (k & Hk & Hne). congruence.
    + intros H. unfold settles, generateVideo.
      destruct (API_KEY remote) as [[|a key]|] eqn:Ekey.
      * exists 0%nat. eauto.
      * destruct H as [Hk|[(reason & Hr)|(operation & Ho & Hend)]].
        -- exfalso. apply Hk. exists (String a key). split; [exact Ekey|discriminate].
        -- rewrite Hr. exists 0%nat. eauto.
        -- rewrite Ho.
           assert (Hp : exists fuel r, poll fuel remote 0 operation [] = Some r).
           { destruct Hend as [Hd|(k & Hk)].
             - exists 0%nat. eexists. simpl. rewrite Hd. reflexivity.
             - apply (poll_returns_on_end remote k 0). exact Hk. }
           destruct Hp as (fuel & [ro tm] & Hp). exists fuel. rewrite Hp.
           destruct ro as [op|e]; [|eauto].
           destruct (uri op) as [[|b link]|]; eauto.
           destruct (fetch remote _) as [resp|e]; [|eauto].
           destruct (ok resp); eauto.
      * exists 0%nat. eauto.
  - intros fuel r timers H. unfold generateVideo in H.
    destruct (API_KEY remote) as [[|a key]|].
    + injection H as _ <-. exists 0%nat. reflexivity.
    + destruct (generateVideos remote) as [operation|reason].
      * destruct (poll fuel remote 0 operation []) as [[ro tm]|] eqn:Ep; [|discriminate].
        destruct (poll_timers _ _ _ _ _ _ _ Ep) as (n & En). simpl in En. exists n.
        destruct ro as [op|e]; [|congruence].
        destruct (uri op) as [[|b link]|]; try congruence.
        destruct (fetch remote _) as [resp|e]; [|congruence].
        destruct (ok resp); congruence.
      * injection H as _ <-. exists 0%nat. reflexivity.
    + injection H as _ <-. exists 0%nat. reflexivity.
  - intros n operation (key & Hk & Hne) Hg Hd Hrun. unfold generateVideo.
    rewrite Hk, Hg. destruct key as [|a key]; [congruence|].
    rewrite (poll_keeps_running remote n 0 operation [] Hd Hrun). reflexivity.
Qed.

Lemma generateVideo_polling_witness :
  has_key remote_never_done
  /\ (forall k, (k < 1000)%nat ->
        still_running (getVideosOperation remote_never_done k))
  /\ generateVideo 1000 remote_never_done = None.
Proof.
  assert (Hk : has_key remote_never_done)
    by (exists "key"%string; split; [reflexivity|discriminate]).
  assert (Hr : forall k, (k < 1000)%nat ->
                 still_running (getVideosOperation remote_never_done k))
    by (intros k _; exists (mkOperation false None); split; reflexivity).
  split; [exact Hk|]. split; [exact Hr|].
  destruct (generateVideo_polling remote_never_done) as (_ & _ & H).
  exact (H 1000%nat (mkOperation false None) Hk eq_refl eq_refl Hr).
Defined.

(** The claim as the specification words it, "generateVideo terminates if
    and only if the remote operation eventually completes", fails when a
    poll is rejected: the call settles although no reply ever reports
    done. *)
Lemma generateVideo_settles_without_done :
  settles remote_poll_fails /\ ~ reported_done remote_poll_fails.
Proof.
  split.
  - exists 1%nat. eexists. reflexivity.
  - intros [(op & H & Hd)|(k & op & H & _)].
    + injection H as <-. discriminate.
    + discriminate.
Qed.

(* ===================================================================== *)
(** * Further properties of the LiveAssistant component                   *)
(* ===================================================================== *)

Import Transcript.


Lemma append_empty_r (s : string) : s +:+ "" = s.
Proof.
  induction s as [|c s IH]; [reflexivity|].
  change (String c (s +:+ "") = String c s). f_equal. exact IH.
Qed.

Lemma append_assoc (a b c : string) : (a +:+ b) +:+ c = a +:+ (b +:+ c).
Proof.
  induction a as [|x a IH]; [reflexivity|].
  change (String x ((a +:+ b) +:+ c) = String x (a +:+ (b +:+ c))).
  f_equal. exact IH.
Qed.

(** One message without a turn-complete signal. *)
Lemma handleMessage_accumulates rnd m st :
  completes_turn m = false ->
  let st' := handleMessage rnd (message m) (clock m) (decoded m) st in
  user (currentInterim (react st'))
    = user (currentInterim (react st)) +:+ input_text m
  /\ model (currentInterim (react st'))
    = model (currentInterim (react st)) +:+ output_text m
  /\ transcripts (react st') = transcripts (react st).
Proof.
  destruct m as [[[[it ot tc id]|]] t dec];
    unfold completes_turn, input_text, output_text; simpl.
  2: { intros _. rewrite !append_empty_r. auto. }
  intros ->. unfold handleMessage. simpl.
  destruct it, ot; simpl; destruct (truthy id); simpl;
    destruct (outputAudioContextRef (refs st)); simpl; destruct dec; simpl;
    rewrite ?append_empty_r; auto.
Qed.

(** X1.  Over any sequence of messages without a turn-complete signal, the
    user accumulator ends as its old text followed by what the input
    transcriptions add, in arrival order, the model accumulator likewise
    with the output transcriptions, and the finalized list is untouched.
    A transcription adds its text, and the string "undefined" when it
    carries none. *)
Theorem fragments_accumulate_in_order rnd inbound st :
  Forall (fun m => completes_turn m = false) inbound ->
  let st' := handleMessages rnd inbound st in
  user (currentInterim (react st'))
    = user (currentInterim (react st)) +:+ concat_texts (map input_text inbound)
  /\ model (currentInterim (react st'))
    = model (currentInterim (react st)) +:+ concat_texts (map output_text inbound)
  /\ transcripts (react st') = transcripts (react st).
Proof.
  revert st. induction inbound as [|m rest IH]; intros st Hall.
  - simpl. rewrite !append_empty_r. auto.
  - apply Forall_cons in Hall as [Hm Hrest].
    destruct (handleMessage_accumulates rnd m st Hm) as (U & M & T).
    destruct (IH (handleMessage rnd (message m) (clock m) (decoded m) st) Hrest)
      as (U' & M' & T').
    change (handleMessages rnd (m :: rest) st)
      with (handleMessages rnd rest
              (handleMessage rnd (message m) (clock m) (decoded m) st)).
    cbv zeta. rewrite U', M', T', U, M, T. simpl. rewrite !append_assoc. auto.
Qed.

Lemma handleMessage_finalizes rnd m st :
  let st' := handleMessage rnd (message m) (clock m) (decoded m) st in
  transcripts (react st')
    = transcripts (react st) ++ (if completes_turn m then [captured rnd] else [])
  /\ (completes_turn m = true -> currentInterim (react st') = emptyTurn).
Proof.
  destruct m as [[[[it ot tc id]|]] t dec]; unfold completes_turn; simpl.
  2: { rewrite app_nil_r. split; [reflexivity|discriminate]. }
  unfold handleMessage. simpl.
  destruct it, ot, tc; simpl; destruct (truthy id); simpl;
    destruct (outputAudioContextRef (refs st)); simpl; destruct dec; simpl;
    rewrite ?app_nil_r; split; auto; discriminate.
Qed.

(** X2.  Over any sequence of messages the finalized list grows by exactly
    one pair per turn-complete signal, each being the pair captured with
    the handler; and when the sequence ends with such a signal both
    accumulators are empty afterwards. *)
Theorem one_pair_per_turnComplete rnd inbound st :
  let st' := handleMessages rnd inbound st in
  transcripts (react st')
    = transcripts (react st)
        ++ repeat (captured rnd) (length (List.filter completes_turn inbound))
  /\ (forall rest m, inbound = rest ++ [m] -> completes_turn m = true ->
        currentInterim (react st') = emptyTurn).
Proof.
  split.
  - revert st. induction inbound as [|m rest IH]; intros st.
    + simpl. rewrite app_nil_r. reflexivity.
    + change (handleMessages rnd (m :: rest) st)
        with (handleMessages rnd rest
                (handleMessage rnd (message m) (clock m) (decoded m) st)).
      rewrite IH. destruct (handleMessage_finalizes rnd m st) as [T _].
      rewrite T. simpl. destruct (completes_turn m); simpl.
      * rewrite <- app_assoc. reflexivity.
      * rewrite app_nil_r. reflexivity.
  - intros rest m -> Hm. unfold handleMessages. rewrite fold_left_app. simpl.
    apply (handleMessage_finalizes rnd m). exact Hm.
Qed.

Lemma promise_then_close_kept p st :
  kept_by_stop (promise_then p session_close st) = kept_by_stop st.
Proof.
  unfold promise_then.
  destruct (sessions (browser st) !! p) as [[[ks|] rn]|]; try reflexivity.
  unfold kept_by_stop. simpl. rewrite scheduled_app, frames_sent_app. simpl.
  rewrite !app_nil_r. reflexivity.
Qed.

Lemma close_unless_closed_kept r st :
  kept_by_stop (close_unless_closed r st) = kept_by_stop st.
Proof.
  destruct r as [c|]; simpl; [|reflexivity].
  destruct (context_state st c) as [[| |]|]; try reflexivity;
    unfold kept_by_stop; simpl; rewrite scheduled_app, frames_sent_app; simpl;
    rewrite !app_nil_r; reflexivity.
Qed.

Lemma stopConversation_kept st :
  kept_by_stop (stopConversation st) = kept_by_stop st.
Proof.
  unfold stopConversation.
  set (st1 := release_session st).
  assert (H1 : kept_by_stop st1 = kept_by_stop st).
  { unfold st1, release_session.
    destruct (sessionPromiseRef (refs st)); [|reflexivity].
    rewrite <- (promise_then_close_kept n st). reflexivity. }
  set (st2 := release_stream st1).
  assert (H2 : kept_by_stop st2 = kept_by_stop st1).
  { unfold st2, release_stream. destruct (streamRef (refs st1)); [|reflexivity].
    unfold kept_by_stop. simpl. rewrite scheduled_app, frames_sent_app. simpl.
    rewrite !app_nil_r. reflexivity. }
  set (st3 := release_processor st2).
  assert (H3 : kept_by_stop st3 = kept_by_stop st2).
  { unfold st3, release_processor.
    destruct (scriptProcessorRef (refs st2)); [|reflexivity].
    unfold kept_by_stop. simpl. rewrite scheduled_app, frames_sent_app. simpl.
    rewrite !app_nil_r. reflexivity. }
  set (st4 := close_unless_closed (audioContextRef (refs st3)) st3).
  assert (H4 : kept_by_stop st4 = kept_by_stop st3)
    by apply close_unless_closed_kept.
  set (st5 := close_unless_closed (outputAudioContextRef (refs st4)) st4).
  assert (H5 : kept_by_stop st5 = kept_by_stop st4)
    by apply close_unless_closed_kept.
  transitivity (kept_by_stop st5); [|congruence].
  unfold kept_by_stop. simpl. rewrite scheduled_app, frames_sent_app. simpl.
  rewrite !app_nil_r. reflexivity.
Qed.

(** X7.  [stopConversation] leaves the finalized transcript, both
    accumulators, the playback cursor and the set of scheduled sources as
    they are, schedules nothing and sends nothing: the conversation text
    stays on screen after a stop, and buffers already scheduled are not
    touched. *)
Theorem stop_keeps_transcript_and_playback st :
  let st' := stopConversation st in
  transcripts (react st') = transcripts (react st)
  /\ currentInterim (react st') = currentInterim (react st)
  /\ nextStartTimeRef (refs st') = nextStartTimeRef (refs st)
  /\ sourcesRef (refs st') = sourcesRef (refs st)
  /\ scheduled (log st') = scheduled (log st)
  /\ frames_sent (log st') = frames_sent (log st).
Proof.
  pose proof (stopConversation_kept st) as H.
  unfold kept_by_stop in H. injection H as E1 E2 E3 E4 E5 E6 E7.
  cbv zeta. split_and!; assumption.
Qed.

(** X6.  Handling a message, whatever it carries, never changes the
    connection state, the session, stream, processor or context handles,
    the sessions, contexts, processors or pending permission requests, and
    sends no frame. *)
Theorem messages_leave_connection_alone rnd m t dec st :
  let st' := handleMessage rnd m t dec st in
  connectionState (react st') = connectionState (react st)
  /\ sessionPromiseRef (refs st') = sessionPromiseRef (refs st)
  /\ streamRef (refs st') = streamRef (refs st)
  /\ scriptProcessorRef (refs st') = scriptProcessorRef (refs st)
  /\ audioContextRef (refs st') = audioContextRef (refs st)
  /\ outputAudioContextRef (refs st') = outputAudioContextRef (refs st)
  /\ sessions (browser st') = sessions (browser st)
  /\ contexts (browser st') = contexts (browser st)
  /\ processors (browser st') = processors (browser st)
  /\ micRequests (browser st') = micRequests (browser st)
  /\ state_trace (log st') = state_trace (log st)
  /\ frames_sent (log st') = frames_sent (log st).
Proof.
  open_pipeline st. destruct m as [[[it ot tc id]|]]; [|simpl; split_and!; reflexivity].
  unfold handleMessage; simpl.
  destruct it, ot, tc; simpl; destruct (truthy id); simpl;
    try (split_and!; reflexivity);
    destruct oc; simpl; try (split_and!; reflexivity); destruct dec; simpl;
    unfold state_trace; rewrite ?frames_sent_app, ?flat_map_app; simpl;
    rewrite ?app_nil_r; split_and!; reflexivity.
Qed.

Lemma session_side_latest st st' :
  session_side st' = session_side st -> handle_is_latest st -> handle_is_latest st'.
Proof.
  unfold session_side, handle_is_latest. intros E H p Hp.
  injection E as E1 E2 _. rewrite E2. apply H. congruence.
Qed.

Lemma step_handle_is_latest ev st :
  handle_is_latest st -> handle_is_latest (step ev st).
Proof.
  intros Hv.
  destruct ev as [o| |p|p|p|nd samples|p m t dec|p|p|src]; cbn [step].
  - open_pipeline st. destruct r as [cs ts ci]. unfold startConversation.
    unfold handle_is_latest in *. simpl in *.
    destruct cs; try exact Hv. destruct o; simpl; try exact Hv.
    intros p Hp. injection Hp as <-. rewrite length_app. simpl. lia.
  - intros p Hp. rewrite stop_clears_session_ref in Hp. discriminate.
  - destruct (sessions (browser st) !! p) as [[[ks|] rn]|] eqn:Ep; auto.
    unfold fulfil.
    assert (Eo : sessions (browser (onopen p st)) = sessions (browser st))
      by reflexivity.
    rewrite Eo, Ep.
    match goal with |- context [fold_left ?f ks ?s] =>
      destruct (fold_react_to p ks s) as (F1 & F2 & F3 & F4) end.
    unfold handle_is_latest in *. rewrite F2, F3. simpl.
    rewrite length_insert. exact Hv.
  - destruct (take_request p (micRequests (browser st))); auto.
    eapply session_side_latest; [|exact Hv].
    open_pipeline st. unfold onopen_resume. simpl. destruct ac; reflexivity.
  - destruct (take_request p (micRequests (browser st))); auto.
  - destruct (fires nd st); auto. unfold onaudioprocess.
    destruct (sessionPromiseRef (refs st)) as [q|] eqn:Eq; auto.
    destruct (length_sessions_promise_then q
                (session_sendRealtimeInput (createBlob samples)) st) as [L1 L2].
    unfold handle_is_latest in *. rewrite L1, L2. exact Hv.
  - destruct (sessions (browser st) !! p); auto.
    eapply session_side_latest; [|exact Hv]. apply handleMessage_session_side.
  - destruct (sessions (browser st) !! p); auto.
    intros q Hq. unfold onerror in Hq. rewrite stop_clears_session_ref in Hq.
    discriminate.
  - destruct (sessions (browser st) !! p); auto.
    intros q Hq. unfold onclose in Hq. rewrite stop_clears_session_ref in Hq.
    discriminate.
  - eapply session_side_latest; [|exact Hv]. reflexivity.
Qed.

(** X5.  In every run from mount the session handle is either null or the
    promise of the session opened last: at most one session is referenced,
    never an older one. *)
Theorem handle_is_latest_session evs : handle_is_latest (run evs mount).
Proof.
  assert (H : forall st, handle_is_latest st -> handle_is_latest (run evs st)).
  { induction evs as [|ev evs IH]; intros st Hf; [exact Hf|].
    simpl. apply IH, step_handle_is_latest, Hf. }
  apply H. intros p Hp. discriminate.
Qed.

(** X9.  In the [error] state the component shows the error banner and an
    enabled "Start Conversation" button, yet [start()] does nothing however
    often it is called; [stop()] is what brings the state back to
    [disconnected]. *)
Theorem start_is_dead_in_error st outcomes :
  connectionState (react st) = error ->
  button (view (react st)) = do_start
  /\ button_disabled (view (react st)) = false
  /\ error_banner (view (react st)) = true
  /\ run (map Start outcomes) st = st
  /\ connectionState (react (step Stop st)) = disconnected.
Proof.
  intros H. unfold view. rewrite H. simpl. split_and!; try reflexivity.
  induction outcomes as [|o os IH]; [reflexivity|].
  simpl. unfold startConversation. rewrite H. exact IH.
Qed.

Lemma start_is_dead_in_error_witness :
  connectionState (react (run [Start throws_connectLive] mount)) = error
  /\ run (map Start [start_ok; start_ok]) (run [Start throws_connectLive] mount)
     = run [Start throws_connectLive] mount.
Proof.
  assert (H : connectionState (react (run [Start throws_connectLive] mount)) = error)
    by reflexivity.
  split; [exact H|].
  destruct (start_is_dead_in_error (run [Start throws_connectLive] mount)
              [start_ok; start_ok] H) as (_ & _ & _ & E & _).
  exact E.
Defined.

(** X10.  A [start()] from [disconnected] whose [try] block throws, at any
    of the three calls that can, sets [connecting] and then [error], has
    cleared the transcript, and opens nothing: no session, no permission
    request, no stream, no frame, and the session handle is unchanged. *)
Theorem failed_start_opens_nothing st outcome :
  connectionState (react st) = disconnected ->
  outcome <> start_ok ->
  let st' := step (Start outcome) st in
  connectionState (react st') = error
  /\ state_trace (log st') = state_trace (log st) ++ [connecting; error]
  /\ transcripts (react st') = []
  /\ currentInterim (react st') = emptyTurn
  /\ sessionPromiseRef (refs st') = sessionPromiseRef (refs st)
  /\ sessions (browser st') = sessions (browser st)
  /\ micRequests (browser st') = micRequests (browser st)
  /\ streamRef (refs st') = streamRef (refs st)
  /\ frames_sent (log st') = frames_sent (log st).
Proof.
  intros H Ho. open_pipeline st. destruct r as [cs ts ci]. simpl in H. subst cs.
  cbn [step]. unfold startConversation. simpl.
  destruct outcome; [congruence| | |]; simpl;
    unfold state_trace; rewrite ?frames_sent_app, ?flat_map_app; simpl;
    rewrite ?app_nil_r, <- ?app_assoc; split_and!; reflexivity.
Qed.

Lemma failed_start_opens_nothing_witness :
  connectionState (react mount) = disconnected
  /\ throws_output_AudioContext <> start_ok
  /\ connectionState (react (step (Start throws_output_AudioContext) mount)) = error.
Proof.
  assert (H1 : connectionState (react mount) = disconnected) by reflexivity.
  assert (H2 : throws_output_AudioContext <> start_ok) by discriminate.
  split; [exact H1|]. split; [exact H2|].
  destruct (failed_start_opens_nothing mount throws_output_AudioContext H1 H2)
    as (E & _). exact E.
Defined.

Lemma stop_sessions st :
  sessions (browser (stopConversation st)) = sessions (browser (release_session st)).
Proof.
  unfold stopConversation.
  set (st1 := release_session st).
  destruct (release_stream_spec st1) as (_ & _ & _ & _ & _ & B6 & _).
  destruct (release_processor_spec (release_stream st1))
    as (_ & _ & _ & _ & _ & _ & C7 & _).
  destruct (close_unless_closed_spec
              (audioContextRef (refs (release_processor (release_stream st1))))
              (release_processor (release_stream st1))) as (_ & _ & D3 & _).
  match goal with |- context [close_unless_closed ?r (close_unless_closed ?r' ?s)] =>
    destruct (close_unless_closed_spec r (close_unless_closed r' s))
      as (_ & _ & E3 & _)
  end.
  change (browser (setConnectionState disconnected ?s)) with (browser s).
  rewrite E3, D3, C7, B6. reflexivity.
Qed.

Lemma stop_keeps_queues_send_free st :
  no_queued_sends st -> no_queued_sends (stopConversation st).
Proof.
  intros Hq q. unfold queued. rewrite stop_sessions.
  unfold release_session.
  destruct (sessionPromiseRef (refs st)) as [p|]; [|apply Hq].
  change (sessions (browser (upd_refs ?f ?s))) with (sessions (browser s)).
  unfold promise_then.
  destruct (sessions (browser st) !! p) as [[[ks|] rn]|] eqn:Ep;
    [|destruct rn; apply Hq|apply Hq].
  simpl. destruct (decide (p = q)) as [<-|Hne].
  - rewrite list_lookup_insert_eq by (eapply lookup_lt_Some; eassumption).
    rewrite List.filter_app. simpl. rewrite app_nil_r.
    specialize (Hq p). unfold queued in Hq. rewrite Ep in Hq. exact Hq.
  - rewrite list_lookup_insert_ne by assumption. apply Hq.
Qed.

(** X8.  From any state in which no send is waiting on a pending session
    promise, [stop()] followed by any events other than a new [start()]
    (late blocks, a permission prompt answered late, messages, errors and
    closes) sends no frame at all. *)
Theorem no_frame_after_stop st evs :
  no_queued_sends st ->
  forallb (fun ev => negb (is_start ev)) evs = true ->
  frames_sent (log (run (Stop :: evs) st)) = frames_sent (log st).
Proof.
  intros Hq Hevs. simpl.
  rewrite (silent_after_stop evs (stopConversation st) Hevs
             (stop_clears_session_ref st) (stop_keeps_queues_send_free st Hq)).
  pose proof (stopConversation_kept st) as H. unfold kept_by_stop in H.
  injection H as _ _ _ _ _ _ H. exact H.
Qed.

Lemma no_frame_after_stop_witness :
  no_queued_sends (run capturing mount)
  /\ forallb (fun ev => negb (is_start ev)) late_events = true
  /\ frames_sent (log (run (Stop :: late_events) (run capturing mount)))
     = frames_sent (log (run capturing mount)).
Proof.
  assert (Hq : no_queued_sends (run capturing mount)).
  { intros [|[|p]]; reflexivity. }
  assert (He : forallb (fun ev => negb (is_start ev)) late_events = true)
    by reflexivity.
  split; [exact Hq|]. split; [exact He|].
  exact (no_frame_after_stop (run capturing mount) late_events Hq He).
Defined.

(** X12.  A session that opens after [stop()] was called while it was
    still connecting is closed at once by the queued [close()], but its
    [onopen] has run by then: the state is set to [connected] and the
    microphone is requested, with the session handle left as it was. *)
Theorem session_opening_after_stop st p ks rnd :
  sessions (browser st) !! p = Some (mkSession (pending ks) rnd) ->
  In session_close ks ->
  let st' := step (SessionOpen p) st in
  connectionState (react st') = connected
  /\ In (E_getUserMedia p) (log st')
  /\ In (E_session_close p) (log st')
  /\ sessions (browser st') !! p = Some (mkSession fulfilled rnd)
  /\ sessionPromiseRef (refs st') = sessionPromiseRef (refs st).
Proof.
  intros Hp Hin. cbn [step]. rewrite Hp. unfold fulfil.
  assert (Eo : sessions (browser (onopen p st)) = sessions (browser st))
    by reflexivity.
  rewrite Eo, Hp.
  match goal with |- context [fold_left ?f ks ?s] =>
    destruct (fold_react_to p ks s) as (F1 & F2 & F3 & F4) end.
  rewrite F1, F2, F3, F4. simpl. split_and!.
  - reflexivity.
  - apply in_or_app. left. apply in_or_app. right. left. reflexivity.
  - apply in_or_app. right. apply in_map_iff. exists session_close. auto.
  - apply list_lookup_insert_eq. eapply lookup_lt_Some; eassumption.
  - reflexivity.
Qed.

Lemma session_opening_after_stop_witness :
  sessions (browser (run [Start start_ok; Stop] mount)) !! 0%nat
  = Some (mkSession (pending [session_close]) (react mount))
  /\ In session_close [session_close]
  /\ connectionState (react (step (SessionOpen 0) (run [Start start_ok; Stop] mount)))
     = connected.
Proof.
  assert (H : In session_close [session_close]) by (left; reflexivity).
  split; [reflexivity|]. split; [exact H|].
  destruct (session_opening_after_stop (run [Start start_ok; Stop] mount) 0
              [session_close] (react mount) eq_refl H) as (E & _).
  exact E.
Defined.

Lemma fragments_accumulate_in_order_witness :
  Forall (fun m => completes_turn m = false) untexted_fragment
  /\ user (currentInterim (react (handleMessages (react mount) untexted_fragment
                                    (run opened mount))))
     = "Helundefinedlo"%string.
Proof.
  assert (H : Forall (fun m => completes_turn m = false) untexted_fragment)
    by (repeat constructor).
  split; [exact H|].
  destruct (fragments_accumulate_in_order (react mount) untexted_fragment
              (run opened mount) H) as (E & _).
  rewrite E. reflexivity.
Defined.

(* ===================================================================== *)
(** * Video generation: how long it waits and when it resolves            *)
(* ===================================================================== *)

Lemma poll_exact remote k :
  forall j operation timers reply,
    done operation = false ->
    (forall i, (i < k)%nat -> still_running (getVideosOperation remote (j + i))) ->
    getVideosOperation remote (j + k) = reply ->
    ends_polling reply ->
    forall fuel, (k < fuel)%nat ->
      poll fuel remote j operation timers
      = Some (reply, timers ++ repeat poll_interval (S k)).
Proof.
  induction k as [|k IH]; intros j operation timers reply Hd Hrun Hk Hend fuel Hf.
  - rewrite Nat.add_0_r in Hk. destruct fuel as [|fuel]; [lia|].
    simpl. rewrite Hd, Hk. destruct reply as [op|e]; [|reflexivity].
    simpl in Hend. destruct fuel; simpl; rewrite Hend; reflexivity.
  - destruct fuel as [|fuel]; [lia|]. simpl. rewrite Hd.
    destruct (Hrun 0%nat ltac:(lia)) as (op' & E & Hd'). rewrite Nat.add_0_r in E.
    rewrite E.
    rewrite (IH (S j) op' (timers ++ [poll_interval]) reply Hd').
    + rewrite <- app_assoc. reflexivity.
    + intros i Hi. replace (S j + i)%nat with (j + S i)%nat by lia. apply Hrun. lia.
    + replace (S j + k)%nat with (j + S k)%nat by lia. exact Hk.
    + exact Hend.
    + lia.
Qed.

(** X13.  With a key set and an operation that is accepted but not done,
    let poll [k] be the first whose reply ends the loop (done, or
    rejected).  Then [generateVideo] is still running after [k] or fewer
    iterations, and settles once that reply is in, having set exactly
    [k + 1] timers of 10000 ms: it has waited 10 (k + 1) seconds. *)
Theorem generateVideo_waits_for_first_reply remote operation k :
  has_key remote ->
  generateVideos remote = resolved operation ->
  done operation = false ->
  (forall i, (i < k)%nat -> still_running (getVideosOperation remote i)) ->
  ends_polling (getVideosOperation remote k) ->
  (forall fuel, (fuel <= k)%nat -> generateVideo fuel remote = None)
  /\ (forall fuel, (k < fuel)%nat ->
        exists outcome,
          generateVideo fuel remote = Some (outcome, repeat poll_interval (S k)))
  /\ fold_right Z.add 0%Z (repeat poll_interval (S k)) = (10000 * Z.of_nat (S k))%Z.
Proof.
  intros (key & Hkey & Hne) Hg Hd Hrun Hend. split_and!.
  - intros fuel Hf. unfold generateVideo. rewrite Hkey, Hg.
    destruct key as [|a key]; [congruence|].
    rewrite (poll_keeps_running remote fuel 0 operation [] Hd); [reflexivity|].
    intros j Hj. apply Hrun. lia.
  - intros fuel Hf. unfold generateVideo. rewrite Hkey, Hg.
    destruct key as [|a key]; [congruence|].
    destruct (getVideosOperation remote k) as [op|e] eqn:Ek.
    + rewrite (poll_exact remote k 0 operation [] (resolved op) Hd Hrun Ek Hend
                 fuel Hf).
      simpl app. destruct (uri op) as [[|b link]|]; eauto.
      match goal with |- context [fetch remote ?u] =>
        destruct (fetch remote u) as [resp|e]; [|eauto] end.
      destruct (ok resp); eauto.
    + rewrite (poll_exact remote k 0 operation [] (rejected e) Hd Hrun Ek Hend
                 fuel Hf).
      eauto.
  - generalize (S k). intros n. induction n as [|n IH]; [reflexivity|].
    cbn [repeat fold_right]. rewrite IH. unfold poll_interval. lia.
Qed.

Lemma poll_resolves_done fuel remote :
  forall k operation timers op timers',
    poll fuel remote k operation timers = Some (resolved op, timers') ->
    done op = true.
Proof.
  induction fuel as [|fuel IH]; intros k operation timers op timers' H; simpl in H.
  - destruct (done operation) eqn:Ed; [|discriminate]. congruence.
  - destruct (done operation) eqn:Ed; [congruence|].
    destruct (getVideosOperation remote k) as [op'|e]; [|discriminate].
    eapply IH; eassumption.
Qed.

(** X14.  [generateVideo] resolves only when a key is set, an operation it
    has seen reported done with a non-empty download link, and fetching
    that link with the key appended gave an [ok] response; the value it
    resolves with is the object URL of that response. *)
Theorem generateVideo_resolves_only_with_download fuel remote url timers :
  generateVideo fuel remote = Some (resolved url, timers) ->
  exists key operation link response,
    API_KEY remote = Some key /\ key <> ""%string
    /\ done operation = true
    /\ uri operation = Some link /\ link <> ""%string
    /\ fetch remote (link +:+ "&key=" +:+ key) = resolved response
    /\ ok response = true
    /\ url = objectURL response.
Proof.
  unfold generateVideo. intros H.
  destruct (API_KEY remote) as [[|a key]|]; try discriminate.
  destruct (generateVideos remote) as [operation|]; [|discriminate].
  destruct (poll fuel remote 0 operation []) as [[[op|e] tm]|] eqn:Ep;
    try discriminate.
  destruct (uri op) as [[|b link]|] eqn:Eu; try discriminate.
  destruct (fetch remote _) as [resp|e] eqn:Ef; [|discriminate].
  destruct (ok resp) eqn:Eok; [|discriminate].
  exists (String a key), op, (String b link), resp.
  split_and!; try congruence; try discriminate.
  eapply poll_resolves_done; eassumption.
Qed.

Lemma generateVideo_waits_for_first_reply_witness :
  has_key VideoForm.remote_done_on_third_poll
  /\ ends_polling (getVideosOperation VideoForm.remote_done_on_third_poll 2)
  /\ generateVideo 2 VideoForm.remote_done_on_third_poll = None
  /\ exists outcome,
       generateVideo 3 VideoForm.remote_done_on_third_poll
       = Some (outcome, [10000; 10000; 10000]%Z).
Proof.
  assert (Hk : has_key VideoForm.remote_done_on_third_poll)
    by (exists "key"%string; split; [reflexivity|discriminate]).
  assert (Hr : forall i, (i < 2)%nat ->
                 still_running
                   (getVideosOperation VideoForm.remote_done_on_third_poll i)).
  { intros i Hi. exists (mkOperation false (Some "https://video"%string)).
    split; [|reflexivity]. destruct i as [|[|i]]; [reflexivity|reflexivity|lia]. }
  assert (He : ends_polling
                 (getVideosOperation VideoForm.remote_done_on_third_poll 2))
    by reflexivity.
  destruct (generateVideo_waits_for_first_reply
              VideoForm.remote_done_on_third_poll (mkOperation false None) 2
              Hk eq_refl eq_refl Hr He) as (H1 & H2 & _).
  split; [exact Hk|]. split; [exact He|].
  split; [apply H1; lia|]. apply H2. lia.
Defined.

Lemma generateVideo_resolves_only_with_download_witness :
  generateVideo 3 VideoForm.remote_done_on_third_poll
  = Some (resolved "blob:video"%string, [10000; 10000; 10000]%Z)
  /\ exists key operation link response,
       API_KEY VideoForm.remote_done_on_third_poll = Some key
       /\ key <> ""%string
       /\ done operation = true
       /\ uri operation = Some link /\ link <> ""%string
       /\ fetch VideoForm.remote_done_on_third_poll (link +:+ "&key=" +:+ key)
          = resolved response
       /\ ok response = true
       /\ "blob:video"%string = objectURL response.
Proof.
  assert (H : generateVideo 3 VideoForm.remote_done_on_third_poll
              = Some (resolved "blob:video"%string, [10000; 10000; 10000]%Z))
    by reflexivity.
  split; [exact H|].
  exact (generateVideo_resolves_only_with_download 3
           VideoForm.remote_done_on_third_poll _ _ H).
Defined.

(* ===================================================================== *)
(** * Strings                                                             *)
(* ===================================================================== *)

(** [includes] holds exactly of the strings that contain the search string
    somewhere. *)
Lemma prefix_app (s t : string) : String.prefix s (s +:+ t) = true.
Proof.
  induction s as [|c s IH]; [destruct t; reflexivity|].
  change (String.prefix (String c s) (String c (s +:+ t)) = true).
  simpl. destruct (ascii_dec c c); [exact IH|congruence].
Qed.

Lemma includes_prefix (search s : string) :
  String.prefix search s = true -> Text.includes search s = true.
Proof. intros H. destruct s; cbn [Text.includes]; rewrite H; reflexivity. Qed.

Lemma includes_app (search pre post : string) :
  Text.includes search (pre +:+ search +:+ post) = true.
Proof.
  induction pre as [|c pre IH].
  - change (Text.includes search (search +:+ post) = true).
    apply includes_prefix, prefix_app.
  - change (Text.includes search (String c (pre +:+ search +:+ post)) = true).
    cbn [Text.includes]. rewrite IH. apply orb_true_r.
Qed.

Lemma prefix_inv (s : string) :
  forall t, String.prefix s t = true -> exists r, t = s +:+ r.
Proof.
  induction s as [|c s IH]; intros t H.
  - exists t. reflexivity.
  - destruct t as [|d t]; [discriminate|]. simpl in H.
    destruct (ascii_dec c d) as [<-|]; [|discriminate].
    destruct (IH t H) as (r & ->). exists r. reflexivity.
Qed.

Lemma includes_inv (search s : string) :
  Text.includes search s = true -> exists pre post, s = pre +:+ search +:+ post.
Proof.
  induction s as [|c s IH]; cbn [Text.includes]; intros H.
  - rewrite orb_false_r in H. destruct (prefix_inv _ _ H) as (r & E).
    exists ""%string, r. exact E.
  - apply orb_true_iff in H as [H|H].
    + destruct (prefix_inv _ _ H) as (r & E). exists ""%string, r. exact E.
    + destruct (IH H) as (pre & post & ->). exists (String c pre), post.
      reflexivity.
Qed.

Lemma length_omap_le {A B} (g : A -> option B) (l : list A) :
  (length (omap g l) <= length l)%nat.
Proof.
  induction l as [|a l IH]; csimpl; [lia|]. destruct (g a); csimpl; lia.
Qed.

Lemma omap_full {A B} (g : A -> option B) (l : list A) :
  length (omap g l) = length l -> Forall (fun a => is_Some (g a)) l.
Proof.
  induction l as [|a l IH]; csimpl; intros H; [constructor|].
  pose proof (length_omap_le g l).
  destruct (g a) eqn:E; csimpl in H; [|lia].
  constructor; [rewrite E; eauto|]. apply IH. lia.
Qed.


(* ===================================================================== *)
(** * The API-key gate                                                    *)
(* ===================================================================== *)

Module KeyGateFacts.
Import Video KeyGate.

(** X18.  [handleApiError] never grants a key and never touches the loading
    flag; it revokes the key whenever the error message contains
    "Requested entity was not found." anywhere, and only then. *)
Theorem handleApiError_only_revokes message st :
  let st' := handleApiError message st in
  isLoading st' = isLoading st
  /\ (hasKey st' = true -> hasKey st = true)
  /\ (forall pre post,
        message = Some (pre +:+ not_found_phrase +:+ post) -> hasKey st' = false)
  /\ (hasKey st = true -> hasKey st' = false ->
        exists m pre post,
          message = Some m /\ m = pre +:+ not_found_phrase +:+ post).
Proof.
  unfold handleApiError. split_and!.
  - destruct message as [m|]; [|reflexivity].
    destruct (Text.includes not_found_phrase m); reflexivity.
  - destruct message as [m|]; [|auto].
    destruct (Text.includes not_found_phrase m); simpl; [discriminate|auto].
  - intros pre post ->. rewrite includes_app. reflexivity.
  - intros Hk. destruct message as [m|]; [|congruence].
    destruct (Text.includes not_found_phrase m) eqn:E; [|congruence].
    intros _. destruct (includes_inv _ _ E) as (pre & post & Em). eauto.
Qed.

End KeyGateFacts.

(* ===================================================================== *)
(** * The video form                                                      *)
(* ===================================================================== *)

Module VideoFormFacts.
Import Video KeyGate VideoForm.

Lemma has_input_passes f :
  has_input f ->
  (Text.falsy (Text.trim (prompt f))
   && match file f with None => true | Some _ => false end) = false.
Proof.
  intros [H|(fl & ->)].
  - destruct (Text.trim (prompt f)); [congruence|reflexivity].
  - apply andb_false_r.
Qed.

(** X15.  Whenever the submit handler of the video form settles, either the
    form was empty (blank prompt, no file) and only the error "Please enter
    a prompt or upload an image." was set, or the spinner is cleared, the
    loading-message interval it started is cleared again, and exactly one
    of a video URL and an error message is set; on an error the message has
    also been handed to [handleApiError]. *)
Theorem submit_settles_cleanly fuel remote f f' :
  handleSubmit fuel remote f = Some f' ->
  (f' = set_error (Some "Please enter a prompt or upload an image.") f
   /\ Text.trim (prompt f) = ""%string /\ file f = None)
  \/ (form_isLoading f' = false
      /\ messageIntervals f' = messageIntervals f
      /\ ((exists url,
              videoUrl f' = Some url /\ error f' = None /\ key f' = key f)
          \/ (exists reason,
                videoUrl f' = None /\ error f' = Some reason
                /\ key f' = handleApiError (Some reason) (key f)))).
Proof.
  unfold handleSubmit. simpl.
  destruct (Text.falsy (Text.trim (prompt f))) eqn:Et;
    destruct (file f) as [fl|] eqn:Ef; simpl.
  - destruct (fileToBase64 fl) as [b|reason].
    + destruct (generateVideo fuel remote) as [[[url|reason] tm]|];
        intros H; try discriminate; injection H as <-; right; simpl; eauto 10.
    + intros H. injection H as <-. right. simpl. eauto 10.
  - intros H. injection H as <-. left. split_and!; [reflexivity| |reflexivity].
    destruct (Text.trim (prompt f)); [reflexivity|discriminate].
  - destruct (fileToBase64 fl) as [b|reason].
    + destruct (generateVideo fuel remote) as [[[url|reason] tm]|];
        intros H; try discriminate; injection H as <-; right; simpl; eauto 10.
    + intros H. injection H as <-. right. simpl. eauto 10.
  - destruct (generateVideo fuel remote) as [[[url|reason] tm]|];
      intros H; try discriminate; injection H as <-; right; simpl; eauto 10.
Qed.

(** X16.  When [generateVideo] rejects with a message containing
    "Requested entity was not found.", the submit handler revokes the key:
    the component then renders the key prompt instead of the form, with the
    message stored as the error and the spinner cleared. *)
Theorem not_found_error_brings_back_key_prompt fuel remote f timers pre post :
  has_input f ->
  upload_succeeds f ->
  isLoading (key f) = false ->
  generateVideo fuel remote
    = Some (rejected (pre +:+ not_found_phrase +:+ post), timers) ->
  exists f',
    handleSubmit fuel remote f = Some f'
    /\ screen f' = key_prompt
    /\ error f' = Some (pre +:+ not_found_phrase +:+ post)
    /\ form_isLoading f' = false.
Proof.
  intros Hin Hup Hl Hg. unfold handleSubmit.
  rewrite (has_input_passes f Hin). simpl.
  assert (Hu : match file f with
               | Some fl => fileToBase64 fl
               | None => resolved ""%string
               end = resolved ""%string \/ exists b, match file f with
               | Some fl => fileToBase64 fl
               | None => resolved ""%string
               end = resolved b).
  { unfold upload_succeeds in Hup. destruct (file f); [right; exact Hup|left; reflexivity]. }
  assert (Hu' : exists b, match file f with
               | Some fl => fileToBase64 fl
               | None => resolved ""%string
               end = resolved b) by (destruct Hu as [Hu|Hu]; eauto).
  destruct Hu' as (b & ->). rewrite Hg.
  eexists. split; [reflexivity|]. unfold screen, submit_finally, submit_catch. simpl.
  rewrite includes_app. simpl. rewrite Hl. split_and!; reflexivity.
Qed.

(** X17.  With a key set and an operation that is accepted but never
    reported done (and no poll ever failing), a submit of a non-empty form
    never settles: [isLoading] stays set however long one waits. *)
Theorem spinner_never_clears remote operation f :
  has_input f ->
  upload_succeeds f ->
  has_key remote ->
  generateVideos remote = resolved operation ->
  done operation = false ->
  (forall k, still_running (getVideosOperation remote k)) ->
  forall fuel, handleSubmit fuel remote f = None.
Proof.
  intros Hin Hup Hk Hg Hd Hrun fuel. unfold handleSubmit.
  rewrite (has_input_passes f Hin). simpl.
  assert (Hu' : exists b, match file f with
               | Some fl => fileToBase64 fl
               | None => resolved ""%string
               end = resolved b).
  { unfold upload_succeeds in Hup. destruct (file f); [exact Hup|eauto]. }
  destruct Hu' as (b & ->).
  destruct Hk as (k & Hk & Hne). unfold generateVideo. rewrite Hk, Hg.
  destruct k as [|a k]; [congruence|].
  rewrite (poll_keeps_running remote fuel 0 operation [] Hd (fun j _ => Hrun j)).
  reflexivity.
Qed.

Lemma submit_settles_cleanly_witness :
  handleSubmit 3 remote_done_on_third_poll cat_form
  = Some (mkForm "a cat" None (Some "blob:video") false None
            (mkKeyState true false) 0)
  /\ form_isLoading
       (mkForm "a cat" None (Some "blob:video") false None
          (mkKeyState true false) 0) = false.
Proof.
  assert (H : handleSubmit 3 remote_done_on_third_poll cat_form
              = Some (mkForm "a cat" None (Some "blob:video") false None
                        (mkKeyState true false) 0)) by reflexivity.
  split; [exact H|].
  destruct (submit_settles_cleanly 3 remote_done_on_third_poll cat_form _ H)
    as [(_ & E & _)|(E & _)]; [discriminate E|exact E].
Defined.

Lemma not_found_error_brings_back_key_prompt_witness :
  has_input cat_form
  /\ upload_succeeds cat_form
  /\ generateVideo 1 remote_key_unknown
     = Some (rejected ("" +:+ not_found_phrase +:+ ""), [])
  /\ exists f',
       handleSubmit 1 remote_key_unknown cat_form = Some f'
       /\ screen f' = key_prompt
       /\ error f' = Some ("" +:+ not_found_phrase +:+ "")
       /\ form_isLoading f' = false.
Proof.
  assert (H1 : has_input cat_form) by (left; discriminate).
  assert (H2 : upload_succeeds cat_form) by exact I.
  assert (H3 : generateVideo 1 remote_key_unknown
               = Some (rejected ("" +:+ not_found_phrase +:+ ""), []))
    by reflexivity.
  split; [exact H1|]. split; [exact H2|]. split; [exact H3|].
  exact (not_found_error_brings_back_key_prompt 1 remote_key_unknown cat_form
           [] "" "" H1 H2 eq_refl H3).
Defined.

Lemma spinner_never_clears_witness :
  has_input cat_form
  /\ has_key remote_never_done
  /\ handleSubmit 1000 remote_never_done cat_form = None.
Proof.
  assert (H1 : has_input cat_form) by (left; discriminate).
  assert (Hk : has_key remote_never_done)
    by (exists "key"%string; split; [reflexivity|discriminate]).
  split; [exact H1|]. split; [exact Hk|].
  apply (spinner_never_clears remote_never_done (mkOperation false None)
           cat_form H1 I Hk eq_refl eq_refl).
  intros k. exists (mkOperation false None). split; reflexivity.
Defined.

End VideoFormFacts.

(* ===================================================================== *)
(** * The service module                                                  *)
(* ===================================================================== *)

Module ServiceFacts.
Import Video Service.

Lemma getGenAI_key_set API_KEY :
  key_set API_KEY -> exists key, getGenAI API_KEY = resolved key.
Proof.
  intros (key & -> & Hne). destruct key; [congruence|]. simpl. eauto.
Qed.

(** X19.  With a key set, [generateHeadshots] never rejects, whatever the
    four requests do: it sends four requests and resolves with the data
    URLs of those that came back with an image, in prompt order, dropping
    the ones that failed or carried no image; so it returns at most four
    images, four exactly when every request returned one, and each is a
    [data:] URL. *)
Theorem generateHeadshots_never_rejects API_KEY generateContent
    imageBase64 mimeType profession photoshootType details :
  key_set API_KEY ->
  let requests :=
    map (persona_request (mkInline mimeType imageBase64))
      (personaPrompts (basePrompt profession photoshootType details)) in
  exists images,
    generateHeadshots API_KEY generateContent imageBase64 mimeType profession
      photoshootType details = resolved images
    /\ images = omap (persona_result generateContent) requests
    /\ length requests = 4%nat
    /\ (length images <= 4)%nat
    /\ (length images = 4%nat ->
        Forall (fun r => exists d, generateContent r = resolved (Some d)) requests)
    /\ Forall (fun url => String.prefix "data:" url = true) images.
Proof.
  intros Hk requests. destruct (getGenAI_key_set _ Hk) as (key & Eg).
  unfold generateHeadshots. rewrite Eg.
  exists (omap (persona_result generateContent) requests). split_and!.
  - reflexivity.
  - reflexivity.
  - reflexivity.
  - change 4%nat with (length requests). apply length_omap_le.
  - intros H. change 4%nat with (length requests) in H.
    apply omap_full in H. eapply Forall_impl; [exact H|]. simpl.
    intros r [u Hu]. unfold persona_result in Hu.
    destruct (generateContent r) as [[d|]|]; try discriminate. eauto.
  - generalize requests. intros l. induction l as [|r l IH]; simpl; [constructor|].
    unfold persona_result at 1.
    destruct (generateContent r) as [[d|]|]; simpl; auto.
    constructor; [|exact IH]. apply prefix_app.
Qed.

Theorem generateHeadshots_without_key generateContent
    imageBase64 mimeType profession photoshootType details API_KEY :
  ~ key_set API_KEY ->
  generateHeadshots API_KEY generateContent imageBase64 mimeType profession
    photoshootType details = rejected "API_KEY environment variable not set".
Proof.
  intros H. unfold generateHeadshots, getGenAI.
  destruct API_KEY as [[|a k]|]; try reflexivity.
  exfalso. apply H. exists (String a k). split; [reflexivity|discriminate].
Qed.

Lemma getChat_times_cached n API_KEY chat created :
  getChat_times n API_KEY (mkChatModule (Some chat) created)
  = (repeat (resolved chat) n, mkChatModule (Some chat) created).
Proof.
  induction n as [|n IH]; [reflexivity|].
  simpl. rewrite IH. reflexivity.
Qed.

(** X20.  With a key set, any number of [getChat] calls return one and the
    same chat, and [ai.chats.create] runs once if no chat existed before
    the first call and not at all otherwise. *)
Theorem getChat_creates_one_chat n API_KEY m :
  key_set API_KEY ->
  (0 < n)%nat ->
  exists chat,
    fst (getChat_times n API_KEY m) = repeat (resolved chat) n
    /\ chatInstance (snd (getChat_times n API_KEY m)) = Some chat
    /\ chats_created (snd (getChat_times n API_KEY m))
       = (chats_created m + match chatInstance m with Some _ => 0 | None => 1 end)%nat.
Proof.
  intros Hk Hn. destruct n as [|n]; [lia|].
  destruct (getGenAI_key_set _ Hk) as (key & Eg).
  destruct m as [[chat|] created].
  - exists chat. rewrite getChat_times_cached. simpl. split_and!; auto.
  - exists created. cbn [getChat_times]. unfold getChat. simpl chatInstance.
    cbv iota. rewrite Eg. simpl chats_created.
    rewrite getChat_times_cached. simpl. split_and!; auto. lia.
Qed.

Theorem getChat_without_key n API_KEY created :
  ~ key_set API_KEY ->
  getChat_times n API_KEY (mkChatModule None created)
  = (repeat (rejected "API_KEY environment variable not set") n,
     mkChatModule None created).
Proof.
  intros H.
  assert (Eg : getGenAI API_KEY = rejected "API_KEY environment variable not set").
  { unfold getGenAI. destruct API_KEY as [[|a k]|]; try reflexivity.
    exfalso. apply H. exists (String a k). split; [reflexivity|discriminate]. }
  induction n as [|n IH]; [reflexivity|].
  cbn [getChat_times]. unfold getChat. simpl chatInstance. cbv iota.
  rewrite Eg, IH. reflexivity.
Qed.

Lemma generateHeadshots_never_rejects_witness :
  key_set (Some "key"%string)
  /\ exists images,
       generateHeadshots (Some "key"%string) (fun _ => rejected "quota"%string)
         "QUJD" "image/png" "chef" "Corporate" "" = resolved images
       /\ (length images <= 4)%nat.
Proof.
  assert (Hk : key_set (Some "key"%string))
    by (exists "key"%string; split; [reflexivity|discriminate]).
  split; [exact Hk|].
  destruct (generateHeadshots_never_rejects (Some "key"%string)
              (fun _ => rejected "quota"%string)
              "QUJD" "image/png" "chef" "Corporate" "" Hk)
    as (images & E & _ & _ & L & _).
  exists images. split; assumption.
Defined.

Lemma getChat_creates_one_chat_witness :
  key_set (Some "key"%string)
  /\ (0 < 3)%nat
  /\ exists chat,
       fst (getChat_times 3 (Some "key"%string) (mkChatModule None 0))
       = repeat (resolved chat) 3
       /\ chats_created
            (snd (getChat_times 3 (Some "key"%string) (mkChatModule None 0)))
          = 1%nat.
Proof.
  assert (Hk : key_set (Some "key"%string))
    by (exists "key"%string; split; [reflexivity|discriminate]).
  assert (Hn : (0 < 3)%nat) by lia.
  split; [exact Hk|]. split; [exact Hn|].
  destruct (getChat_creates_one_chat 3 (Some "key"%string) (mkChatModule None 0)
              Hk Hn) as (chat & E1 & _ & E3).
  exists chat. split; [exact E1|exact E3].
Defined.

End ServiceFacts.

(* ===================================================================== *)
(** * The headshot form                                                   *)
(* ===================================================================== *)

Module HeadshotFormFacts.
Import Video Service HeadshotForm.

Lemma generateHeadshots_at_most_four API_KEY generateContent
    imageBase64 mimeType profession photoshootType details images :
  generateHeadshots API_KEY generateContent imageBase64 mimeType profession
    photoshootType details = resolved images ->
  (length images <= 4)%nat.
Proof.
  unfold generateHeadshots. destruct (getGenAI API_KEY); [|discriminate].
  intros H. injection H as <-.
  repeat match goal with
  | |- context [persona_result ?g ?r] => destruct (persona_result g r)
  end; simpl; lia.
Qed.

(** X21.  A submit of the headshot form with a readable file and a
    non-blank profession always ends with the spinner cleared and at most
    four images shown, and with an error message exactly when no image is
    shown: the images are those [generateHeadshots] resolved with, an empty
    result gives "Sorry, we couldn't generate any images. ...", and a
    rejection gives its reason. *)
Theorem headshot_submit_reports fl API_KEY generateContent f base64 :
  file f = Some fl ->
  Text.trim (profession f) <> ""%string ->
  fileToBase64 fl = resolved base64 ->
  let f' := handleSubmit API_KEY generateContent f in
  isLoading f' = false
  /\ (length (generatedImages f') <= 4)%nat
  /\ (error f' = None <-> generatedImages f' <> [])
  /\ (forall images,
        generateHeadshots API_KEY generateContent base64 (file_type fl)
          (profession f) (photoshootType f) (details f) = resolved images ->
        generatedImages f' = images
        /\ (images = [] -> error f' = Some no_images_message))
  /\ (forall reason,
        generateHeadshots API_KEY generateContent base64 (file_type fl)
          (profession f) (photoshootType f) (details f) = rejected reason ->
        generatedImages f' = [] /\ error f' = Some reason).
Proof.
  intros Hf Hp Hb. unfold handleSubmit. rewrite Hf.
  destruct (Text.trim (profession f)) eqn:Et; [congruence|]. simpl.
  rewrite Hb.
  destruct (generateHeadshots API_KEY generateContent base64 (file_type fl)
              (profession f) (photoshootType f) (details f))
    as [images|reason] eqn:Eg.
  - pose proof (generateHeadshots_at_most_four _ _ _ _ _ _ _ _ Eg) as Hlen.
    destruct images as [|u images]; simpl.
    + split_and!; try reflexivity; try lia.
      * split; [discriminate|congruence].
      * intros images H. injection H as <-. auto.
      * discriminate.
    + split_and!; try reflexivity; try assumption.
      * split; [discriminate|reflexivity].
      * intros images' H. injection H as <-. split; [reflexivity|discriminate].
      * discriminate.
  - simpl. split_and!; try reflexivity; try lia.
    + split; [discriminate|congruence].
    + discriminate.
    + intros r H. injection H as <-. auto.
Qed.

Lemma headshot_submit_reports_witness :
  file portrait_form = Some (mkFile "image/png" (resolved "QUJD"))
  /\ Text.trim (profession portrait_form) <> ""%string
  /\ isLoading (handleSubmit (Some "key"%string)
                  (fun _ => rejected "quota"%string) portrait_form) = false
  /\ error (handleSubmit (Some "key"%string)
              (fun _ => rejected "quota"%string) portrait_form)
     = Some no_images_message.
Proof.
  assert (H1 : file portrait_form = Some (mkFile "image/png" (resolved "QUJD")))
    by reflexivity.
  assert (H2 : Text.trim (profession portrait_form) <> ""%string) by discriminate.
  split; [exact H1|]. split; [exact H2|].
  destruct (headshot_submit_reports (mkFile "image/png" (resolved "QUJD"))
              (Some "key"%string) (fun _ => rejected "quota"%string)
              portrait_form "QUJD" H1 H2 eq_refl) as (E1 & _ & _ & E4 & _).
  split; [exact E1|]. apply (E4 [] eq_refl). reflexivity.
Defined.

End HeadshotFormFacts.

(* ===================================================================== *)
(** * The chat screen                                                     *)
(* ===================================================================== *)

Module ChatFormFacts.
Import Video Service ChatForm.

Lemma alternates_app l1 : forall e l2,
  alternates e l1 = true ->
  alternates (if Nat.even (length l1) then e else other e) l2 = true ->
  alternates e (l1 ++ l2) = true.
Proof.
  induction l1 as [|m l1 IH]; intros e l2 H1 H2; [exact H2|].
  simpl in *. destruct e, (sender m); try discriminate.
  - apply IH; [exact H1|]. destruct l1 as [|m' l1]; [exact H2|].
    simpl length in *. rewrite Nat.even_succ, <- Nat.negb_even in *.
    destruct (Nat.even (length l1)); exact H2.
  - apply IH; [exact H1|]. destruct l1 as [|m' l1]; [exact H2|].
    simpl length in *. rewrite Nat.even_succ, <- Nat.negb_even in *.
    destruct (Nat.even (length l1)); exact H2.
Qed.

Lemma say_step API_KEY turn s :
  isLoading s = false ->
  let s' := say API_KEY turn s in
  isLoading s' = false
  /\ exists answer,
       messages s'
       = messages s
           ++ (if accepted turn
               then [mkChatMessage sender_user (fst turn);
                     mkChatMessage sender_model answer]
               else []).
Proof.
  intros Hl. unfold say, handleSubmit, accepted. simpl. rewrite Hl.
  destruct (Text.falsy (Text.trim (fst turn))); simpl.
  - split; [reflexivity|]. exists ""%string. rewrite app_nil_r. reflexivity.
  - destruct (getChat API_KEY (chat_module s)) as [chat m]. simpl.
    split; [reflexivity|]. eexists. rewrite <- app_assoc. reflexivity.
Qed.

Lemma converse_alternates API_KEY turns s :
  isLoading s = false ->
  alternates sender_model (messages s) = true ->
  Nat.odd (length (messages s)) = true ->
  let s' := converse API_KEY turns s in
  isLoading s' = false
  /\ alternates sender_model (messages s') = true
  /\ length (messages s')
     = (length (messages s) + 2 * length (List.filter accepted turns))%nat
  /\ exists added, messages s' = messages s ++ added.
Proof.
  revert s. induction turns as [|t turns IH]; intros s Hl Ha Ho.
  - simpl. split_and!; auto. exists []. rewrite app_nil_r. reflexivity.
  - destruct (say_step API_KEY t s Hl) as (Hl1 & answer & Hm).
    assert (He : Nat.even (length (messages s)) = false)
      by (rewrite <- Nat.negb_odd, Ho; reflexivity).
    assert (Ha1 : alternates sender_model (messages (say API_KEY t s)) = true).
    { rewrite Hm. apply alternates_app; [exact Ha|]. rewrite He.
      destruct (accepted t); reflexivity. }
    assert (Ho1 : Nat.odd (length (messages (say API_KEY t s))) = true).
    { rewrite Hm, length_app. destruct (accepted t); simpl.
      - replace (length (messages s) + 2)%nat with (S (S (length (messages s)))) by lia.
        exact Ho.
      - rewrite Nat.add_0_r. exact Ho. }
    destruct (IH (say API_KEY t s) Hl1 Ha1 Ho1) as (I1 & I2 & I3 & added & I4).
    change (converse API_KEY (t :: turns) s)
      with (converse API_KEY turns (say API_KEY t s)).
    cbv zeta. split_and!; [exact I1|exact I2| |].
    + rewrite I3, Hm, length_app. simpl List.filter.
      destruct (accepted t); simpl; lia.
    + rewrite I4, Hm, <- app_assoc. eauto.
Qed.

(** X22.  In the chat screen as mounted, after any sequence of submits
    (with any replies, failures included, key or no key) the log still
    starts with the greeting and alternates model, user, model, ... after
    it; it has grown by exactly two messages, the user's and an answer,
    per non-blank input and not at all for a blank one; and nothing is
    left loading. *)
Theorem chat_log_alternates API_KEY turns m :
  let s' := converse API_KEY turns (mounted m) in
  isLoading s' = false
  /\ (exists added, messages s' = greeting :: added)
  /\ alternates sender_model (messages s') = true
  /\ length (messages s')
     = (1 + 2 * length (List.filter accepted turns))%nat.
Proof.
  destruct (converse_alternates API_KEY turns (mounted m) eq_refl eq_refl eq_refl)
    as (H1 & H2 & H3 & added & H4).
  cbv zeta. split_and!; [exact H1| |exact H2|exact H3].
  exists added. exact H4.
Qed.

End ChatFormFacts.

(* ===================================================================== *)
(** * The library of saved items                                          *)
(* ===================================================================== *)

Module SavedFacts.
Import Saved.

Lemma deleteItem_absent i items :
  ~ In i (ids items) -> deleteItem i items = items.
Proof.
  unfold deleteItem, ids. induction items as [|x items IH]; simpl; intros H.
  - reflexivity.
  - destruct (String.eqb_spec (id x) i) as [E|E]; simpl.
    + exfalso. apply H. left. exact E.
    + f_equal. apply IH. intros Hin. apply H. right. exact Hin.
Qed.

Lemma deleteItem_NoDup i items :
  List.NoDup (ids items) -> List.NoDup (ids (deleteItem i items)).
Proof.
  unfold deleteItem, ids. induction items as [|x items IH]; simpl; intros Hnd.
  - constructor.
  - inversion Hnd as [|? ? Hx Hnd']; subst.
    destruct (negb (id x =? i)%string); simpl; [|exact (IH Hnd')].
    constructor; [|exact (IH Hnd')].
    intros Hin. apply Hx. apply in_map_iff in Hin as (y & Ey & Hy).
    apply List.filter_In in Hy as [Hy _]. apply in_map_iff. eauto.
Qed.

(** X23.  Saving an item under an id no saved item has yet and then
    deleting that id gives back the list as it was. *)
Theorem save_then_delete_restores uuid now item items :
  ~ In uuid (ids items) ->
  deleteItem uuid (saveItem uuid now item items) = items.
Proof.
  intros H. unfold saveItem. unfold deleteItem at 1. simpl.
  rewrite String.eqb_refl. simpl. apply deleteItem_absent. exact H.
Qed.

(** X24.  [deleteItem] removes every item with the given id and nothing
    else: what is left are exactly the other items, none of them has that
    id, deleting again changes nothing, the list does not grow, and ids
    that were distinct stay distinct. *)
Theorem deleteItem_removes_exactly i items :
  (forall x, In x (deleteItem i items) <-> In x items /\ id x <> i)
  /\ ~ In i (ids (deleteItem i items))
  /\ deleteItem i (deleteItem i items) = deleteItem i items
  /\ (length (deleteItem i items) <= length items)%nat
  /\ (List.NoDup (ids items) -> List.NoDup (ids (deleteItem i items))).
Proof.
  assert (Hspec : forall x, In x (deleteItem i items) <-> In x items /\ id x <> i).
  { intros x. unfold deleteItem. rewrite List.filter_In.
    destruct (String.eqb_spec (id x) i); simpl; intuition congruence. }
  assert (Habs : ~ In i (ids (deleteItem i items))).
  { unfold ids. rewrite in_map_iff. intros (x & Hx & Hin).
    apply Hspec in Hin. tauto. }
  split_and!.
  - exact Hspec.
  - exact Habs.
  - apply deleteItem_absent. exact Habs.
  - unfold deleteItem. apply List.filter_length_le.
  - apply deleteItem_NoDup.
Qed.

Lemma save_then_delete_restores_witness :
  ~ In "b"%string (ids [mkSavedItem "a" item_text "caption" "prompt" "2025"])
  /\ deleteItem "b"
       (saveItem "b" "2026" (mkNewItem item_video "blob:video" "a cat")
          [mkSavedItem "a" item_text "caption" "prompt" "2025"])
     = [mkSavedItem "a" item_text "caption" "prompt" "2025"].
Proof.
  assert (H : ~ In "b"%string
                (ids [mkSavedItem "a" item_text "caption" "prompt" "2025"])).
  { simpl. intros [E|[]]. discriminate E. }
  split; [exact H|].
  exact (save_then_delete_restores "b" "2026"
           (mkNewItem item_video "blob:video" "a cat") _ H).
Defined.

End SavedFacts.

(* ===================================================================== *)
(** * Lines of text, the prompt form, the key gate over calls, the        *)
(** * analyzer form and the trim sliders                                  *)
(* ===================================================================== *)

Lemma split_nonempty sep s : Text.split sep s <> [].
Proof.
  destruct s as [|c s]; simpl; [discriminate|].
  destruct (Ascii.eqb c sep); [discriminate|].
  destruct (Text.split sep s); discriminate.
Qed.

Lemma join_cons sep piece pieces :
  pieces <> [] ->
  Text.join sep (piece :: pieces) = piece +:+ String sep (Text.join sep pieces).
Proof. destruct pieces; [congruence|reflexivity]. Qed.

Lemma join_split sep s : Text.join sep (Text.split sep s) = s.
Proof.
  induction s as [|c s IH]; [reflexivity|].
  cbn [Text.split]. destruct (Ascii.eqb c sep) eqn:E.
  - apply Ascii.eqb_eq in E. subst c.
    rewrite join_cons by apply split_nonempty. rewrite IH. reflexivity.
  - pose proof (split_nonempty sep s) as Hne.
    destruct (Text.split sep s) as [|piece pieces]; [congruence|].
    destruct pieces as [|piece' pieces].
    + simpl in IH. simpl. congruence.
    + rewrite join_cons in IH by discriminate.
      rewrite join_cons by discriminate.
      change (String c (piece +:+ String sep (Text.join sep (piece' :: pieces)))
              = String c s).
      congruence.
Qed.

Lemma split_no_sep sep s :
  Forall (fun piece => ~ In sep (list_ascii_of_string piece)) (Text.split sep s).
Proof.
  induction s as [|c s IH]; cbn [Text.split].
  - constructor; [simpl; tauto|constructor].
  - destruct (Ascii.eqb c sep) eqn:E.
    + constructor; [simpl; tauto|exact IH].
    + apply Ascii.eqb_neq in E.
      destruct (Text.split sep s) as [|piece pieces].
      * constructor; [|constructor]. simpl. intros [H|[]]. congruence.
      * inversion IH as [|? ? H1 H2]; subst. constructor; [|exact H2].
        simpl. intros [H|H]; [congruence|tauto].
Qed.

Lemma filter_sublist_of {A} (p : A -> bool) (l : list A) :
  sublist (List.filter p l) l.
Proof.
  induction l as [|x l IH]; simpl; [constructor|].
  destruct (p x); [apply sublist_skip|apply sublist_cons]; exact IH.
Qed.

Module PromptFormFacts.
Import Video Service PromptForm.

Lemma not_blank_trim p : not_blank p = true <-> Text.trim p <> ""%string.
Proof.
  unfold not_blank. rewrite negb_true_iff. split.
  - intros H E. rewrite E in H. discriminate.
  - intros H. apply String.eqb_neq. exact H.
Qed.

(** X25.  For a non-blank idea, a key set and a reply that carries text,
    the prompts shown are the non-blank lines of the reply in their order:
    the reply is its lines joined by line feeds, the prompts are a
    subsequence of the lines, every line that is not blank is among them,
    no prompt is blank or contains a line feed; nothing is left loading
    and no error is set.  The handler does not check that there are five. *)
Theorem prompts_are_the_nonblank_lines API_KEY generateContent f response chunks :
  Text.trim (idea f) <> ""%string ->
  key_set API_KEY ->
  generateContent
    (mkContentRequest "gemini-flash-lite-latest" None (aiPrompt f) false)
  = resolved (mkContentResponse (Some response) chunks) ->
  let f' := handleSubmit API_KEY generateContent f in
  let lines := Text.split Text.newline response in
  Text.join Text.newline lines = response
  /\ sublist (generatedPrompts f') lines
  /\ (forall l, In l lines -> Text.trim l <> ""%string ->
                In l (generatedPrompts f'))
  /\ Forall (fun p => Text.trim p <> ""%string /\ ~ In Text.newline (chars p))
       (generatedPrompts f')
  /\ isLoading f' = false
  /\ error f' = None.
Proof.
  intros Hidea (key & -> & Hkey) Hreply f' lines.
  assert (E : generatedPrompts f' = List.filter not_blank lines
              /\ isLoading f' = false /\ error f' = None).
  { subst f'. unfold handleSubmit, getFastResponse, getGenAI.
    destruct (Text.trim (idea f)) eqn:Et; [congruence|]. cbn [Text.falsy].
    destruct key; [congruence|]. rewrite Hreply. simpl. auto. }
  destruct E as (E1 & E2 & E3). rewrite E1. split_and!.
  - apply join_split.
  - apply filter_sublist_of.
  - intros l Hin Hl. apply filter_In. split; [exact Hin|].
    apply not_blank_trim. exact Hl.
  - apply List.Forall_forall. intros p Hp. apply filter_In in Hp.
    destruct Hp as (Hin & Hnb). split; [apply not_blank_trim; exact Hnb|].
    pose proof (split_no_sep Text.newline response) as Hs.
    rewrite List.Forall_forall in Hs. apply Hs. exact Hin.
  - exact E2.
  - exact E3.
Qed.

Lemma prompts_are_the_nonblank_lines_witness :
  Text.trim (idea sunset_form) <> ""%string
  /\ key_set (Some "key"%string)
  /\ generatedPrompts (handleSubmit (Some "key"%string) three_lines sunset_form)
     = ["one"%string; "two"%string]
  /\ sublist
       (generatedPrompts (handleSubmit (Some "key"%string) three_lines sunset_form))
       (Text.split Text.newline ("one" +:+ nl +:+ "  " +:+ nl +:+ "two")).
Proof.
  assert (H1 : Text.trim (idea sunset_form) <> ""%string) by discriminate.
  assert (H2 : key_set (Some "key"%string))
    by (exists "key"%string; split; [reflexivity|discriminate]).
  split; [exact H1|]. split; [exact H2|]. split; [reflexivity|].
  destruct (prompts_are_the_nonblank_lines (Some "key"%string) three_lines
              sunset_form ("one" +:+ nl +:+ "  " +:+ nl +:+ "two") None
              H1 H2 eq_refl) as (_ & H & _).
  exact H.
Defined.

End PromptFormFacts.

Module KeyGateCallFacts.
Import Video KeyGate.

Lemma calls_cons env c cs st : calls env (c :: cs) st = calls env cs (call env c st).
Proof. reflexivity. Qed.




Lemma no_host_call env c st :
  aistudio env = None ->
  (hasKey (call env c st) = true ->
     hasKey st = true \/ key_present (env_API_KEY env) = true)
  /\ (isLoading st = false -> isLoading (call env c st) = false)
  /\ (c = call_checkKey -> isLoading (call env c st) = false).
Proof.
  intros He. destruct c as [| |message]; simpl.
  - unfold checkKey. rewrite He. simpl. split_and!; auto.
  - unfold selectKey. rewrite He. split_and!; auto. discriminate.
  - unfold handleApiError. split_and!; try discriminate.
    + destruct message as [m|]; [|auto].
      destruct (Text.includes not_found_phrase m); simpl; auto. discriminate.
    + destruct message as [m|]; [|auto].
      destruct (Text.includes not_found_phrase m); simpl; auto.
Qed.

Lemma no_host_calls env cs :
  aistudio env = None ->
  forall st,
    (hasKey (calls env cs st) = true ->
       hasKey st = true \/ key_present (env_API_KEY env) = true)
    /\ (isLoading st = false \/ In call_checkKey cs ->
        isLoading (calls env cs st) = false).
Proof.
  intros He. induction cs as [|c cs IH]; intros st.
  - simpl. split; [auto|]. intros [H|[]]. exact H.
  - rewrite calls_cons. destruct (IH (call env c st)) as (IH1 & IH2).
    destruct (no_host_call env c st He) as (H1 & H2 & H3). split.
    + intros H. destruct (IH1 H) as [H'|H']; [|auto]. apply H1. exact H'.
    + intros [H|[H|H]].
      * apply IH2. left. apply H2. exact H.
      * apply IH2. left. apply H3. exact H.
      * apply IH2. right. exact H.
Qed.

(** X27.  Without [window.aistudio] the hook reports a key only if
    [process.env.API_KEY] is set, whatever is called and however often;
    [isLoading] is cleared once [checkKey] has run; and when the variable
    is not set the video generator stays on the key prompt, whose button
    ([selectKey]) cannot grant a key. *)
Theorem no_host_no_selected_key env cs :
  aistudio env = None ->
  let st' := calls env cs initial in
  (hasKey st' = true -> key_present (env_API_KEY env) = true)
  /\ (In call_checkKey cs -> isLoading st' = false)
  /\ (key_present (env_API_KEY env) = false ->
      In call_checkKey cs ->
      forall f, VideoForm.key f = st' -> VideoForm.screen f = VideoForm.key_prompt).
Proof.
  intros He st'. destruct (no_host_calls env cs He initial) as (H1 & H2).
  fold st' in H1, H2.
  assert (Hk : hasKey st' = true -> key_present (env_API_KEY env) = true).
  { intros H. destruct (H1 H) as [H'|H']; [discriminate H'|exact H']. }
  split_and!.
  - exact Hk.
  - intros H. apply H2. right. exact H.
  - intros Hno Hin f Hf. unfold VideoForm.screen. rewrite Hf.
    rewrite (H2 (or_intror Hin)).
    destruct (hasKey st') eqn:E; [|reflexivity].
    rewrite (Hk eq_refl) in Hno. discriminate.
Qed.

Lemma no_host_no_selected_key_witness :
  aistudio dev_without_key = None
  /\ hasKey (calls dev_without_key [call_checkKey; call_selectKey] initial) = false.
Proof.
  split; [reflexivity|].
  destruct (no_host_no_selected_key dev_without_key
              [call_checkKey; call_selectKey] eq_refl) as (H & _).
  destruct (hasKey (calls dev_without_key [call_checkKey; call_selectKey] initial));
    [discriminate (H eq_refl)|reflexivity].
Defined.

End KeyGateCallFacts.

Module AnalyzerFormFacts.
Import Video Service AnalyzerForm.




End AnalyzerFormFacts.

Module VideoEditorFacts.
Import VideoEditor.

Lemma slide_ordered ev st :
  (ordered st = true -> ordered (slide ev st) = true)
  /\ (slide ev st <> st -> ordered (slide ev st) = true)
  /\ duration (slide ev st) = duration st.
Proof.
  destruct ev as [value|value]; simpl.
  - unfold handleTrimStartChange.
    destruct (lt value (trimEnd st)) eqn:E; [|split_and!; auto; congruence].
    unfold ordered. simpl. auto.
  - unfold handleTrimEndChange, gt.
    destruct (lt (trimStart st) value) eqn:E; [|split_and!; auto; congruence].
    unfold ordered. simpl. auto.
Qed.

(** X29.  The trim sliders never empty or invert the range: from a state
    with [trimStart < trimEnd], any sequence of slider changes (any values,
    NaN and the infinities included) keeps [trimStart < trimEnd] and the
    duration; a change that is accepted always gives an ordered range,
    even from an unordered one; and [handleLoadedMetadata] keeps the range
    ordered when the start lies before the new duration. *)
Theorem sliders_keep_range_ordered evs st :
  ordered st = true ->
  ordered (slides evs st) = true
  /\ duration (slides evs st) = duration st
  /\ (forall ev st0, slide ev st0 <> st0 -> ordered (slide ev st0) = true)
  /\ (forall videoDuration,
        lt (trimStart st) videoDuration = true ->
        ordered (handleLoadedMetadata videoDuration st) = true).
Proof.
  intros Ho. split_and!.
  - revert st Ho. induction evs as [|ev evs IH]; intros st Ho; [exact Ho|].
    simpl. apply IH. apply (proj1 (slide_ordered ev st)). exact Ho.
  - clear Ho. revert st. induction evs as [|ev evs IH]; intros st; [reflexivity|].
    simpl. unfold slides in IH. rewrite IH. apply (slide_ordered ev st).
  - intros ev st0. apply (slide_ordered ev st0).
  - intros d Hd. unfold handleLoadedMetadata. simpl.
    destruct (is_zero (trimEnd st) || gt (trimEnd st) d); unfold ordered; simpl;
      assumption.
Qed.

Lemma sliders_keep_range_ordered_witness :
  ordered (mkEditor (Finite 10) (Finite 0) (Finite 10)) = true
  /\ slides [slide_start (Finite 3); slide_end (Finite 2); slide_end NaN;
             slide_end (Finite 7)]
       (mkEditor (Finite 10) (Finite 0) (Finite 10))
     = mkEditor (Finite 10) (Finite 3) (Finite 7)
  /\ ordered
       (slides [slide_start (Finite 3); slide_end (Finite 2); slide_end NaN;
                slide_end (Finite 7)]
          (mkEditor (Finite 10) (Finite 0) (Finite 10))) = true.
Proof.
  assert (H : ordered (mkEditor (Finite 10) (Finite 0) (Finite 10)) = true)
    by reflexivity.
  split; [exact H|]. split; [reflexivity|].
  exact (proj1 (sliders_keep_range_ordered
                  [slide_start (Finite 3); slide_end (Finite 2); slide_end NaN;
                   slide_end (Finite 7)] _ H)).
Defined.

End VideoEditorFacts.
